(** * Fiber resampling and the fiber tree of [neurobeer/tractography/fibers.py]

    A shallow embedding of the module [fibers.py]: the resampler
    [_calc_fiber_indices], the [FiberTree] store built on
    [defaultdict(tree)], ingestion from and export to a line-set geometry,
    scalar attachment, extraction, arc length, [convertFromTuple] and
    [copyScalar].  [addClusterInfo] is left out: the labels and centroids it
    stores are not numbers of the tree.

    Python floats are IEEE 754 binary64 numbers; they are modelled by the
    Standard Library's [spec_float] with [prec = 53] and [emax = 1024], whose
    operations compute inside Rocq.  Python exceptions are values of [exn];
    a method of [FiberTree] is a function from the object's state to the new
    state and either a result or the exception raised: what a method wrote
    before raising stays written.  [vtkPoints] keeps 32-bit floats unless it
    is told otherwise, and [convertToVTK] does not tell it: an exported
    coordinate is the stored double rounded to binary32.

    The file has four parts: the model of the module and the vocabulary of
    the statements; properties of the model, among them the binary64
    arithmetic of the sample positions; the claims about the module, one
    section each; and further properties of the module, X1 to X20. *)

From Stdlib Require Import ZArith Lia List.
From Stdlib Require Import Floats.SpecFloat.
From stdpp Require Import gmap strings list fin_maps.

Set Warnings "-register-all".
Open Scope Z_scope.

(** ** Exceptions and results *)

(** The exceptions the module can raise.  [VtkOutOfRange] stands for an
    access past the end of a [vtkIdList] or [vtkPoints]: VTK does not check
    the index, so the model stops there. *)
Inductive exn : Set :=
| TypeError
| ValueError
| ZeroDivisionError
| OverflowError
| IndexError
| VtkOutOfRange.

Inductive result (A : Type) : Type :=
| OK (a : A)
| Raise (e : exn).
Arguments OK {A} a.
Arguments Raise {A} e.

Definition bindR {A B} (m : result A) (k : A → result B) : result B :=
  match m with
  | OK a => k a
  | Raise e => Raise e
  end.

Notation "'let+' x ':=' m 'in' k" := (bindR m (fun x => k))
  (at level 10, x pattern, m at level 100, k at level 200).

Definition is_ok {A} (r : result A) : bool :=
  match r with OK _ => true | Raise _ => false end.

(** [for x in l: s = body(x, s)], stopping at the first exception. *)
Fixpoint for_each {A S} (l : list A) (body : A → S → result S) (s : S) : result S :=
  match l with
  | [] => OK s
  | x :: rest => let+ s' := body x s in for_each rest body s'
  end.

(** Python's [range(lo, hi)]. *)
Definition range (lo hi : Z) : list Z := seqZ lo (hi - lo).

(** ** Floating point: binary64 *)

Definition prec : Z := 53.
Definition emax : Z := 1024.
Abbreviation float := spec_float.

Definition float_zero : float := S754_zero false.
(** [1.0] is [2^52 * 2^-52]. *)
Definition float_one : float := S754_finite false 4503599627370496 (-52).

(** The conversion of a Python integer to a float: correctly rounded, and
    [OverflowError] when the integer is too large for a double. *)
Definition float_of_int (z : Z) : result float :=
  match binary_normalize prec emax z 0 false with
  | S754_infinity _ => Raise OverflowError
  | x => OK x
  end.

Definition float_add (x y : float) : float := SFadd prec emax x y.
Definition float_sub (x y : float) : float := SFsub prec emax x y.
Definition float_mul (x y : float) : float := SFmul prec emax x y.
Definition float_sqrt (x : float) : float := SFsqrt prec emax x.
Definition float_leb (x y : float) : bool := SFleb x y.
Definition float_eqb (x y : float) : bool := SFeqb x y.

(** [(double)(float)x]: what a 32-bit float array gives back for the double
    [x].  The conversion to binary32 rounds to nearest, ties to even, a
    number beyond the binary32 range becoming an infinity; the way back to a
    double is exact. *)
Definition float32 (x : float) : float :=
  match x with
  | S754_finite s m e =>
      match binary_round 24 128 s m e with
      | S754_finite s' m' e' => binary_round prec emax s' m' e'
      | y => y
      end
  | _ => x
  end.

Definition float_is_zero (x : float) : bool :=
  match x with S754_zero _ => true | _ => false end.

(** Python raises on a zero divisor, whatever the dividend. *)
Definition float_div (x y : float) : result float :=
  if float_is_zero y then Raise ZeroDivisionError else OK (SFdiv prec emax x y).

(** [int(round(x))]: Python 2 rounds half away from zero; [int] of a NaN is
    a [ValueError], of an infinity an [OverflowError]. *)
Definition int_round (x : float) : result Z :=
  match x with
  | S754_zero _ => OK 0
  | S754_nan => Raise ValueError
  | S754_infinity _ => Raise OverflowError
  | S754_finite s m e =>
      let a := match e with
               | Zneg k => (Zpos m + 2 ^ (Zpos k - 1)) / 2 ^ Zpos k
               | _ => Zpos m * 2 ^ e
               end in
      OK (if s then - a else a)
  end.

(** ** The resampler *)

(** [FiberTree._calc_fiber_indices(fiberLength, pts_per_fiber)].  The two
    integer arguments are converted to floats by the subtractions of [1.0];
    [idx * stepLength] converts [idx]. *)
Definition _calc_fiber_indices (fiberLength pts_per_fiber : Z) : result (list float) :=
  let+ fl := float_of_int fiberLength in
  let+ fp := float_of_int pts_per_fiber in
  let+ stepLength := float_div (float_sub fl float_one) (float_sub fp float_one) in
  for_each (range 0 pts_per_fiber)
    (fun idx idxList =>
       let+ i := float_of_int idx in
       OK (idxList ++ [float_mul i stepLength]))
    [].

(** ** The tree: [defaultdict(tree)] *)

(** Keys used by the module: fiber and point indices, and attribute names. *)
Inductive key : Set :=
| KInt (z : Z)
| KStr (s : string).

Global Instance key_eq_dec : EqDecision key.
Proof. solve_decision. Defined.

Global Instance key_countable : Countable key.
Proof.
  refine (inj_countable'
            (fun k => match k with KInt z => inl z | KStr s => inr s end)
            (fun x => match x with inl z => KInt z | inr s => KStr s end) _).
  intros []; reflexivity.
Defined.

(** A value held by the tree: a number, or a nested tree. *)
Inductive pyobj : Type :=
| PyFloat (x : float)
| PyTree (d : gmap key pyobj).

Definition empty_tree : pyobj := PyTree ∅.

(** [o[k1][k2]...] evaluated as an expression.  [defaultdict.__missing__]
    stores a new empty tree under a missing key and returns it, so the read
    returns the tree as it is afterwards.  Indexing a number raises. *)
Fixpoint tree_read (path : list key) (o : pyobj) : pyobj * result pyobj :=
  match path with
  | [] => (o, OK o)
  | k :: rest =>
      match o with
      | PyFloat _ => (o, Raise TypeError)
      | PyTree d =>
          let '(c, r) := tree_read rest (default empty_tree (d !! k)) in
          (PyTree (<[k := c]> d), r)
      end
  end.

(** [o[k1][k2]...[kn] = v]: the keys before the last are read as above, the
    last one is assigned.  A failure happens only below an existing number,
    so nothing was created before it. *)
Fixpoint tree_write (path : list key) (v : pyobj) (o : pyobj) : result pyobj :=
  match path with
  | [] => OK v
  | k :: rest =>
      match o with
      | PyFloat _ => Raise TypeError
      | PyTree d =>
          let+ c := tree_write rest v (default empty_tree (d !! k)) in
          OK (PyTree (<[k := c]> d))
      end
  end.

(** What is stored under a path, without creating anything. *)
Fixpoint tree_lookup (path : list key) (o : pyobj) : option pyobj :=
  match path with
  | [] => Some o
  | k :: rest =>
      match o with
      | PyFloat _ => None
      | PyTree d => match d !! k with Some c => tree_lookup rest c | None => None end
      end
  end.

(** [float(o)] *)
Definition py_float (o : pyobj) : result float :=
  match o with
  | PyFloat x => OK x
  | PyTree _ => Raise TypeError
  end.

(** ** The class [FiberTree] *)

Record FiberTree : Type := mkFiberTree {
  fiberTree : pyobj;
  no_of_fibers : option Z;
  pts_per_fiber : option Z
}.

(** [FiberTree.__init__] *)
Definition new_FiberTree : FiberTree :=
  {| fiberTree := empty_tree; no_of_fibers := None; pts_per_fiber := None |}.

(** A method: from the object to the object afterwards and what the call
    gives. *)
Definition M (A : Type) : Type := FiberTree → FiberTree * result A.

Definition ret {A} (a : A) : M A := fun self => (self, OK a).
Definition raise {A} (e : exn) : M A := fun self => (self, Raise e).
Definition lift {A} (r : result A) : M A := fun self => (self, r).
Definition bindM {A B} (m : M A) (k : A → M B) : M B :=
  fun self =>
    match m self with
    | (self', OK a) => k a self'
    | (self', Raise e) => (self', Raise e)
    end.

Notation "'do' x '<-' m ';' k" := (bindM m (fun x => k))
  (at level 10, x pattern, m at level 100, k at level 200).

(** [for x in l: s = body(x, s)] on the object. *)
Fixpoint foldM {A S} (l : list A) (body : A → S → M S) (s : S) : M S :=
  match l with
  | [] => ret s
  | x :: rest => do s' <- body x s; foldM rest body s'
  end.

(** [self.fiberTree[k1][k2][k3]] *)
Definition read (path : list key) : M pyobj :=
  fun self =>
    let '(t, r) := tree_read path (fiberTree self) in
    ({| fiberTree := t; no_of_fibers := no_of_fibers self;
        pts_per_fiber := pts_per_fiber self |}, r).

(** [float(self.fiberTree[k1][k2][k3])] *)
Definition read_float (path : list key) : M float :=
  do o <- read path; lift (py_float o).

(** [self.fiberTree[k1][k2][k3] = v] *)
Definition write (path : list key) (v : pyobj) : M unit :=
  fun self =>
    match tree_write path v (fiberTree self) with
    | OK t => ({| fiberTree := t; no_of_fibers := no_of_fibers self;
                  pts_per_fiber := pts_per_fiber self |}, OK tt)
    | Raise e => (self, Raise e)
    end.

Definition at_point (fidx pidx : Z) (name : string) : list key :=
  [KInt fidx; KInt pidx; KStr name].

(** ** Geometry and arrays *)

Definition point : Type := float * float * float.

(** A point as a [vtkPoints] of 32-bit floats returns it. *)
Definition point32 (pt : point) : point :=
  (float32 pt.1.1, float32 pt.1.2, float32 pt.2).

(** A [vtkPolyData]: [GetPoints()] and the cells of [GetLines()], each cell
    the list of the point ids of one fiber. *)
Record polydata : Type := mkPolydata {
  GetPoints : list point;
  GetLines : list (list Z)
}.

Definition GetNumberOfLines (g : polydata) : Z := Z.of_nat (length (GetLines g)).

(** [GetNextCell(ptIds)] on the traversal: the next cell is copied into
    [ptIds]; past the last cell [ptIds] is left as it was. *)
Definition GetNextCell (cells : list (list Z)) (ptIds : list Z)
  : list Z * list (list Z) :=
  match cells with
  | c :: rest => (c, rest)
  | [] => (ptIds, [])
  end.

Definition vtk_at {A} (l : list A) (i : Z) : result A :=
  if i <? 0 then Raise VtkOutOfRange
  else match l !! Z.to_nat i with
       | Some a => OK a
       | None => Raise VtkOutOfRange
       end.

(** [ptIds.GetId(i)] and [inputPts.GetPoint(i)] *)
Definition GetId (ptIds : list Z) (i : Z) : result Z := vtk_at ptIds i.
Definition GetPoint (pts : list point) (i : Z) : result point := vtk_at pts i.
Definition GetNumberOfIds (ptIds : list Z) : Z := Z.of_nat (length ptIds).

(** [l[i]] on a Python sequence: a negative index counts from the end. *)
Definition py_getitem {A} (l : list A) (i : Z) : result A :=
  let n := Z.of_nat (length l) in
  let j := if i <? 0 then i + n else i in
  if j <? 0 then Raise IndexError
  else match l !! Z.to_nat j with
       | Some a => OK a
       | None => Raise IndexError
       end.

(** [np.zeros(n)] and [np.zeros((rows, n))] *)
Definition np_zeros (n : Z) : result (list float) :=
  if n <? 0 then Raise ValueError else OK (replicate (Z.to_nat n) float_zero).

Definition np_zeros2 (rows : nat) (n : Z) : result (list (list float)) :=
  let+ row := np_zeros n in OK (replicate rows row).

(** [a[i] = v] and [a[i][j] = v] with indices inside the array. *)
Definition set1 (a : list float) (i : Z) (v : float) : list float :=
  <[Z.to_nat i := v]> a.

Definition set2 (a : list (list float)) (i j : Z) (v : float) : list (list float) :=
  match a !! Z.to_nat i with
  | Some row => <[Z.to_nat i := set1 row j v]> a
  | None => a
  end.

(** [self.pts_per_fiber] and [self.no_of_fibers] where an integer is needed
    ([range], [np.zeros]): before ingestion they are [None]. *)
Definition self_pts_per_fiber : M Z :=
  fun self =>
    match pts_per_fiber self with
    | Some n => (self, OK n)
    | None => (self, Raise TypeError)
    end.

Definition self_no_of_fibers : M Z :=
  fun self =>
    match no_of_fibers self with
    | Some n => (self, OK n)
    | None => (self, Raise TypeError)
    end.

Definition array3 : Type := list float * list float * list float.
Definition matrix3 : Type := list (list float) * list (list float) * list (list float).

(** ** Extraction *)

(** [FiberTree.getFiber(fiberIdx)] *)
Definition getFiber (fiberIdx : Z) : M array3 :=
  do n <- self_pts_per_fiber;
  do fiber_x <- lift (np_zeros n);
  do fiber_y <- lift (np_zeros n);
  do fiber_z <- lift (np_zeros n);
  foldM (range 0 n)
    (fun pidx '(fiber_x, fiber_y, fiber_z) =>
       do x <- read_float (at_point fiberIdx pidx "x");
       do y <- read_float (at_point fiberIdx pidx "y");
       do z <- read_float (at_point fiberIdx pidx "z");
       ret (set1 fiber_x pidx x, set1 fiber_y pidx y, set1 fiber_z pidx z))
    (fiber_x, fiber_y, fiber_z).

(** [FiberTree.getFibers(fidxes, rejIdx=[])] *)
Definition getFibers (fidxes rejIdx : list Z) : M matrix3 :=
  do n <- self_pts_per_fiber;
  do fiberArray_x <- lift (np_zeros2 (length fidxes) n);
  do fiberArray_y <- lift (np_zeros2 (length fidxes) n);
  do fiberArray_z <- lift (np_zeros2 (length fidxes) n);
  do out <-
    foldM fidxes
      (fun fidx '(idx, arrays) =>
         if bool_decide (fidx ∈ rejIdx) then ret (idx, arrays)
         else
           do arrays' <-
             foldM (range 0 n)
               (fun pidx '(ax, ay, az) =>
                  do x <- read_float (at_point fidx pidx "x");
                  do y <- read_float (at_point fidx pidx "y");
                  do z <- read_float (at_point fidx pidx "z");
                  ret (set2 ax idx pidx x, set2 ay idx pidx y, set2 az idx pidx z))
               arrays;
           ret (idx + 1, arrays'))
      (0, (fiberArray_x, fiberArray_y, fiberArray_z));
  ret (snd out).

(** [FiberTree.getScalar(fidx, scalarType)] *)
Definition getScalar (fidx : Z) (scalarType : string) : M (list float) :=
  do n <- self_pts_per_fiber;
  do scalarList <- lift (np_zeros n);
  foldM (range 0 n)
    (fun pidx scalarList =>
       do v <- read_float (at_point fidx pidx scalarType);
       ret (set1 scalarList pidx v))
    scalarList.

(** [FiberTree.getScalars(fidxes, scalarType)] *)
Definition getScalars (fidxes : list Z) (scalarType : string) : M (list (list float)) :=
  do n <- self_pts_per_fiber;
  do scalarList <- lift (np_zeros2 (length fidxes) n);
  do out <-
    foldM fidxes
      (fun fidx '(idx, scalarList) =>
         do scalarList' <-
           foldM (range 0 n)
             (fun pidx scalarList =>
                do v <- read_float (at_point fidx pidx scalarType);
                ret (set2 scalarList idx pidx v))
             scalarList;
         ret (idx + 1, scalarList'))
      (0, scalarList);
  ret (snd out).

(** ** Ingestion, scalar attachment and export *)

(** The sample positions of one fiber turned into point ids:
    [ptIds.GetId(int(round(lineIdx)))]. *)
Definition sample_id (ptIds : list Z) (lineIdx : float) : result Z :=
  let+ k := int_round lineIdx in GetId ptIds k.

(** [FiberTree.convertFromVTK(inputVTK, pts_per_fiber=20)]; [pts] is the
    keyword argument when given.  The messages printed when [verbose] is 1
    change nothing and are left out. *)
Definition convertFromVTK (inputVTK : polydata) (pts : option Z) : M unit :=
  fun self =>
    let self1 := {| fiberTree := fiberTree self;
                    no_of_fibers := Some (GetNumberOfLines inputVTK);
                    pts_per_fiber := Some (default 20 pts) |} in
    let inputPts := GetPoints inputVTK in
    (do nf <- self_no_of_fibers;
     do _ <-
       foldM (range 0 nf)
         (fun fidx '(ptIds0, cells0) =>
            let '(ptIds, cells) := GetNextCell cells0 ptIds0 in
            let fiberLength := GetNumberOfIds ptIds in
            do n <- self_pts_per_fiber;
            do positions <- lift (_calc_fiber_indices fiberLength n);
            do _ <-
              foldM positions
                (fun lineIdx pidx =>
                   do ptidx <- lift (sample_id ptIds lineIdx);
                   do pt <- lift (GetPoint inputPts ptidx);
                   do _ <- write (at_point fidx pidx "x") (PyFloat (pt.1.1));
                   do _ <- write (at_point fidx pidx "y") (PyFloat (pt.1.2));
                   do _ <- write (at_point fidx pidx "z") (PyFloat (pt.2));
                   ret (pidx + 1))
                0;
            ret (ptIds, cells))
         ([], GetLines inputVTK);
     ret tt) self1.

(** [FiberTree.addScalar(inputVTK, scalarData, scalarType, pts_per_fiber=20)] *)
Definition addScalar (inputVTK : polydata) (scalarData : list float)
    (scalarType : string) (pts : option Z) : M unit :=
  let n := default 20 pts in
  do nf <- self_no_of_fibers;
  do _ <-
    foldM (range 0 nf)
      (fun fidx '(ptIds0, cells0) =>
         let '(ptIds, cells) := GetNextCell cells0 ptIds0 in
         let fiberLength := GetNumberOfIds ptIds in
         do positions <- lift (_calc_fiber_indices fiberLength n);
         do _ <-
           foldM positions
             (fun lineIdx pidx =>
                do ptidx <- lift (sample_id ptIds lineIdx);
                do v <- lift (py_getitem scalarData ptidx);
                do _ <- write (at_point fidx pidx scalarType) (PyFloat v);
                ret (pidx + 1))
             0;
         ret (ptIds, cells))
      ([], GetLines inputVTK);
  ret tt.

(** [FiberTree.convertToVTK(rejIdx=[])].  The three arguments of
    [InsertNextPoint] are read from the tree first; the call then needs
    numbers.  [outPts] is a [vtk.vtkPoints()] as it is created, an array of
    32-bit floats: each coordinate is kept rounded to binary32, and that is
    what [GetPoint] of the returned geometry gives. *)
Definition convertToVTK (rejIdx : list Z) : M polydata :=
  do nf <- self_no_of_fibers;
  do out <-
    foldM (range 0 nf)
      (fun fidx '(outPts, outFibers) =>
         if bool_decide (fidx ∈ rejIdx) then ret (outPts, outFibers)
         else
           do n <- self_pts_per_fiber;
           do fiber <-
             foldM (range 0 n)
               (fun pidx '(outPts, ptIds) =>
                  do ox <- read (at_point fidx pidx "x");
                  do oy <- read (at_point fidx pidx "y");
                  do oz <- read (at_point fidx pidx "z");
                  do x <- lift (py_float ox);
                  do y <- lift (py_float oy);
                  do z <- lift (py_float oz);
                  let idx := Z.of_nat (length outPts) in
                  ret (outPts ++ [(float32 x, float32 y, float32 z)], ptIds ++ [idx]))
               (outPts, []);
           ret (fst fiber, outFibers ++ [snd fiber]))
      ([], []);
  ret {| GetPoints := fst out; GetLines := snd out |}.

(** ** Arc length *)

(** [a - b] on two values of the tree. *)
Definition py_sub (a b : pyobj) : result float :=
  match a, b with
  | PyFloat x, PyFloat y => OK (float_sub x y)
  | _, _ => Raise TypeError
  end.

(** [x ** 2] on a Python float: the square, and [OverflowError] when the
    square of a finite number is out of range. *)
Definition float_pow2 (x : float) : result float :=
  match x, float_mul x x with
  | S754_finite _ _ _, S754_infinity _ => Raise OverflowError
  | _, y => OK y
  end.

(** [np.sqrt((x2 - x1)**2 + (y2 - y1)**2 + (z2 - z1)**2)] *)
Definition segment_length (x1 x2 y1 y2 z1 z2 : pyobj) : result float :=
  let+ dx := py_sub x2 x1 in
  let+ dx2 := float_pow2 dx in
  let+ dy := py_sub y2 y1 in
  let+ dy2 := float_pow2 dy in
  let+ dz := py_sub z2 z1 in
  let+ dz2 := float_pow2 dz in
  OK (float_sqrt (float_add (float_add dx2 dy2) dz2)).

(** [calcFiberLength(fiberData, fidxes)]; the object is [fiberData].  In
    Python 2 [None < 2] holds, so a tree that was never ingested raises the
    same [ValueError]. *)
Definition calcFiberLength (fidxes : list Z) : M (list float) :=
  fun fiberData =>
    match pts_per_fiber fiberData with
    | None => (fiberData, Raise ValueError)
    | Some no_of_pts =>
        if no_of_pts <? 2 then (fiberData, Raise ValueError)
        else
          foldM fidxes
            (fun fidx LArray =>
               do L <-
                 foldM (range 1 no_of_pts)
                   (fun idx L =>
                      do x1 <- read (at_point fidx idx "x");
                      do x2 <- read (at_point fidx (idx - 1) "x");
                      do y1 <- read (at_point fidx idx "y");
                      do y2 <- read (at_point fidx (idx - 1) "y");
                      do z1 <- read (at_point fidx idx "z");
                      do z2 <- read (at_point fidx (idx - 1) "z");
                      do d <- lift (segment_length x1 x2 y1 y2 z1 z2);
                      ret (float_add L d))
                   float_zero;
               ret (LArray ++ [L]))
            [] fiberData
    end.

(** ** Reading the store without touching it *)

(** The number stored under a path, if there is one. *)
Definition obj_float_at (path : list key) (o : pyobj) : option float :=
  match tree_lookup path o with
  | Some (PyFloat x) => Some x
  | _ => None
  end.

Definition float_at (path : list key) (self : FiberTree) : option float :=
  obj_float_at path (fiberTree self).

(** Two states of an object that hold the same numbers under the same
    paths and the same counts: they differ at most by empty subtrees. *)
Definition frozen (self self' : FiberTree) : Prop :=
  no_of_fibers self' = no_of_fibers self ∧
  pts_per_fiber self' = pts_per_fiber self ∧
  ∀ q, float_at q self' = float_at q self.

(** A computation that only reads numbers: it leaves the numbers and the
    counts as they are, leaves the whole object as it is when it returns, and
    what it gives depends on the numbers and the counts only. *)
Definition Reader {A} (m : M A) : Prop :=
  ∀ self self' r, m self = (self', r) →
    frozen self self' ∧
    (is_ok r = true → self' = self) ∧
    (∀ other, frozen self other → snd (m other) = r).

(** ** Invariant and loops of ingestion *)

(** Every number of the store sits under a fiber, a point and a name. *)
Definition depth3 (self : FiberTree) : Prop :=
  ∀ q x, float_at q self = Some x → length q = 3%nat.

(** [mapR f l]: the results of [f] on the elements of [l], or the first
    exception. *)
Fixpoint mapR {A B} (f : A → result B) (l : list A) : result (list B) :=
  match l with
  | [] => OK []
  | x :: rest => let+ y := f x in let+ ys := mapR f rest in OK (y :: ys)
  end.

(** The loop of [convertFromVTK] and of [addScalar] over the sample positions
    of one fiber: the point id of the sample is looked up, a value is fetched
    for it and stored under the fiber and the sample index. *)
Definition fiber_loop {V} (fetch : Z → result V) (store : Z → Z → V → M unit)
    (ptIds : list Z) (fidx : Z) (positions : list float) (pidx0 : Z) : M Z :=
  foldM positions
    (fun lineIdx pidx =>
       do ptidx <- lift (sample_id ptIds lineIdx);
       do v <- lift (fetch ptidx);
       do _ <- store fidx pidx v;
       ret (pidx + 1))
    pidx0.

(** The loop over the fibers, with the traversal of the cells. *)
Definition fibers_loop {V} (fetch : Z → result V) (store : Z → Z → V → M unit)
    (get_n : M Z) (fidxes : list Z) (ptIds0 : list Z) (cells0 : list (list Z))
  : M (list Z * list (list Z)) :=
  foldM fidxes
    (fun fidx '(ptIds0, cells0) =>
       let '(ptIds, cells) := GetNextCell cells0 ptIds0 in
       let fiberLength := GetNumberOfIds ptIds in
       do n <- get_n;
       do positions <- lift (_calc_fiber_indices fiberLength n);
       do _ <- fiber_loop fetch store ptIds fidx positions 0;
       ret (ptIds, cells))
    (ptIds0, cells0).

(** The value fetched for one sample position, and for all the samples of a
    fiber resampled to [n] points. *)
Definition fetch_sample {V} (fetch : Z → result V) (ptIds : list Z) (lineIdx : float)
  : result V :=
  let+ ptidx := sample_id ptIds lineIdx in fetch ptidx.

Definition fiber_samples {V} (fetch : Z → result V) (n : Z) (ptIds : list Z)
  : result (list V) :=
  let+ positions := _calc_fiber_indices (GetNumberOfIds ptIds) n in
  mapR (fetch_sample fetch ptIds) positions.

(** The entry of a table of samples for fiber [f] and sample index [p]. *)
Definition cell {V} (vss : list (list V)) (f p : Z) : option V :=
  if bool_decide (0 ≤ f ∧ 0 ≤ p)
  then match vss !! Z.to_nat f with
       | Some vs => vs !! Z.to_nat p
       | None => None
       end
  else None.

(** The three assignments of [convertFromVTK] for one sample. *)
Definition store_point (fidx pidx : Z) (pt : point) : M unit :=
  do _ <- write (at_point fidx pidx "x") (PyFloat (pt.1.1));
  do _ <- write (at_point fidx pidx "y") (PyFloat (pt.1.2));
  write (at_point fidx pidx "z") (PyFloat (pt.2)).

(** The assignment of [addScalar] for one sample. *)
Definition store_scalar (scalarType : string) (fidx pidx : Z) (v : float) : M unit :=
  write (at_point fidx pidx scalarType) (PyFloat v).

Definition coord (a : string) (pt : point) : float :=
  if bool_decide (a = "x") then pt.1.1
  else if bool_decide (a = "y") then pt.1.2
  else pt.2.

Definition started (inputVTK : polydata) (pts : option Z) (self : FiberTree) : FiberTree :=
  {| fiberTree := fiberTree self;
     no_of_fibers := Some (GetNumberOfLines inputVTK);
     pts_per_fiber := Some (default 20 pts) |}.

(** The object with another [pts_per_fiber]. *)
Definition with_pts (m : option Z) (self : FiberTree) : FiberTree :=
  {| fiberTree := fiberTree self; no_of_fibers := no_of_fibers self;
     pts_per_fiber := m |}.

(** A computation that does not look at [self.pts_per_fiber]. *)
Definition PtsBlind {A} (c : M A) : Prop :=
  ∀ self m, c (with_pts m self) = (with_pts m (fst (c self)), snd (c self)).

(** ** Stored points, arc length and exported coordinates *)

(** The point the store holds for fiber [f] at sample index [i]. *)
Definition stored_point (self : FiberTree) (f i : Z) : option point :=
  match float_at (at_point f i "x") self,
        float_at (at_point f i "y") self,
        float_at (at_point f i "z") self with
  | Some x, Some y, Some z => Some (x, y, z)
  | _, _, _ => None
  end.

(** The Euclidean distance of two points in Python's arithmetic. *)
Definition dist (p q : point) : result float :=
  let+ dx2 := float_pow2 (float_sub (p.1.1) (q.1.1)) in
  let+ dy2 := float_pow2 (float_sub (p.1.2) (q.1.2)) in
  let+ dz2 := float_pow2 (float_sub (p.2) (q.2)) in
  OK (float_sqrt (float_add (float_add dx2 dy2) dz2)).

(** The sum over [i] from 1 to [n - 1] of [dist(p[i-1], p[i])]. *)
Definition arc_length (p : Z → point) (n : Z) : result float :=
  for_each (range 1 n)
    (fun i acc => let+ d := dist (p (i - 1)) (p i) in OK (float_add acc d))
    float_zero.

(** The coordinates of the fibers of a geometry, fiber by fiber and in the
    order of the points of each fiber. *)
Definition fiber_coords (g : polydata) : result (list (list point)) :=
  mapR (mapR (GetPoint (GetPoints g))) (GetLines g).

(** What one turn of the inner and of the outer loop of [convertToVTK] do
    to the points and lines built so far. *)
Definition export_point (P : Z → Z → point) (f p : Z) (acc : list point * list Z)
  : list point * list Z :=
  (acc.1 ++ [P f p], acc.2 ++ [Z.of_nat (length (acc.1))]).

Definition export_fiber (P : Z → Z → point) (n : Z) (f : Z)
    (acc : list point * list (list Z)) : list point * list (list Z) :=
  let fiber := foldl (fun a p => export_point P f p a) (acc.1, []) (range 0 n) in
  (fiber.1, acc.2 ++ [fiber.2]).

(** ** Binary64: mantissas and rounding *)

(** [float(z)] when [z] is not too large. *)
Definition fl (z : Z) : float := binary_normalize prec emax z 0 false.

(** The number of binary digits of a positive mantissa. *)
Definition digits (m : positive) : Z := Zpos (digits2_pos m).

(** [M / 2^k] rounded to the nearest integer, ties to even. *)
Definition rne (M k : Z) : Z :=
  let q := M / 2 ^ k in
  match 2 * (M mod 2 ^ k) ?= 2 ^ k with
  | Lt => q
  | Gt => q + 1
  | Eq => if Z.even q then q else q + 1
  end.

(** The float of mantissa [q] and exponent [e], or the infinity when the
    exponent is too large. *)
Definition finish (sx : bool) (q e : Z) : float :=
  if e <=? 971 then S754_finite sx (Z.to_pos q) e else S754_infinity sx.

(** The same after a rounding that may have carried up to [2^53]. *)
Definition norm_result (sx : bool) (q e : Z) : float :=
  if q =? 2 ^ 53 then finish sx (2 ^ 52) (e + 1) else finish sx q e.

(** The mantissa of 53 digits of a positive integer of at most 53 digits. *)
Definition mant (p : positive) : positive := Z.to_pos (Zpos p * 2 ^ (53 - digits p)).

(** The mantissa [N >= 2^52] rounded to 53 digits: the mantissa and the
    shift of the nearest double. *)
Definition round53 (N : positive) : Z * Z :=
  let k := digits N - 53 in
  let a := rne (Zpos N) k in
  if a =? 2 ^ 53 then (2 ^ 52, k + 1) else (a, k).

(** ** Example geometries *)

Definition pt3 (x y z : Z) : point := (fl x, fl y, fl z).

(** Two fibers of three points; the second ends on a point of the first. *)
Definition two_fibers : polydata :=
  {| GetPoints := [pt3 0 0 0; pt3 1 0 0; pt3 1 1 0; pt3 5 5 5; pt3 7 7 7];
     GetLines := [[0; 1; 2]; [3; 4; 2]] |}.

Definition ingested (g : polydata) (n : Z) : FiberTree :=
  fst (convertFromVTK g (Some n) new_FiberTree).

(** Four fibers of two points. *)
Definition four_fibers : polydata :=
  {| GetPoints := [pt3 0 0 0; pt3 1 0 0; pt3 2 0 0; pt3 3 0 0;
                   pt3 4 0 0; pt3 5 0 0; pt3 6 0 0; pt3 7 0 0];
     GetLines := [[0; 1]; [2; 3]; [4; 5]; [6; 7]] |}.


(** A fiber of one point next to a fiber of three. *)
Definition short_fiber : polydata :=
  {| GetPoints := [pt3 9 9 9; pt3 0 0 0; pt3 1 0 0; pt3 1 1 0];
     GetLines := [[0]; [1; 2; 3]] |}.

(** One fiber of one point. *)
Definition lone_point : polydata :=
  {| GetPoints := [pt3 1 2 3]; GetLines := [[0]] |}.


(** ** [convertFromTuple] *)

(** [m[i][j]] on a matrix. *)
Definition getitem2 (m : list (list float)) (i j : Z) : result float :=
  let+ row := py_getitem m i in py_getitem row j.

(** [convertFromTuple(fiberTuple)], the tuple being the three matrices that
    [getFibers] returns.  The new [FiberTree] is local to the function: when
    an exception is raised nobody holds it, so only a returned object is
    modelled.  The elements are stored as they are; the model holds them as
    the numbers [float()] makes of them. *)
Definition convertFromTuple (fiberTuple : matrix3) : result FiberTree :=
  let fiberTree0 := new_FiberTree in
  let+ row0 := py_getitem fiberTuple.1.1 0 in
  let fiberTree1 :=
    {| fiberTree := fiberTree fiberTree0;
       no_of_fibers := Some (Z.of_nat (length fiberTuple.1.1));
       pts_per_fiber := Some (Z.of_nat (length row0)) |} in
  let run :=
    do nf <- self_no_of_fibers;
    foldM (range 0 nf)
      (fun fidx (_ : unit) =>
         do n <- self_pts_per_fiber;
         foldM (range 0 n)
           (fun pidx (_ : unit) =>
              do x <- lift (getitem2 fiberTuple.1.1 fidx pidx);
              do _ <- write (at_point fidx pidx "x") (PyFloat x);
              do y <- lift (getitem2 fiberTuple.1.2 fidx pidx);
              do _ <- write (at_point fidx pidx "y") (PyFloat y);
              do z <- lift (getitem2 fiberTuple.2 fidx pidx);
              write (at_point fidx pidx "z") (PyFloat z))
           tt)
      tt in
  match run fiberTree1 with
  | (self, OK _) => OK self
  | (_, Raise e) => Raise e
  end.

(** A tuple of three [rows] by [cols] matrices. *)
Definition rectangular (rows cols : nat) (t : matrix3) : Prop :=
  ∀ m, m ∈ [t.1.1; t.1.2; t.2] →
    length m = rows ∧ ∀ row, row ∈ m → length row = cols.

(** ** [copyScalar] *)

(** [copyScalar] works on two objects, [self] and [fiberData]: a computation
    on the pair.  The two are taken to be distinct objects. *)
Definition M2 (A : Type) : Type :=
  FiberTree * FiberTree → (FiberTree * FiberTree) * result A.

Definition ret2 {A} (a : A) : M2 A := fun st => (st, OK a).

Definition bind2 {A B} (m : M2 A) (k : A → M2 B) : M2 B :=
  fun st =>
    match m st with
    | (st', OK a) => k a st'
    | (st', Raise e) => (st', Raise e)
    end.

Definition on_self {A} (m : M A) : M2 A :=
  fun st => let '(s, r) := m st.1 in ((s, st.2), r).

Definition on_fiberData {A} (m : M A) : M2 A :=
  fun st => let '(d, r) := m st.2 in ((st.1, d), r).

Fixpoint foldM2 {A S} (l : list A) (body : A → S → M2 S) (s : S) : M2 S :=
  match l with
  | [] => ret2 s
  | x :: rest => bind2 (body x s) (foldM2 rest body)
  end.

(** The loop of [copyScalar] over the fibers of [source], shared by its two
    branches. *)
Definition copy_fibers (Type_ : string) (source rejIdx : list Z) : M2 Z :=
  foldM2 source
    (fun fidx idx =>
       if bool_decide (fidx ∈ rejIdx) then ret2 idx
       else
         bind2 (on_fiberData self_pts_per_fiber) (fun n =>
         bind2 (foldM2 (range 0 n)
                  (fun pidx (_ : unit) =>
                     bind2 (on_fiberData (read_float (at_point fidx pidx Type_))) (fun v =>
                     on_self (write (at_point idx pidx Type_) (PyFloat v))))
                  tt) (fun _ =>
         ret2 (idx + 1))))
    0.

(** [FiberTree.copyScalar(fiberData, scalarTypeArray, fidxes=[], rejIdx=[])] *)
Definition copyScalar (scalarTypeArray : list string) (fidxes rejIdx : list Z) : M2 unit :=
  foldM2 scalarTypeArray
    (fun Type_ (_ : unit) =>
       match fidxes with
       | _ :: _ =>
           bind2 (copy_fibers Type_ fidxes rejIdx) (fun _ => ret2 tt)
       | [] =>
           bind2 (on_fiberData self_no_of_fibers) (fun nf =>
           bind2 (copy_fibers Type_ (range 0 nf) rejIdx) (fun _ => ret2 tt))
       end)
    tt.

(** A computation that may create empty subtrees but changes no number and
    no count. *)
Definition Keeps {A} (m : M A) : Prop :=
  ∀ self self' r, m self = (self', r) → frozen self self'.

(** A computation whose exceptions all lie in [E]. *)
Definition Raises {A} (E : exn → Prop) (m : M A) : Prop :=
  ∀ self self' e, m self = (self', Raise e) → E e.

(** A computation that leaves the two counts alone and changes no number
    stored under fiber, point and a name other than [name]. *)
Definition OnlyUnder (name : string) {A} (m : M A) : Prop :=
  ∀ self self' r, m self = (self', r) →
    no_of_fibers self' = no_of_fibers self ∧
    pts_per_fiber self' = pts_per_fiber self ∧
    ∀ f p a, a ≠ name →
      float_at (at_point f p a) self' = float_at (at_point f p a) self.

(** ** Resampled geometries, selections and matrices *)

(** [int(round(c * 2^x))] for a positive mantissa [c]: halves go up. *)
Definition nearest_int (c x : Z) : Z :=
  match x with
  | Zneg k => (c + 2 ^ (Zpos k - 1)) / 2 ^ Zpos k
  | _ => c * 2 ^ x
  end.

(** A geometry [convertFromVTK] can resample: every fiber has between one
    and [2^49] points, and every point id is an index of [GetPoints()]. *)
Definition well_formed (g : polydata) : Prop :=
  ∀ ptIds, ptIds ∈ GetLines g →
    1 ≤ GetNumberOfIds ptIds ≤ 2 ^ 49 ∧
    ∀ id, id ∈ ptIds → 0 ≤ id < Z.of_nat (length (GetPoints g)).

(** The fibers of a list that are not excluded, in order. *)
Definition not_rejected (rejIdx fidxes : list Z) : list Z :=
  List.filter (fun f => negb (bool_decide (f ∈ rejIdx))) fidxes.

(** The fibers [convertToVTK] keeps: those of [range(0, no_of_fibers)] that
    are not in [rejIdx], in order. *)
Definition kept (rejIdx : list Z) (nf : Z) : list Z :=
  not_rejected rejIdx (range 0 nf).

(** The fibers that [copyScalar] copies, in the order in which it numbers
    them: those of [fidxes], or all [nf] fibers of [fiberData] when [fidxes]
    is empty, without the excluded ones. *)
Definition copied (fidxes rejIdx : list Z) (nf : Z) : list Z :=
  not_rejected rejIdx
    match fidxes with
    | [] => range 0 nf
    | _ :: _ => fidxes
    end.

(** The element of a matrix at row [f] and column [p], [0.0] outside. *)
Definition entry (m : list (list float)) (f p : Z) : float :=
  default float_zero (row ← m !! Z.to_nat f; row !! Z.to_nat p).

(** The point a tuple of matrices holds for fiber [f] at index [p]. *)
Definition tuple_point (t : matrix3) (f p : Z) : point :=
  (entry t.1.1 f p, entry t.1.2 f p, entry t.2 f p).

(** * Properties *)

(** ** The error monads *)

Lemma bindM_ok {A B} (m : M A) (k : A → M B) self self' a :
  m self = (self', OK a) → bindM m k self = k a self'.
Proof. intros H. unfold bindM. rewrite H. reflexivity. Qed.

Lemma bindM_raise {A B} (m : M A) (k : A → M B) self self' e :
  m self = (self', Raise e) → bindM m k self = (self', Raise e).
Proof. intros H. unfold bindM. rewrite H. reflexivity. Qed.

Lemma bindM_inv_ok {A B} (m : M A) (k : A → M B) self self' b :
  bindM m k self = (self', OK b) →
  ∃ mid a, m self = (mid, OK a) ∧ k a mid = (self', OK b).
Proof.
  unfold bindM. destruct (m self) as [mid [a|e]]; intros H.
  - exists mid, a. split; [reflexivity | exact H].
  - discriminate H.
Qed.

Lemma foldM_app {A S} (l1 l2 : list A) (body : A → S → M S) s self :
  foldM (l1 ++ l2) body s self = bindM (foldM l1 body s) (foldM l2 body) self.
Proof.
  revert s self. induction l1 as [|x l1 IH]; intros s self; simpl.
  - reflexivity.
  - unfold bindM. destruct (body x s self) as [mid [s1|e]]; [|reflexivity].
    rewrite IH. reflexivity.
Qed.

Lemma foldM_ext {A S} (l : list A) (b1 b2 : A → S → M S) :
  (∀ x s self, b1 x s self = b2 x s self) →
  ∀ s self, foldM l b1 s self = foldM l b2 s self.
Proof.
  intros H. induction l as [|x l IH]; intros s self; simpl; [reflexivity|].
  unfold bindM. rewrite H. destruct (b2 x s self) as [mid [s'|e]]; [apply IH|reflexivity].
Qed.

Lemma bindM_ext {A B} (m1 m2 : M A) (k1 k2 : A → M B) self :
  m1 self = m2 self → (∀ a st, k1 a st = k2 a st) →
  bindM m1 k1 self = bindM m2 k2 self.
Proof.
  intros Hm Hk. unfold bindM. rewrite Hm.
  destruct (m2 self) as [st [a|e]]; [apply Hk|reflexivity].
Qed.

Lemma foldM_pure {A S} (l : list A) (body : A → S → M S) (f : A → S → S) self :
  (∀ x s, x ∈ l → body x s self = (self, OK (f x s))) →
  ∀ s, foldM l body s self = (self, OK (foldl (fun s x => f x s) s l)).
Proof.
  induction l as [|x l IH]; intros H s; simpl; [reflexivity|].
  erewrite bindM_ok by (apply H; left).
  apply IH. intros y s' Hy. apply H. right. exact Hy.
Qed.

Lemma foldM_raises {A S} (l : list A) (body : A → S → M S) (bad : A) e self :
  bad ∈ l →
  (∀ x s, Reader (body x s)) →
  (∀ x s st st' e', body x s st = (st', Raise e') → e' = e) →
  (∀ s st, frozen self st → snd (body bad s st) = Raise e) →
  ∀ s st, frozen self st → snd (foldM l body s st) = Raise e.
Proof.
  intros Hin Hrd Honly Hbad. induction l as [|x l IH]; intros s st Hfz.
  - apply elem_of_nil in Hin. contradiction.
  - simpl. unfold bindM. destruct (body x s st) as [st1 [s1|e1]] eqn:Hb.
    + destruct (Hrd x s _ _ _ Hb) as (_ & Hsame & _).
      rewrite (Hsame eq_refl). apply elem_of_cons in Hin as [->|Hin].
      * specialize (Hbad s st Hfz). rewrite Hb in Hbad. discriminate.
      * apply IH; assumption.
    + simpl. f_equal. eapply Honly. exact Hb.
Qed.

Lemma foldM_invariant {A S} (P : S → Prop) (l : list A) (body : A → S → M S) :
  (∀ x s st st' s', P s → body x s st = (st', OK s') → P s') →
  ∀ s st st' s', P s → foldM l body s st = (st', OK s') → P s'.
Proof.
  intros Hb. induction l as [|x l IH]; intros s st st' s' Hs H; simpl in H.
  - unfold ret in H. injection H as _ <-. exact Hs.
  - apply bindM_inv_ok in H as (mid & s1 & H1 & H2).
    eapply IH; [|exact H2]. eapply Hb; eassumption.
Qed.

Lemma foldM_lifted {A S} (l : list A) (body : A → S → M S) (g : A → S → result S) self :
  (∀ x s, x ∈ l → body x s self = (self, g x s)) →
  ∀ s, foldM l body s self = (self, for_each l g s).
Proof.
  induction l as [|x l IH]; intros H s; simpl; [reflexivity|].
  unfold bindM. rewrite (H x s) by left.
  destruct (g x s) as [s'|e]; simpl; [|reflexivity].
  apply IH. intros y t Hy. apply H. right. exact Hy.
Qed.

(** ** Lists of results *)

Lemma mapR_ok {A B} (f : A → result B) (l : list A) : ∀ ys,
  mapR f l = OK ys →
  length ys = length l ∧
  ∀ i x, l !! i = Some x → ∃ y, f x = OK y ∧ ys !! i = Some y.
Proof.
  induction l as [|x l IH]; intros ys H; simpl in H.
  - injection H as <-. split; [reflexivity|]. intros i x Hx. rewrite lookup_nil in Hx.
    discriminate.
  - destruct (f x) as [y|e] eqn:Hy; simpl in H; [|discriminate].
    destruct (mapR f l) as [ys'|e]; simpl in H; [|discriminate].
    injection H as <-. destruct (IH ys' eq_refl) as [Hlen Hel].
    split; [simpl; lia|]. intros [|i] x' Hx'; simpl in Hx'.
    + injection Hx' as <-. exists y. split; [exact Hy|reflexivity].
    + apply Hel. exact Hx'.
Qed.

Lemma mapR_ext {A B} (f g : A → result B) (l : list A) :
  (∀ x, x ∈ l → f x = g x) → mapR f l = mapR g l.
Proof.
  induction l as [|x l IH]; intros H; simpl; [reflexivity|].
  rewrite (H x) by left. rewrite IH; [reflexivity|].
  intros y Hy. apply H. right. exact Hy.
Qed.

Lemma mapR_pure {A B} (f : A → result B) (g : A → B) (l : list A) :
  (∀ x, x ∈ l → f x = OK (g x)) → mapR f l = OK (map g l).
Proof.
  induction l as [|x l IH]; intros H; simpl; [reflexivity|].
  rewrite (H x) by left. cbn [bindR]. rewrite IH; [reflexivity|].
  intros y Hy. apply H. right. exact Hy.
Qed.

Lemma mapR_app {A B} (f : A → result B) (l1 l2 : list A) :
  mapR f (l1 ++ l2) =
  let+ a := mapR f l1 in let+ b := mapR f l2 in OK (a ++ b).
Proof.
  induction l1 as [|x l1 IH]; simpl.
  - destruct (mapR f l2); reflexivity.
  - destruct (f x) as [y|e]; simpl; [|reflexivity]. rewrite IH.
    destruct (mapR f l1) as [a|e]; simpl; [|reflexivity].
    destruct (mapR f l2) as [b|e]; reflexivity.
Qed.

Lemma mapR_map {A B C} (f : B → result C) (g : A → B) (l : list A) :
  mapR f (map g l) = mapR (fun x => f (g x)) l.
Proof.
  induction l as [|x l IH]; simpl; [reflexivity|]. rewrite IH. reflexivity.
Qed.

Lemma mapR_mono {A B} (f g : A → result B) (l : list A) ys :
  (∀ x y, x ∈ l → f x = OK y → g x = OK y) →
  mapR f l = OK ys → mapR g l = OK ys.
Proof.
  revert ys. induction l as [|x l IH]; intros ys H Hm; simpl in *; [exact Hm|].
  destruct (f x) as [y|e] eqn:Hy; simpl in Hm; [|discriminate].
  destruct (mapR f l) as [ys'|e] eqn:Hys; simpl in Hm; [|discriminate].
  rewrite (H x y ltac:(left) Hy). cbn [bindR].
  rewrite (IH ys'); [exact Hm| |reflexivity].
  intros z w Hz. apply H. right. exact Hz.
Qed.


Lemma mapR_total {A B} (f : A → result B) (l : list A) :
  (∀ x, x ∈ l → is_ok (f x) = true) →
  ∃ ys, mapR f l = OK ys ∧ length ys = length l.
Proof.
  induction l as [|x l IH]; intros H; simpl.
  - exists []. split; reflexivity.
  - pose proof (H x ltac:(left)) as Hx. destruct (f x) as [y|e]; [|discriminate].
    destruct IH as (ys & -> & Hlen); [intros z Hz; apply H; right; exact Hz|].
    exists (y :: ys). split; [reflexivity|]. simpl. lia.
Qed.

Lemma mapR_each {A B} (f : A → result B) (l : list A) :
  (∀ x, x ∈ l → is_ok (f x) = true) → is_ok (mapR f l) = true.
Proof.
  intros H. destruct (mapR_total f l H) as (ys & -> & _). reflexivity.
Qed.

Lemma for_each_append {A B C} (f : A → result B) (g : B → C) (l : list A) : ∀ acc,
  for_each l (fun x acc => let+ y := f x in OK (acc ++ [g y])) acc =
  let+ ys := mapR (fun x => let+ y := f x in OK (g y)) l in OK (acc ++ ys).
Proof.
  induction l as [|x l IH]; intros acc; simpl.
  - rewrite app_nil_r. reflexivity.
  - destruct (f x) as [y|e]; simpl; [|reflexivity].
    rewrite IH. destruct (mapR _ l) as [ys|e]; simpl; [|reflexivity].
    rewrite <- app_assoc. reflexivity.
Qed.

Lemma length_range lo hi : length (range lo hi) = Z.to_nat (hi - lo).
Proof. unfold range. apply length_seqZ. Qed.

Lemma elem_of_range p lo hi : p ∈ range lo hi ↔ lo ≤ p < hi.
Proof. unfold range. rewrite elem_of_seqZ. lia. Qed.

Lemma vtk_at_app {A} (l l' : list A) i a :
  vtk_at l i = OK a → vtk_at (l ++ l') i = OK a.
Proof.
  unfold vtk_at. destruct (i <? 0); [discriminate|].
  destruct (l !! Z.to_nat i) as [b|] eqn:Hl; [|discriminate].
  intros H. rewrite (lookup_app_l_Some _ _ _ _ Hl). exact H.
Qed.

Lemma vtk_at_middle {A} (pre l suf : list A) (i : nat) :
  vtk_at (pre ++ l ++ suf) (Z.of_nat (length pre + i)) =
  match l !! i with
  | Some a => OK a
  | None => vtk_at (pre ++ l ++ suf) (Z.of_nat (length pre + i))
  end.
Proof.
  destruct (l !! i) as [a|] eqn:Hl; [|reflexivity].
  unfold vtk_at. rewrite (proj2 (Z.ltb_ge _ _)) by lia. rewrite Nat2Z.id.
  rewrite lookup_app_r by lia.
  replace (length pre + i - length pre)%nat with i by lia.
  rewrite (lookup_app_l_Some _ _ _ _ Hl). reflexivity.
Qed.

(** Looking the points of a fiber up by the ids they were inserted
    under. *)
Lemma mapR_inserted (new : list point) : ∀ pre suf,
  mapR (GetPoint (pre ++ new ++ suf))
       (map (fun i => Z.of_nat (length pre + i)) (seq 0 (length new)))
  = OK new.
Proof.
  induction new as [|a new IH]; intros pre suf; [reflexivity|].
  cbn [length seq map mapR]. unfold GetPoint at 1.
  rewrite (vtk_at_middle pre (a :: new) suf 0). cbn [lookup list_lookup bindR].
  rewrite <- seq_shift, map_map.
  specialize (IH (pre ++ [a]) suf).
  rewrite <- app_assoc in IH. rewrite length_app in IH. cbn [length app] in IH.
  rewrite (map_ext _ (fun i => Z.of_nat (length pre + 1 + i)))
    by (intros i; f_equal; lia).
  cbn [app]. rewrite IH. reflexivity.
Qed.

Lemma mapR_indices {A B} (f : A → result B) (l : list A) : ∀ pre,
  mapR (fun i => let+ x := vtk_at (pre ++ l) i in f x)
       (seqZ (Z.of_nat (length pre)) (Z.of_nat (length l)))
  = mapR f l.
Proof.
  induction l as [|a l IH]; intros pre; [reflexivity|].
  cbn [length]. rewrite seqZ_cons by lia.
  replace (Z.pred (Z.of_nat (S (length l)))) with (Z.of_nat (length l)) by lia.
  cbn [mapR].
  assert (Ha : vtk_at (pre ++ a :: l) (Z.of_nat (length pre)) = OK a).
  { unfold vtk_at. rewrite (proj2 (Z.ltb_ge _ _)) by lia. rewrite Nat2Z.id.
    rewrite list_lookup_middle by reflexivity. reflexivity. }
  rewrite Ha. cbn [bindR].
  specialize (IH (pre ++ [a])). rewrite <- app_assoc in IH. cbn [app] in IH.
  rewrite length_app in IH. cbn [length] in IH.
  replace (Z.of_nat (length pre + 1)) with (Z.succ (Z.of_nat (length pre))) in IH by lia.
  rewrite IH. reflexivity.
Qed.


Lemma cell_lookup {V} (vss : list (list V)) (f p : nat) vs :
  vss !! f = Some vs → cell vss (Z.of_nat f) (Z.of_nat p) = vs !! p.
Proof.
  intros H. unfold cell. rewrite bool_decide_eq_true_2 by lia.
  rewrite !Nat2Z.id, H. reflexivity.
Qed.

(** ** The tree *)

Lemma tree_read_present path : ∀ o v,
  tree_lookup path o = Some v → tree_read path o = (o, OK v).
Proof.
  induction path as [|k rest IH]; intros o v H; simpl in *.
  - congruence.
  - destruct o as [x|d]; [discriminate|].
    destruct (d !! k) as [c|] eqn:Hk; [|discriminate].
    simpl. rewrite (IH _ _ H). rewrite insert_id by exact Hk. reflexivity.
Qed.

Lemma obj_float_at_empty q : obj_float_at q empty_tree = None.
Proof.
  unfold obj_float_at. destruct q as [|k q]; simpl; [reflexivity|].
  rewrite lookup_empty. reflexivity.
Qed.

(** Reading creates no number and loses none. *)
Lemma tree_read_float_at path : ∀ q o,
  obj_float_at q (fst (tree_read path o)) = obj_float_at q o.
Proof.
  induction path as [|k rest IH]; intros q o; simpl; [reflexivity|].
  destruct o as [x|d]; [reflexivity|].
  destruct (tree_read rest (default empty_tree (d !! k))) as [c r] eqn:Hr.
  simpl. destruct q as [|k' q]; [reflexivity|].
  unfold obj_float_at. simpl.
  destruct (decide (k = k')) as [->|Hne].
  - rewrite lookup_insert_eq.
    specialize (IH q (default empty_tree (d !! k'))). rewrite Hr in IH. simpl in IH.
    unfold obj_float_at in IH. rewrite IH.
    destruct (d !! k') as [c0|]; simpl; [reflexivity|].
    apply (obj_float_at_empty q).
  - rewrite lookup_insert_ne by exact Hne. reflexivity.
Qed.

(** What [float(o[k1]...[kn])] gives is decided by the number stored. *)
Lemma tree_read_float path : ∀ o,
  match obj_float_at path o with
  | Some x => tree_read path o = (o, OK (PyFloat x))
  | None => bindR (snd (tree_read path o)) py_float = Raise TypeError
  end.
Proof.
  induction path as [|k rest IH]; intros o.
  - unfold obj_float_at. simpl. destruct o; reflexivity.
  - destruct (obj_float_at (k :: rest) o) as [x|] eqn:Hf.
    + apply tree_read_present. unfold obj_float_at in Hf.
      destruct (tree_lookup (k :: rest) o) as [[y|]|]; congruence.
    + destruct o as [y|d]; [reflexivity|]. simpl.
      specialize (IH (default empty_tree (d !! k))).
      assert (Hn : obj_float_at rest (default empty_tree (d !! k)) = None).
      { unfold obj_float_at in Hf |- *. simpl in Hf.
        destruct (d !! k) as [c|]; simpl; [exact Hf|].
        apply (obj_float_at_empty rest). }
      rewrite Hn in IH.
      destruct (tree_read rest (default empty_tree (d !! k))) as [c r]. exact IH.
Qed.

(** ** Computations that only read numbers *)

Lemma frozen_refl self : frozen self self.
Proof. repeat split. Qed.

Lemma frozen_trans a b c : frozen a b → frozen b c → frozen a c.
Proof.
  intros (H1 & H2 & H3) (K1 & K2 & K3).
  split; [congruence|]. split; [congruence|].
  intros q. rewrite K3. apply H3.
Qed.

Lemma frozen_sym a b : frozen a b → frozen b a.
Proof.
  intros (H1 & H2 & H3).
  split; [congruence|]. split; [congruence|]. intros q. symmetry. apply H3.
Qed.

Lemma FiberTree_eta self :
  {| fiberTree := fiberTree self; no_of_fibers := no_of_fibers self;
     pts_per_fiber := pts_per_fiber self |} = self.
Proof. destruct self; reflexivity. Qed.

Lemma read_present path self v :
  tree_lookup path (fiberTree self) = Some v → read path self = (self, OK v).
Proof.
  intros H. unfold read. rewrite (tree_read_present _ _ _ H).
  rewrite FiberTree_eta. reflexivity.
Qed.

Lemma float_at_lookup path self x :
  float_at path self = Some x →
  tree_lookup path (fiberTree self) = Some (PyFloat x).
Proof.
  unfold float_at, obj_float_at.
  destruct (tree_lookup path (fiberTree self)) as [[y|]|]; congruence.
Qed.

Lemma read_float_spec path self :
  match float_at path self with
  | Some x => read_float path self = (self, OK x)
  | None => ∃ self', read_float path self = (self', Raise TypeError) ∧ frozen self self'
  end.
Proof.
  destruct (float_at path self) as [x|] eqn:Hf.
  - unfold read_float. erewrite bindM_ok.
    2: { apply read_present. apply float_at_lookup. exact Hf. }
    reflexivity.
  - unfold read_float, bindM, read, float_at in *.
    pose proof (tree_read_float path (fiberTree self)) as Hr.
    pose proof (tree_read_float_at path) as Hfr.
    rewrite Hf in Hr.
    destruct (tree_read path (fiberTree self)) as [t r] eqn:Ht. simpl in Hr.
    assert (Hfz : frozen self {| fiberTree := t; no_of_fibers := no_of_fibers self;
                                 pts_per_fiber := pts_per_fiber self |}).
    { repeat split. intros q. unfold float_at. simpl.
      specialize (Hfr q (fiberTree self)). rewrite Ht in Hfr. exact Hfr. }
    destruct r as [o|e]; simpl in Hr.
    + eexists. split; [|exact Hfz]. unfold lift. rewrite Hr. reflexivity.
    + eexists. split; [|exact Hfz]. congruence.
Qed.

Lemma Reader_ret {A} (a : A) : Reader (ret a).
Proof.
  intros self self' r H. unfold ret in H. inversion H; subst.
  split; [apply frozen_refl|]. split; reflexivity.
Qed.


Lemma Reader_bind {A B} (m : M A) (k : A → M B) :
  Reader m → (∀ a, Reader (k a)) → Reader (bindM m k).
Proof.
  intros Hm Hk self self' r H. unfold bindM in H.
  destruct (m self) as [mid [a|e]] eqn:Em.
  - destruct (Hm _ _ _ Em) as (_ & Hsame & Hdet).
    rewrite (Hsame eq_refl) in H.
    destruct (Hk a _ _ _ H) as (Hfz & Hsame' & Hdet').
    split; [exact Hfz|]. split; [exact Hsame'|].
    intros other Ho. unfold bindM.
    specialize (Hdet other Ho).
    destruct (m other) as [mid' [a'|e']] eqn:Em'; simpl in Hdet; [|discriminate].
    injection Hdet as ->.
    destruct (Hm _ _ _ Em') as (_ & Hs & _). rewrite (Hs eq_refl).
    apply Hdet'. exact Ho.
  - inversion H; subst. destruct (Hm _ _ _ Em) as (Hfz & _ & Hdet).
    split; [exact Hfz|]. split; [discriminate|].
    intros other Ho. unfold bindM. specialize (Hdet other Ho).
    destruct (m other) as [mid' [a'|e']]; simpl in Hdet; [discriminate|].
    simpl. congruence.
Qed.


Lemma Reader_read_float path : Reader (read_float path).
Proof.
  intros self self' r H.
  pose proof (read_float_spec path self) as Hs.
  destruct (float_at path self) as [x|] eqn:Hf.
  - rewrite Hs in H. inversion H; subst.
    split; [apply frozen_refl|]. split; [reflexivity|].
    intros other (_ & _ & Ho). pose proof (read_float_spec path other) as Hs'.
    rewrite Ho, Hf in Hs'. rewrite Hs'. reflexivity.
  - destruct Hs as (s' & Hs & Hfz). rewrite Hs in H. inversion H; subst.
    split; [exact Hfz|]. split; [discriminate|].
    intros other (_ & _ & Ho). pose proof (read_float_spec path other) as Hs'.
    rewrite Ho, Hf in Hs'. destruct Hs' as (s2 & -> & _). reflexivity.
Qed.






(** ** Writing into the tree *)

Lemma tree_write_lookup path : ∀ v o o',
  tree_write path v o = OK o' → tree_lookup path o' = Some v.
Proof.
  induction path as [|k rest IH]; intros v o o' H; simpl in *.
  - congruence.
  - destruct o as [x|d]; [discriminate|].
    destruct (tree_write rest v (default empty_tree (d !! k))) as [c|e] eqn:Hc;
      simpl in H; [|discriminate].
    injection H as <-. simpl. rewrite lookup_insert_eq. eapply IH. exact Hc.
Qed.

Lemma tree_lookup_empty k q : tree_lookup (k :: q) empty_tree = None.
Proof. simpl. rewrite lookup_empty. reflexivity. Qed.

(** A write changes nothing under another path of the same length. *)
Lemma tree_write_frame path : ∀ q v o o',
  tree_write path v o = OK o' → length q = length path → q ≠ path →
  tree_lookup q o' = tree_lookup q o.
Proof.
  induction path as [|k rest IH]; intros q v o o' H Hlen Hne.
  - destruct q; [congruence | discriminate].
  - destruct q as [|k' q]; [discriminate|]. simpl in H.
    destruct o as [x|d]; [discriminate|].
    destruct (tree_write rest v (default empty_tree (d !! k))) as [c|e] eqn:Hc;
      simpl in H; [|discriminate].
    injection H as <-. simpl.
    destruct (decide (k = k')) as [->|Hk].
    + rewrite lookup_insert_eq.
      assert (Hq : q ≠ rest) by congruence.
      assert (Hl : length q = length rest) by (simpl in Hlen; lia).
      rewrite (IH q v _ _ Hc Hl Hq).
      destruct (d !! k') as [c0|]; simpl; [reflexivity|].
      destruct q as [|k2 q]; [|apply tree_lookup_empty].
      destruct rest; [congruence | discriminate].
    + rewrite lookup_insert_ne by exact Hk. reflexivity.
Qed.

(** A write of a number creates no other number. *)
Lemma tree_write_floats path : ∀ q v o o' x,
  tree_write path (PyFloat v) o = OK o' → obj_float_at q o' = Some x →
  (q = path ∧ x = v) ∨ obj_float_at q o = Some x.
Proof.
  induction path as [|k rest IH]; intros q v o o' x H Hx.
  - simpl in H. injection H as <-. unfold obj_float_at in Hx.
    destruct q as [|k q]; simpl in Hx; [left; split; congruence | discriminate].
  - simpl in H. destruct o as [y|d]; [discriminate|].
    destruct (tree_write rest (PyFloat v) (default empty_tree (d !! k))) as [c|e] eqn:Hc;
      simpl in H; [|discriminate].
    injection H as <-. unfold obj_float_at in Hx |- *.
    destruct q as [|k' q]; simpl in Hx |- *; [discriminate|].
    destruct (decide (k = k')) as [->|Hk].
    + rewrite lookup_insert_eq in Hx.
      destruct (IH q v _ _ x Hc Hx) as [[-> ->]|Hold]; [left; split; reflexivity|].
      right. destruct (d !! k') as [c0|]; simpl in Hold; [exact Hold|].
      rewrite (obj_float_at_empty q) in Hold. discriminate.
    + rewrite lookup_insert_ne in Hx by exact Hk. right. exact Hx.
Qed.

(** A write succeeds when no number sits above its path. *)
Lemma tree_write_ok path : ∀ v o,
  (∀ q x, obj_float_at q o = Some x → (length path ≤ length q)%nat) →
  ∃ o', tree_write path v o = OK o'.
Proof.
  induction path as [|k rest IH]; intros v o H; simpl.
  - eexists; reflexivity.
  - destruct o as [y|d].
    + specialize (H [] y eq_refl). simpl in H. lia.
    + destruct (IH v (default empty_tree (d !! k))) as [c Hc].
      * intros q x Hq. destruct (d !! k) as [c0|] eqn:Hk; simpl in Hq.
        -- specialize (H (k :: q) x). unfold obj_float_at in H, Hq. simpl in H.
           rewrite Hk in H. specialize (H Hq). lia.
        -- rewrite (obj_float_at_empty q) in Hq. discriminate.
      * rewrite Hc. simpl. eexists; reflexivity.
Qed.

Lemma depth3_new : depth3 new_FiberTree.
Proof.
  intros q x H. unfold float_at in H. simpl in H.
  rewrite (obj_float_at_empty q) in H. discriminate.
Qed.

Lemma write_spec fidx pidx name v self :
  depth3 self →
  ∃ self', write (at_point fidx pidx name) (PyFloat v) self = (self', OK tt) ∧
    depth3 self' ∧
    no_of_fibers self' = no_of_fibers self ∧
    pts_per_fiber self' = pts_per_fiber self ∧
    ∀ f p a, float_at (at_point f p a) self' =
             if bool_decide (f = fidx ∧ p = pidx ∧ a = name) then Some v
             else float_at (at_point f p a) self.
Proof.
  intros Hd. unfold write.
  destruct (tree_write_ok (at_point fidx pidx name) (PyFloat v) (fiberTree self)) as [t Ht].
  { intros q x Hq. rewrite (Hd q x Hq). simpl. lia. }
  rewrite Ht. eexists. split; [reflexivity|].
  split; [|split; [reflexivity|split; [reflexivity|]]].
  - intros q x Hq. unfold float_at in Hq. simpl in Hq.
    destruct (tree_write_floats _ _ _ _ _ _ Ht Hq) as [[-> _]|Hold]; [reflexivity|].
    apply (Hd q x Hold).
  - intros f p a. unfold float_at, obj_float_at. cbn [fiberTree].
    case_bool_decide as Hc.
    + destruct Hc as (-> & -> & ->). rewrite (tree_write_lookup _ _ _ _ Ht). reflexivity.
    + rewrite (tree_write_frame _ (at_point f p a) _ _ _ Ht); [reflexivity|reflexivity|].
      unfold at_point. intros Heq. apply Hc. injection Heq as -> -> ->. auto.
Qed.

(** ** The resampling loops *)

Section Resampling.
Context {V : Type}.
Variable fetch : Z → result V.
Variable store : Z → Z → V → M unit.
Variable names : list string.
Variable val : string → V → float.

(** What [store] has to do: write the values named [names] of [v] under
    fiber [f] and point [p], and nothing else. *)
Hypothesis store_spec : ∀ f p v self, depth3 self →
  ∃ self', store f p v self = (self', OK tt) ∧
    depth3 self' ∧
    no_of_fibers self' = no_of_fibers self ∧
    pts_per_fiber self' = pts_per_fiber self ∧
    ∀ f' p' a, float_at (at_point f' p' a) self' =
               if bool_decide (f' = f ∧ p' = p ∧ a ∈ names) then Some (val a v)
               else float_at (at_point f' p' a) self.

Lemma fiber_loop_cons ptIds fidx pos rest k self :
  fiber_loop fetch store ptIds fidx (pos :: rest) k self =
  match sample_id ptIds pos with
  | Raise e => (self, Raise e)
  | OK ptidx =>
      match fetch ptidx with
      | Raise e => (self, Raise e)
      | OK v =>
          match store fidx k v self with
          | (s1, OK _) => fiber_loop fetch store ptIds fidx rest (k + 1) s1
          | (s1, Raise e) => (s1, Raise e)
          end
      end
  end.
Proof.
  unfold fiber_loop. simpl. unfold bindM, lift, ret.
  destruct (sample_id ptIds pos) as [ptidx|e]; [|reflexivity].
  destruct (fetch ptidx) as [v|e]; [|reflexivity].
  destruct (store fidx k v self) as [s1 [[]|e]]; reflexivity.
Qed.

Lemma fiber_loop_spec ptIds fidx positions : ∀ k self,
  depth3 self →
  match mapR (fetch_sample fetch ptIds) positions with
  | OK vs =>
      ∃ self', fiber_loop fetch store ptIds fidx positions k self
                 = (self', OK (k + Z.of_nat (length positions))) ∧
        depth3 self' ∧
        no_of_fibers self' = no_of_fibers self ∧
        pts_per_fiber self' = pts_per_fiber self ∧
        ∀ f' p' a, float_at (at_point f' p' a) self' =
          match (if bool_decide (f' = fidx ∧ k ≤ p' ∧ a ∈ names)
                 then vs !! Z.to_nat (p' - k) else None) with
          | Some v => Some (val a v)
          | None => float_at (at_point f' p' a) self
          end
  | Raise e =>
      ∃ self', fiber_loop fetch store ptIds fidx positions k self = (self', Raise e) ∧
        depth3 self' ∧
        no_of_fibers self' = no_of_fibers self ∧
        pts_per_fiber self' = pts_per_fiber self
  end.
Proof.
  induction positions as [|pos rest IH]; intros k self Hd.
  - exists self. split; [unfold fiber_loop; simpl; unfold ret; do 2 f_equal; lia|].
    split; [exact Hd|]. split; [reflexivity|]. split; [reflexivity|].
    intros f' p' a. case_bool_decide; [|reflexivity].
    rewrite lookup_nil. reflexivity.
  - rewrite fiber_loop_cons. cbn [mapR]. unfold fetch_sample at 1.
    destruct (sample_id ptIds pos) as [ptidx|e] eqn:Hs; cbn [bindR].
    2: { exists self. repeat split; auto. }
    destruct (fetch ptidx) as [v|e] eqn:Hf; cbn [bindR].
    2: { exists self. repeat split; auto. }
    destruct (store_spec fidx k v self Hd) as (s1 & Hst & Hd1 & Hn1 & Hp1 & Hfl1).
    rewrite Hst. specialize (IH (k + 1) s1 Hd1).
    destruct (mapR (fetch_sample fetch ptIds) rest) as [vs|e]; cbn [bindR].
    + destruct IH as (s2 & Hrun & Hd2 & Hn2 & Hp2 & Hfl2).
      exists s2. split.
      { rewrite Hrun. cbn [length]. do 2 f_equal. lia. }
      split; [exact Hd2|]. split; [congruence|]. split; [congruence|].
      intros f' p' a. rewrite Hfl2, Hfl1.
      destruct (decide (f' = fidx ∧ a ∈ names)) as [[-> Ha]|Hno].
      * destruct (decide (p' = k)) as [->|Hpk].
        -- rewrite (bool_decide_eq_false_2 (fidx = fidx ∧ k + 1 ≤ k ∧ a ∈ names))
             by (intros (_ & ? & _); lia).
           rewrite !bool_decide_eq_true_2 by (split; [reflexivity|split; [lia|exact Ha]]).
           replace (Z.to_nat (k - k)) with 0%nat by lia. reflexivity.
        -- destruct (decide (k < p')) as [Hlt|Hge].
           ++ rewrite (bool_decide_eq_true_2 (fidx = fidx ∧ k + 1 ≤ p' ∧ a ∈ names))
                by (split; [reflexivity|split; [lia|exact Ha]]).
              rewrite (bool_decide_eq_true_2 (fidx = fidx ∧ k ≤ p' ∧ a ∈ names))
                by (split; [reflexivity|split; [lia|exact Ha]]).
              replace (Z.to_nat (p' - k)) with (S (Z.to_nat (p' - (k + 1)))) by lia.
              cbn [lookup list_lookup].
              destruct (vs !! Z.to_nat (p' - (k + 1))); [reflexivity|].
              rewrite bool_decide_eq_false_2 by (intros (_ & ? & _); lia). reflexivity.
           ++ rewrite (bool_decide_eq_false_2 (fidx = fidx ∧ k + 1 ≤ p' ∧ a ∈ names))
                by (intros (_ & ? & _); lia).
              rewrite (bool_decide_eq_false_2 (fidx = fidx ∧ k ≤ p' ∧ a ∈ names))
                by (intros (_ & ? & _); lia).
              rewrite bool_decide_eq_false_2 by (intros (_ & ? & _); lia). reflexivity.
      * rewrite !bool_decide_eq_false_2 by tauto. reflexivity.
    + destruct IH as (s2 & Hrun & Hd2 & Hn2 & Hp2).
      exists s2. split; [exact Hrun|].
      split; [exact Hd2|]. split; congruence.
Qed.

Variable get_n : M Z.
Variable n : Z.
Variable ok_n : FiberTree → Prop.
Hypothesis get_n_spec : ∀ self, ok_n self → get_n self = (self, OK n).
Hypothesis ok_n_stable : ∀ self self',
  pts_per_fiber self' = pts_per_fiber self → ok_n self → ok_n self'.

Lemma fibers_loop_cons fidx fidxes ptIds0 c cs self :
  ok_n self →
  fibers_loop fetch store get_n (fidx :: fidxes) ptIds0 (c :: cs) self =
  match _calc_fiber_indices (GetNumberOfIds c) n with
  | Raise e => (self, Raise e)
  | OK positions =>
      match fiber_loop fetch store c fidx positions 0 self with
      | (s1, OK _) => fibers_loop fetch store get_n fidxes c cs s1
      | (s1, Raise e) => (s1, Raise e)
      end
  end.
Proof.
  intros Hok. unfold fibers_loop. cbn [foldM GetNextCell].
  unfold bindM, lift, ret. rewrite (get_n_spec self Hok).
  destruct (_calc_fiber_indices (GetNumberOfIds c) n) as [positions|e]; [|reflexivity].
  destruct (fiber_loop fetch store c fidx positions 0 self) as [s1 [r|e]]; reflexivity.
Qed.

Lemma fibers_loop_spec cells : ∀ j ptIds0 self,
  depth3 self → ok_n self →
  match mapR (fiber_samples fetch n) cells with
  | OK vss =>
      ∃ self' acc,
        fibers_loop fetch store get_n (seqZ j (Z.of_nat (length cells))) ptIds0 cells self
          = (self', OK acc) ∧
        depth3 self' ∧
        no_of_fibers self' = no_of_fibers self ∧
        pts_per_fiber self' = pts_per_fiber self ∧
        ∀ f' p' a, float_at (at_point f' p' a) self' =
          match (if bool_decide (j ≤ f' ∧ 0 ≤ p' ∧ a ∈ names)
                 then match vss !! Z.to_nat (f' - j) with
                      | Some vs => vs !! Z.to_nat p'
                      | None => None
                      end
                 else None) with
          | Some v => Some (val a v)
          | None => float_at (at_point f' p' a) self
          end
  | Raise e =>
      ∃ self',
        fibers_loop fetch store get_n (seqZ j (Z.of_nat (length cells))) ptIds0 cells self
          = (self', Raise e) ∧
        depth3 self' ∧
        no_of_fibers self' = no_of_fibers self ∧
        pts_per_fiber self' = pts_per_fiber self
  end.
Proof.
  induction cells as [|c cs IH]; intros j ptIds0 self Hd Hok.
  - cbn [mapR length]. exists self, (ptIds0, []).
    split; [reflexivity|]. split; [exact Hd|]. split; [reflexivity|]. split; [reflexivity|].
    intros f' p' a. case_bool_decide; [|reflexivity]. rewrite lookup_nil. reflexivity.
  - cbn [mapR length]. rewrite seqZ_cons by lia.
    replace (Z.pred (Z.of_nat (S (length cs)))) with (Z.of_nat (length cs)) by lia.
    rewrite (fibers_loop_cons _ _ _ _ _ _ Hok).
    unfold fiber_samples at 1.
    destruct (_calc_fiber_indices (GetNumberOfIds c) n) as [positions|e]; cbn [bindR].
    2: { exists self. repeat split; auto. }
    pose proof (fiber_loop_spec c j positions 0 self Hd) as Hfib.
    destruct (mapR (fetch_sample fetch c) positions) as [vs|e]; cbn [bindR].
    2: { destruct Hfib as (s1 & Hrun & Hd1 & Hn1 & Hp1). rewrite Hrun.
         exists s1. repeat split; auto. }
    destruct Hfib as (s1 & Hrun & Hd1 & Hn1 & Hp1 & Hfl1). rewrite Hrun.
    specialize (IH (Z.succ j) c s1 Hd1 (ok_n_stable _ _ Hp1 Hok)).
    destruct (mapR (fiber_samples fetch n) cs) as [vss|e]; cbn [bindR].
    + destruct IH as (s2 & acc & Hrun2 & Hd2 & Hn2 & Hp2 & Hfl2).
      exists s2, acc. split; [exact Hrun2|]. split; [exact Hd2|].
      split; [congruence|]. split; [congruence|].
      intros f' p' a. rewrite Hfl2, Hfl1.
      destruct (decide (0 ≤ p' ∧ a ∈ names)) as [[Hp Ha]|Hno].
      * destruct (decide (f' = j)) as [->|Hfj].
        -- rewrite (bool_decide_eq_false_2 (Z.succ j ≤ j ∧ 0 ≤ p' ∧ a ∈ names))
             by (intros (? & _); lia).
           rewrite !bool_decide_eq_true_2 by (split; [reflexivity || lia|split; [lia|exact Ha]]).
           replace (Z.to_nat (j - j)) with 0%nat by lia.
           replace (p' - 0) with p' by lia. reflexivity.
        -- destruct (decide (j < f')) as [Hlt|Hge].
           ++ rewrite (bool_decide_eq_true_2 (Z.succ j ≤ f' ∧ 0 ≤ p' ∧ a ∈ names))
                by (split; [lia|split; [lia|exact Ha]]).
              rewrite (bool_decide_eq_true_2 (j ≤ f' ∧ 0 ≤ p' ∧ a ∈ names))
                by (split; [lia|split; [lia|exact Ha]]).
              replace (Z.to_nat (f' - j)) with (S (Z.to_nat (f' - Z.succ j))) by lia.
              cbn [lookup list_lookup].
              destruct (match vss !! Z.to_nat (f' - Z.succ j) with
                        | Some vs0 => vs0 !! Z.to_nat p'
                        | None => None
                        end); [reflexivity|].
              rewrite bool_decide_eq_false_2 by (intros (? & _); lia). reflexivity.
           ++ rewrite (bool_decide_eq_false_2 (Z.succ j ≤ f' ∧ 0 ≤ p' ∧ a ∈ names))
                by (intros (? & _); lia).
              rewrite (bool_decide_eq_false_2 (j ≤ f' ∧ 0 ≤ p' ∧ a ∈ names))
                by (intros (? & _); lia).
              rewrite bool_decide_eq_false_2 by (intros (? & _); lia). reflexivity.
      * rewrite !bool_decide_eq_false_2 by tauto. reflexivity.
    + destruct IH as (s2 & Hrun2 & Hd2 & Hn2 & Hp2).
      exists s2. split; [exact Hrun2|]. split; [exact Hd2|]. split; congruence.
Qed.

End Resampling.

(** ** [convertFromVTK] and [addScalar] as resampling loops *)

Lemma convertFromVTK_loop g pts self :
  convertFromVTK g pts self =
  let '(s, r) := fibers_loop (GetPoint (GetPoints g)) store_point self_pts_per_fiber
                   (range 0 (GetNumberOfLines g)) [] (GetLines g) (started g pts self) in
  (s, let+ _ := r in OK tt).
Proof.
  unfold convertFromVTK, fibers_loop. fold (started g pts self).
  unfold bindM at 1. unfold self_no_of_fibers at 1. cbn [no_of_fibers started].
  unfold bindM at 1.
  match goal with
  | |- context [foldM ?l ?b1 ?s ?st] =>
      match goal with
      | |- context [foldM l ?b2 s st] =>
          tryif constr_eq b1 b2 then fail else rewrite (foldM_ext l b1 b2)
      end
  end.
  - destruct (foldM _ _ _ _) as [s [r|e]]; reflexivity.
  - intros fidx [ptIds0 cells0] st. cbv beta iota.
    destruct (GetNextCell cells0 ptIds0) as [ptIds cells].
    apply bindM_ext; [reflexivity|]. intros n st1.
    apply bindM_ext; [reflexivity|]. intros positions st2.
    apply bindM_ext; [|reflexivity]. unfold fiber_loop.
    apply foldM_ext.
    intros lineIdx pidx st3. unfold store_point, bindM, lift, ret.
    destruct (sample_id ptIds lineIdx) as [ptidx|e]; [|reflexivity].
    destruct (GetPoint (GetPoints g) ptidx) as [pt|e]; [|reflexivity].
    destruct (write _ _ st3) as [st4 [[]|e]]; [|reflexivity].
    destruct (write _ _ st4) as [st5 [[]|e]]; [|reflexivity].
    destruct (write _ _ st5) as [st6 [[]|e]]; reflexivity.
Qed.

Lemma addScalar_loop g data name pts self nf :
  no_of_fibers self = Some nf →
  addScalar g data name pts self =
  let '(s, r) := fibers_loop (py_getitem data) (store_scalar name) (ret (default 20 pts))
                   (range 0 nf) [] (GetLines g) self in
  (s, let+ _ := r in OK tt).
Proof.
  intros Hnf. unfold addScalar, fibers_loop.
  unfold bindM at 1. unfold self_no_of_fibers at 1. rewrite Hnf.
  unfold bindM at 1.
  match goal with
  | |- context [foldM ?l ?b1 ?s ?st] =>
      match goal with
      | |- context [foldM l ?b2 s st] =>
          tryif constr_eq b1 b2 then fail else rewrite (foldM_ext l b1 b2)
      end
  end.
  - destruct (foldM _ _ _ _) as [s [r|e]]; reflexivity.
  - intros fidx [ptIds0 cells0] st. cbv beta iota.
    destruct (GetNextCell cells0 ptIds0) as [ptIds cells].
    reflexivity.
Qed.

Lemma store_point_spec f p pt self :
  depth3 self →
  ∃ self', store_point f p pt self = (self', OK tt) ∧
    depth3 self' ∧
    no_of_fibers self' = no_of_fibers self ∧
    pts_per_fiber self' = pts_per_fiber self ∧
    ∀ f' p' a, float_at (at_point f' p' a) self' =
               if bool_decide (f' = f ∧ p' = p ∧ a ∈ ["x"; "y"; "z"]%string)
               then Some (coord a pt)
               else float_at (at_point f' p' a) self.
Proof.
  intros Hd. unfold store_point.
  destruct (write_spec f p "x" (pt.1.1) self Hd) as (s1 & H1 & Hd1 & Hn1 & Hp1 & Hf1).
  destruct (write_spec f p "y" (pt.1.2) s1 Hd1) as (s2 & H2 & Hd2 & Hn2 & Hp2 & Hf2).
  destruct (write_spec f p "z" (pt.2) s2 Hd2) as (s3 & H3 & Hd3 & Hn3 & Hp3 & Hf3).
  exists s3. split.
  { erewrite bindM_ok by exact H1. erewrite bindM_ok by exact H2. exact H3. }
  split; [exact Hd3|]. split; [congruence|]. split; [congruence|].
  intros f' p' a. rewrite Hf3, Hf2, Hf1. unfold coord.
  repeat case_bool_decide; try reflexivity; exfalso;
    repeat match goal with
           | H : _ ∧ _ |- _ => destruct H
           | H : ¬ (_ ∧ _ ∧ _) |- _ => apply H; clear H
           | H : _ ∈ _ |- _ => rewrite !elem_of_cons, elem_of_nil in H
           | H : _ ∨ _ |- _ => destruct H
           | |- _ ∧ _ => split
           | |- _ ∈ _ => rewrite !elem_of_cons, elem_of_nil
           end; subst; try congruence; try tauto; auto.
Qed.

Lemma store_scalar_spec name f p v self :
  depth3 self →
  ∃ self', store_scalar name f p v self = (self', OK tt) ∧
    depth3 self' ∧
    no_of_fibers self' = no_of_fibers self ∧
    pts_per_fiber self' = pts_per_fiber self ∧
    ∀ f' p' a, float_at (at_point f' p' a) self' =
               if bool_decide (f' = f ∧ p' = p ∧ a ∈ [name])
               then Some v
               else float_at (at_point f' p' a) self.
Proof.
  intros Hd. unfold store_scalar.
  destruct (write_spec f p name v self Hd) as (s1 & H1 & Hd1 & Hn1 & Hp1 & Hf1).
  exists s1. split; [exact H1|]. split; [exact Hd1|]. split; [exact Hn1|].
  split; [exact Hp1|]. intros f' p' a. rewrite Hf1.
  apply (f_equal (fun b : bool => if b then Some v else float_at (at_point f' p' a) self)).
  apply bool_decide_ext. rewrite list_elem_of_singleton. reflexivity.
Qed.

Lemma cell_shift {V} (vss : list (list V)) f p (P : Prop) `{Decision P} :
  (if bool_decide (0 ≤ f ∧ 0 ≤ p ∧ P)
   then match vss !! Z.to_nat (f - 0) with
        | Some vs => vs !! Z.to_nat p
        | None => None
        end
   else None) =
  (if bool_decide P then cell vss f p else None).
Proof.
  unfold cell. replace (f - 0) with f by lia.
  repeat case_bool_decide; try reflexivity; tauto.
Qed.

(** What [convertFromVTK] does to a store whose numbers sit under fibers,
    points and names: it succeeds exactly when every sample of every fiber
    resolves to a point, and then holds these points. *)
Lemma convertFromVTK_spec g n self :
  depth3 self →
  match mapR (fiber_samples (GetPoint (GetPoints g)) n) (GetLines g) with
  | OK ptss =>
      ∃ self', convertFromVTK g (Some n) self = (self', OK tt) ∧
        depth3 self' ∧
        no_of_fibers self' = Some (GetNumberOfLines g) ∧
        pts_per_fiber self' = Some n ∧
        ∀ f p a, float_at (at_point f p a) self' =
          match (if bool_decide (a ∈ ["x"; "y"; "z"]%string) then cell ptss f p else None) with
          | Some pt => Some (coord a pt)
          | None => float_at (at_point f p a) self
          end
  | Raise e => ∃ self', convertFromVTK g (Some n) self = (self', Raise e)
  end.
Proof.
  intros Hd. rewrite convertFromVTK_loop.
  assert (Hd1 : depth3 (started g (Some n) self)) by exact Hd.
  pose proof (fibers_loop_spec (GetPoint (GetPoints g)) store_point
                ["x"; "y"; "z"]%string coord store_point_spec
                self_pts_per_fiber n (fun st => pts_per_fiber st = Some n)) as Hloop.
  specialize (Hloop ltac:(intros st Hst; unfold self_pts_per_fiber; rewrite Hst; reflexivity)).
  specialize (Hloop ltac:(intros st st' Heq Hst; congruence)).
  specialize (Hloop (GetLines g) 0 [] (started g (Some n) self) Hd1 eq_refl).
  unfold range, GetNumberOfLines. replace (Z.of_nat (length (GetLines g)) - 0)
    with (Z.of_nat (length (GetLines g))) by lia.
  destruct (mapR (fiber_samples (GetPoint (GetPoints g)) n) (GetLines g)) as [ptss|e].
  - destruct Hloop as (s' & acc & Hrun & Hd' & Hn' & Hp' & Hfl).
    exists s'. rewrite Hrun. split; [reflexivity|]. split; [exact Hd'|].
    split; [exact Hn'|]. split; [exact Hp'|].
    intros f p a. rewrite Hfl. rewrite cell_shift. reflexivity.
  - destruct Hloop as (s' & Hrun & _). exists s'. rewrite Hrun. reflexivity.
Qed.

(** The same for [addScalar], on a store that counts as many fibers as the
    geometry has lines. *)
Lemma addScalar_spec g data name pts self :
  depth3 self →
  no_of_fibers self = Some (GetNumberOfLines g) →
  match mapR (fiber_samples (py_getitem data) (default 20 pts)) (GetLines g) with
  | OK vss =>
      ∃ self', addScalar g data name pts self = (self', OK tt) ∧
        depth3 self' ∧
        no_of_fibers self' = no_of_fibers self ∧
        pts_per_fiber self' = pts_per_fiber self ∧
        ∀ f p a, float_at (at_point f p a) self' =
          match (if bool_decide (a ∈ [name]) then cell vss f p else None) with
          | Some v => Some v
          | None => float_at (at_point f p a) self
          end
  | Raise e => ∃ self', addScalar g data name pts self = (self', Raise e)
  end.
Proof.
  intros Hd Hnf. rewrite (addScalar_loop _ _ _ _ _ _ Hnf).
  pose proof (fibers_loop_spec (py_getitem data) (store_scalar name)
                [name] (fun _ v => v) (store_scalar_spec name)
                (ret (default 20 pts)) (default 20 pts) (fun _ => True)) as Hloop.
  specialize (Hloop ltac:(intros st _; reflexivity)).
  specialize (Hloop ltac:(intros st st' _ _; exact I)).
  specialize (Hloop (GetLines g) 0 [] self Hd I).
  unfold range, GetNumberOfLines. replace (Z.of_nat (length (GetLines g)) - 0)
    with (Z.of_nat (length (GetLines g))) by lia.
  destruct (mapR (fiber_samples (py_getitem data) (default 20 pts)) (GetLines g)) as [vss|e].
  - destruct Hloop as (s' & acc & Hrun & Hd' & Hn' & Hp' & Hfl).
    exists s'. rewrite Hrun. split; [reflexivity|]. split; [exact Hd'|].
    split; [exact Hn'|]. split; [exact Hp'|].
    intros f p a. rewrite Hfl. rewrite cell_shift. reflexivity.
  - destruct Hloop as (s' & Hrun & _). exists s'. rewrite Hrun. reflexivity.
Qed.

(** ** Extraction from a store that holds the numbers asked for *)

(** Filling an array cell by cell gives the list of the values. *)
Lemma fill_cells (vals : Z → float) (suf : list float) : ∀ (pre : list float),
  foldl (fun arr p => set1 arr p (vals p)) (pre ++ suf)
        (seqZ (Z.of_nat (length pre)) (Z.of_nat (length suf)))
  = pre ++ map vals (seqZ (Z.of_nat (length pre)) (Z.of_nat (length suf))).
Proof.
  induction suf as [|a suf IH]; intros pre; [reflexivity|].
  cbn [length]. rewrite seqZ_cons by lia.
  replace (Z.pred (Z.of_nat (S (length suf)))) with (Z.of_nat (length suf)) by lia.
  cbn [foldl map]. unfold set1 at 2. rewrite Nat2Z.id.
  rewrite insert_app_r_alt by lia. rewrite Nat.sub_diag. cbn [insert list_insert].
  specialize (IH (pre ++ [vals (Z.of_nat (length pre))])).
  rewrite length_app in IH. cbn [length] in IH.
  replace (Z.of_nat (length pre + 1)) with (Z.succ (Z.of_nat (length pre))) in IH by lia.
  rewrite <- !app_assoc in IH. cbn [app] in IH. exact IH.
Qed.

Lemma fill_zeros (vals : Z → float) n :
  0 ≤ n →
  foldl (fun arr p => set1 arr p (vals p)) (replicate (Z.to_nat n) float_zero) (range 0 n)
  = map vals (range 0 n).
Proof.
  intros Hn. pose proof (fill_cells vals (replicate (Z.to_nat n) float_zero) []) as H.
  rewrite length_replicate in H. cbn [length app] in H.
  rewrite Z2Nat.id in H by lia. unfold range. replace (n - 0) with n by lia. exact H.
Qed.

Lemma getScalar_ok f name n (vals : Z → float) self :
  pts_per_fiber self = Some n → 0 ≤ n →
  (∀ p, 0 ≤ p < n → float_at (at_point f p name) self = Some (vals p)) →
  getScalar f name self = (self, OK (map vals (range 0 n))).
Proof.
  intros Hn Hpos Hall. unfold getScalar.
  erewrite bindM_ok by (unfold self_pts_per_fiber; rewrite Hn; reflexivity).
  unfold np_zeros. rewrite (proj2 (Z.ltb_ge n 0)) by lia.
  erewrite bindM_ok by reflexivity.
  rewrite (foldM_pure _ _ (fun p arr => set1 arr p (vals p))).
  - rewrite fill_zeros by exact Hpos. reflexivity.
  - intros p arr Hp. apply elem_of_range in Hp.
    pose proof (read_float_spec (at_point f p name) self) as Hr.
    rewrite (Hall p Hp) in Hr. erewrite bindM_ok by exact Hr. reflexivity.
Qed.

Lemma stored_point_inv self f i pt :
  stored_point self f i = Some pt →
  float_at (at_point f i "x") self = Some (pt.1.1) ∧
  float_at (at_point f i "y") self = Some (pt.1.2) ∧
  float_at (at_point f i "z") self = Some (pt.2).
Proof.
  unfold stored_point.
  destruct (float_at (at_point f i "x") self) as [x|]; [|discriminate].
  destruct (float_at (at_point f i "y") self) as [y|]; [|discriminate].
  destruct (float_at (at_point f i "z") self) as [z|]; [|discriminate].
  intros H. injection H as <-. auto.
Qed.

Lemma read_float_at path self x :
  float_at path self = Some x → read path self = (self, OK (PyFloat x)).
Proof. intros H. apply read_present, float_at_lookup, H. Qed.

(** ** Extraction from a store that lacks a number *)

Lemma read_float_raises path self self' e :
  read_float path self = (self', Raise e) → e = TypeError.
Proof.
  intros H. pose proof (read_float_spec path self) as Hs.
  destruct (float_at path self).
  - rewrite Hs in H. discriminate.
  - destruct Hs as (s & Hs & _). congruence.
Qed.

Lemma read_float_missing path self other :
  float_at path self = None → frozen self other →
  snd (read_float path other) = Raise TypeError.
Proof.
  intros Hm (_ & _ & Hfz). pose proof (read_float_spec path other) as Hs.
  rewrite Hfz, Hm in Hs. destruct Hs as (s & -> & _). reflexivity.
Qed.

Lemma getScalar_missing f name n p self :
  pts_per_fiber self = Some n → 0 ≤ p < n →
  float_at (at_point f p name) self = None →
  snd (getScalar f name self) = Raise TypeError.
Proof.
  intros Hn Hp Hm. unfold getScalar.
  erewrite bindM_ok by (unfold self_pts_per_fiber; rewrite Hn; reflexivity).
  unfold np_zeros. rewrite (proj2 (Z.ltb_ge n 0)) by lia.
  erewrite bindM_ok by reflexivity.
  apply (foldM_raises _ _ p TypeError self).
  - apply elem_of_range. exact Hp.
  - intros x s. apply Reader_bind; [apply Reader_read_float|]. intros ?. apply Reader_ret.
  - intros x s st st' e' H. unfold bindM in H.
    destruct (read_float (at_point f x name) st) as [st1 [v|e1]] eqn:Hr.
    + discriminate.
    + injection H as _ <-. eapply read_float_raises. exact Hr.
  - intros s st Hfz. unfold bindM.
    pose proof (read_float_missing _ _ _ Hm Hfz) as Hr.
    destruct (read_float (at_point f p name) st) as [st1 [v|e1]]; simpl in Hr; [discriminate|].
    simpl. congruence.
  - apply frozen_refl.
Qed.

Lemma getFiber_missing idx n p a self :
  pts_per_fiber self = Some n → 0 ≤ p < n →
  a ∈ ["x"; "y"; "z"]%string →
  float_at (at_point idx p a) self = None →
  snd (getFiber idx self) = Raise TypeError.
Proof.
  intros Hn Hp Ha Hm. unfold getFiber.
  erewrite bindM_ok by (unfold self_pts_per_fiber; rewrite Hn; reflexivity).
  unfold np_zeros. rewrite (proj2 (Z.ltb_ge n 0)) by lia.
  do 3 (erewrite bindM_ok by reflexivity).
  apply (foldM_raises _ _ p TypeError self).
  - apply elem_of_range. exact Hp.
  - intros x [[fx fy] fz].
    do 3 (apply Reader_bind; [apply Reader_read_float|]; intros ?). apply Reader_ret.
  - intros x [[fx fy] fz] st st' e' H. unfold bindM in H.
    destruct (read_float (at_point idx x "x") st) as [st1 [v1|e1]] eqn:H1;
      [|injection H as _ <-; eapply read_float_raises; exact H1].
    destruct (read_float (at_point idx x "y") st1) as [st2 [v2|e2]] eqn:H2;
      [|injection H as _ <-; eapply read_float_raises; exact H2].
    destruct (read_float (at_point idx x "z") st2) as [st3 [v3|e3]] eqn:H3;
      [discriminate|injection H as _ <-; eapply read_float_raises; exact H3].
  - intros [[fx fy] fz] st Hfz. unfold bindM.
    destruct (read_float (at_point idx p "x") st) as [st1 [v1|e1]] eqn:H1.
    2: { simpl. f_equal. eapply read_float_raises. exact H1. }
    destruct (Reader_read_float _ _ _ _ H1) as (_ & Hs1 & _).
    rewrite (Hs1 eq_refl) in *.
    destruct (read_float (at_point idx p "y") st) as [st2 [v2|e2]] eqn:H2.
    2: { simpl. f_equal. eapply read_float_raises. exact H2. }
    destruct (Reader_read_float _ _ _ _ H2) as (_ & Hs2 & _).
    rewrite (Hs2 eq_refl) in *.
    destruct (read_float (at_point idx p "z") st) as [st3 [v3|e3]] eqn:H3.
    2: { simpl. f_equal. eapply read_float_raises. exact H3. }
    exfalso. rewrite !elem_of_cons, elem_of_nil in Ha.
    destruct Ha as [->|[->|[->|[]]]];
      pose proof (read_float_missing _ _ _ Hm Hfz) as Hr;
      [rewrite H1 in Hr | rewrite H2 in Hr | rewrite H3 in Hr]; discriminate.
  - apply frozen_refl.
Qed.

(** ** Binary64 arithmetic: digits and shifts *)

Lemma digits2_size m : digits2_pos m = Pos.size m.
Proof. induction m; simpl; congruence. Qed.

Lemma digits_pos m : 1 ≤ digits m.
Proof. unfold digits. lia. Qed.

(** [digits m] is the [d] with [2^(d-1) <= m < 2^d]. *)
Lemma digits_bounds m : 2 ^ (digits m - 1) ≤ Zpos m < 2 ^ digits m.
Proof.
  unfold digits. rewrite digits2_size. split.
  - pose proof (Pos.size_le m) as H.
    assert (H2 : 2 ^ Zpos (Pos.size m) ≤ 2 * Zpos m).
    { change (2 * Zpos m) with (Zpos (m~0)). rewrite <- Pos2Z.inj_pow. 
      apply Pos2Z.pos_le_pos. exact H. }
    replace (Zpos (Pos.size m)) with (Z.succ (Zpos (Pos.size m) - 1)) in H2 by lia.
    rewrite Z.pow_succ_r in H2 by lia. lia.
  - pose proof (Pos.size_gt m) as H. rewrite <- Pos2Z.inj_pow.
    apply Pos2Z.pos_lt_pos. exact H.
Qed.

Lemma digits_unique m d : 2 ^ (d - 1) ≤ Zpos m < 2 ^ d → digits m = d.
Proof.
  intros [Hlo Hhi]. pose proof (digits_bounds m) as [Glo Ghi]. pose proof (digits_pos m).
  assert (Hd : 0 < d).
  { destruct (Z_lt_le_dec 0 d) as [|Hn]; [assumption|].
    destruct (Z.eq_dec d 0) as [->|]; [simpl in Hhi; lia|].
    rewrite (Z.pow_neg_r 2 d) in Hhi by lia. lia. }
  destruct (Z.lt_trichotomy (digits m) d) as [Hlt|[Heq|Hgt]]; [|exact Heq|].
  - assert (2 ^ digits m ≤ 2 ^ (d - 1)) by (apply Z.pow_le_mono_r; lia). lia.
  - assert (2 ^ d ≤ 2 ^ (digits m - 1)) by (apply Z.pow_le_mono_r; lia). lia.
Qed.

Lemma digits_shift m k : digits (Pos.iter xO m k) = digits m + Zpos k.
Proof.
  unfold digits.
  revert m. induction k as [|k IH] using Pos.peano_ind; intros m.
  - simpl. lia.
  - rewrite Pos.iter_succ. cbn [digits2_pos]. rewrite Pos2Z.inj_succ, IH. lia.
Qed.

Lemma iter_xO m k : Zpos (Pos.iter xO m k) = Zpos m * 2 ^ Zpos k.
Proof.
  revert m. induction k as [|k IH] using Pos.peano_ind; intros m.
  - simpl. lia.
  - rewrite Pos.iter_succ. rewrite Pos2Z.inj_xO, IH, Pos2Z.inj_succ.
    rewrite Z.pow_succ_r by lia. lia.
Qed.

Lemma iter_pos_nat {A} (f : A → A) n : ∀ x,
  SpecFloat.iter_pos f n x = Nat.iter (Pos.to_nat n) f x.
Proof.
  induction n as [n IH|n IH|]; intros x; cbn [SpecFloat.iter_pos].
  - rewrite !IH. rewrite Pos2Nat.inj_xI. rewrite Nat.iter_succ_r.
    replace (2 * Pos.to_nat n)%nat with (Pos.to_nat n + Pos.to_nat n)%nat by lia.
    rewrite Nat.iter_add. reflexivity.
  - rewrite !IH. rewrite Pos2Nat.inj_xO.
    replace (2 * Pos.to_nat n)%nat with (Pos.to_nat n + Pos.to_nat n)%nat by lia.
    rewrite Nat.iter_add. reflexivity.
  - reflexivity.
Qed.

Lemma shr_1_nonneg m r s :
  0 ≤ m →
  shr_1 {| shr_m := m; shr_r := r; shr_s := s |} =
  {| shr_m := m / 2; shr_r := Z.odd m; shr_s := r || s |}.
Proof.
  intros Hm. destruct m as [|p|p]; [reflexivity| |lia].
  destruct p as [p|p|]; cbn [shr_1].
  - assert (Zpos p~1 / 2 = Zpos p) as ->
      by (symmetry; apply (Z.div_unique _ 2 _ 1); lia).
    reflexivity.
  - assert (Zpos p~0 / 2 = Zpos p) as ->
      by (symmetry; apply (Z.div_unique _ 2 _ 0); lia).
    reflexivity.
  - reflexivity.
Qed.

(** The mantissa [M] shifted right by [k >= 1] digits, with the round and
    sticky bits: the quotient by [2^k], whether the remainder reaches the
    half, and whether anything lies below the half digit. *)
Lemma shr_iter M (k : nat) :
  0 ≤ M →
  Nat.iter (S k) shr_1 {| shr_m := M; shr_r := false; shr_s := false |} =
  {| shr_m := M / 2 ^ Z.of_nat (S k);
     shr_r := 2 ^ Z.of_nat k <=? M mod 2 ^ Z.of_nat (S k);
     shr_s := negb (M mod 2 ^ Z.of_nat k =? 0) |}.
Proof.
  intros HM. induction k as [|k IH].
  - cbn [Nat.iter]. rewrite shr_1_nonneg by exact HM.
    change (2 ^ Z.of_nat 1) with 2. change (2 ^ Z.of_nat 0) with 1.
    rewrite Z.mod_1_r. f_equal.
    rewrite Zodd_mod. pose proof (Z.mod_pos_bound M 2 ltac:(lia)).
    destruct (Z.eqb_spec (M mod 2) 1) as [->|]; [reflexivity|].
    symmetry. apply Z.leb_gt. lia.
  - rewrite Nat.iter_succ, IH. clear IH.
    assert (Hk : 0 < 2 ^ Z.of_nat k) by (apply Z.pow_pos_nonneg; lia).
    assert (HSk : 2 ^ Z.of_nat (S k) = 2 ^ Z.of_nat k * 2).
    { rewrite Nat2Z.inj_succ, Z.pow_succ_r by lia. lia. }
    assert (HSSk : 2 ^ Z.of_nat (S (S k)) = 2 ^ Z.of_nat (S k) * 2).
    { rewrite (Nat2Z.inj_succ (S k)), Z.pow_succ_r by lia. lia. }
    rewrite shr_1_nonneg by (apply Z.div_pos; lia).
    pose proof (Z.mod_pos_bound M (2 ^ Z.of_nat k) Hk) as Hr0.
    pose proof (Z.mod_pos_bound M (2 ^ Z.of_nat (S k)) ltac:(lia)) as Hr1.
    pose proof (Z.mod_pos_bound (M / 2 ^ Z.of_nat k) 2 ltac:(lia)) as Hb0.
    pose proof (Z.mod_pos_bound (M / 2 ^ Z.of_nat (S k)) 2 ltac:(lia)) as Hb1.
    assert (E1 : M mod 2 ^ Z.of_nat (S k)
                 = M mod 2 ^ Z.of_nat k + 2 ^ Z.of_nat k * ((M / 2 ^ Z.of_nat k) mod 2)).
    { rewrite HSk. apply Z.rem_mul_r; lia. }
    assert (E2 : M mod 2 ^ Z.of_nat (S (S k))
                 = M mod 2 ^ Z.of_nat (S k)
                   + 2 ^ Z.of_nat (S k) * ((M / 2 ^ Z.of_nat (S k)) mod 2)).
    { rewrite HSSk. apply Z.rem_mul_r; lia. }
    f_equal.
    + rewrite HSSk. rewrite Z.div_div by lia. reflexivity.
    + rewrite Zodd_mod.
      destruct (Z.eqb_spec ((M / 2 ^ Z.of_nat (S k)) mod 2) 1) as [Hb|Hb]; symmetry.
      * apply Z.leb_le. nia.
      * apply Z.leb_gt. assert (Hz : (M / 2 ^ Z.of_nat (S k)) mod 2 = 0) by lia.
        rewrite Hz in E2. lia.
    + destruct (Z.leb_spec (2 ^ Z.of_nat k) (M mod 2 ^ Z.of_nat (S k))) as [Hle|Hlt];
        cbn [orb].
      * symmetry. apply negb_true_iff, Z.eqb_neq. lia.
      * f_equal. assert ((M / 2 ^ Z.of_nat k) mod 2 = 0) as Hz by nia.
        rewrite Hz in E1. rewrite E1. f_equal. lia.
Qed.

Lemma shr_round M (k : nat) :
  0 ≤ M →
  let mrs := Nat.iter (S k) shr_1 {| shr_m := M; shr_r := false; shr_s := false |} in
  round_nearest_even (shr_m mrs) (loc_of_shr_record mrs) = rne M (Z.of_nat (S k)).
Proof.
  intros HM mrs. unfold mrs. rewrite shr_iter by exact HM. clear mrs.
  assert (Hk : 0 < 2 ^ Z.of_nat k) by (apply Z.pow_pos_nonneg; lia).
  assert (HSk : 2 ^ Z.of_nat (S k) = 2 ^ Z.of_nat k * 2).
  { rewrite Nat2Z.inj_succ, Z.pow_succ_r by lia. lia. }
  pose proof (Z.mod_pos_bound M (2 ^ Z.of_nat k) Hk) as Hr0.
  pose proof (Z.mod_pos_bound (M / 2 ^ Z.of_nat k) 2 ltac:(lia)) as Hb0.
  assert (E1 : M mod 2 ^ Z.of_nat (S k)
               = M mod 2 ^ Z.of_nat k + 2 ^ Z.of_nat k * ((M / 2 ^ Z.of_nat k) mod 2)).
  { rewrite HSk. apply Z.rem_mul_r; lia. }
  unfold rne. cbn [shr_m loc_of_shr_record].
  assert (Hb : (M / 2 ^ Z.of_nat k) mod 2 = 0 ∨ (M / 2 ^ Z.of_nat k) mod 2 = 1) by lia.
  destruct Hb as [Hb|Hb]; rewrite Hb in E1;
    destruct (Z.leb_spec (2 ^ Z.of_nat k) (M mod 2 ^ Z.of_nat (S k))) as [Hle|Hlt];
    destruct (Z.eqb_spec (M mod 2 ^ Z.of_nat k) 0) as [Hz|Hnz];
    cbn [negb round_nearest_even]; try lia.
  - rewrite (proj2 (Z.compare_lt_iff _ _)) by lia. reflexivity.
  - rewrite (proj2 (Z.compare_lt_iff _ _)) by lia. reflexivity.
  - rewrite (proj2 (Z.compare_eq_iff _ _)) by lia. reflexivity.
  - rewrite (proj2 (Z.compare_gt_iff _ _)) by lia. reflexivity.
Qed.

(** [shr] by a positive amount, on an exact mantissa. *)
Lemma shr_exact_loc M e (n : positive) :
  0 ≤ M →
  let '(mrs, e') := shr {| shr_m := M; shr_r := false; shr_s := false |} e (Zpos n) in
  e' = e + Zpos n ∧
  round_nearest_even (shr_m mrs) (loc_of_shr_record mrs) = rne M (Zpos n).
Proof.
  intros HM. unfold shr. split; [reflexivity|].
  rewrite iter_pos_nat.
  destruct (Pos.to_nat n) as [|k] eqn:Hn; [lia|].
  rewrite (shr_round M k HM). f_equal. lia.
Qed.

Lemma rne_bounds M k :
  0 ≤ M → 0 < k → M / 2 ^ k ≤ rne M k ≤ M / 2 ^ k + 1.
Proof.
  intros HM Hk. unfold rne.
  destruct (2 * (M mod 2 ^ k) ?= 2 ^ k); [destruct (Z.even _)| |]; lia.
Qed.

(** ** Binary64 arithmetic: rounding a mantissa *)

Lemma fexp_normal x : -1074 ≤ x - 53 → fexp prec emax x = x - 53.
Proof. intros H. unfold fexp, emin, prec, emax. lia. Qed.

Lemma Zdigits2_pos m : Zdigits2 (Zpos m) = digits m.
Proof. reflexivity. Qed.

(** The second stage of [binary_round_aux]: a mantissa of 53 digits stays,
    [2^53] becomes [2^52] one exponent higher. *)
Lemma round_second_stage sx q e :
  2 ^ 52 ≤ q ≤ 2 ^ 53 → -1074 ≤ e →
  (let '(mrs, e') := shr_fexp prec emax q e loc_Exact in
   match shr_m mrs with
   | Z0 => S754_zero sx
   | Zpos m => if e' <=? emax - prec then S754_finite sx m e' else S754_infinity sx
   | Zneg _ => S754_nan
   end) = norm_result sx q e.
Proof.
  intros Hq He. destruct q as [|m|m]; try lia.
  unfold shr_fexp. rewrite Zdigits2_pos. unfold norm_result.
  destruct (Z.eqb_spec (Zpos m) (2 ^ 53)) as [Heq|Hne].
  - assert (Hd : digits m = 54) by (apply digits_unique; lia).
    rewrite Hd, fexp_normal by lia.
    replace (54 + e - 53 - e) with 1 by lia.
    injection Heq as ->. cbn [shr shr_record_of_loc SpecFloat.iter_pos shr_1 shr_m].
    unfold finish, emax, prec. 
    change (1024 - 53) with 971. change (Z.to_pos (2 ^ 52)) with 4503599627370496%positive.
    reflexivity.
  - assert (Hd : digits m = 53) by (apply digits_unique; lia).
    rewrite Hd, fexp_normal by lia.
    replace (53 + e - 53 - e) with 0 by lia.
    cbn [shr shr_record_of_loc shr_m]. unfold finish, emax, prec.
    change (1024 - 53) with 971. rewrite Pos2Z.id. reflexivity.
Qed.

Lemma shifted_mantissa_bounds m k :
  0 < k → digits m = 53 + k →
  2 ^ 52 ≤ Zpos m / 2 ^ k < 2 ^ 53.
Proof.
  intros Hk Hd. pose proof (digits_bounds m) as [Hlo Hhi]. rewrite Hd in Hlo, Hhi.
  assert (Hp : 0 < 2 ^ k) by (apply Z.pow_pos_nonneg; lia).
  replace (53 + k - 1) with (52 + k) in Hlo by lia.
  rewrite Z.pow_add_r in Hlo, Hhi by lia. split.
  - apply Z.div_le_lower_bound; lia.
  - apply Z.div_lt_upper_bound; lia.
Qed.

(** [binary_round_aux] on an exact mantissa whose value is in the range of
    the normal numbers: a mantissa of at most 53 digits is kept, a longer one
    is rounded to 53 digits. *)
Lemma binary_round_aux_normal sx m e :
  -1074 ≤ digits m + e - 53 →
  binary_round_aux prec emax sx (Zpos m) e loc_Exact =
  if digits m <=? 53 then finish sx (Zpos m) e
  else norm_result sx (rne (Zpos m) (digits m - 53)) (e + (digits m - 53)).
Proof.
  intros Hn. unfold binary_round_aux.
  unfold shr_fexp at 1. rewrite Zdigits2_pos, fexp_normal by lia.
  replace (digits m + e - 53 - e) with (digits m - 53) by lia.
  destruct (Z.leb_spec (digits m) 53) as [Hle|Hgt].
  - assert (Hs : shr (shr_record_of_loc (Zpos m) loc_Exact) e (digits m - 53)
                 = ({| shr_m := Zpos m; shr_r := false; shr_s := false |}, e)).
    { destruct (digits m - 53) eqn:Hk; try reflexivity. lia. }
    rewrite Hs. cbn [shr_m loc_of_shr_record round_nearest_even].
    unfold shr_fexp. rewrite Zdigits2_pos, fexp_normal by lia.
    replace (digits m + e - 53 - e) with (digits m - 53) by lia.
    rewrite Hs. cbn [shr_m]. unfold finish, emax, prec. change (1024 - 53) with 971.
    rewrite Pos2Z.id. reflexivity.
  - destruct (digits m - 53) as [|k|k] eqn:Hk; try lia.
    pose proof (shr_exact_loc (Zpos m) e k ltac:(lia)) as Hs.
    cbn [shr_record_of_loc].
    destruct (shr {| shr_m := Zpos m; shr_r := false; shr_s := false |} e (Zpos k))
      as [mrs e'] eqn:Hshr.
    destruct Hs as [-> Hr]. rewrite Hr.
    apply round_second_stage.
    + pose proof (shifted_mantissa_bounds m (Zpos k) ltac:(lia) ltac:(lia)).
      pose proof (rne_bounds (Zpos m) (Zpos k) ltac:(lia) ltac:(lia)). lia.
    + lia.
Qed.

(** ** Binary64 arithmetic: integers below [2^53] are exact *)

Lemma mant_value p : digits p ≤ 53 → Zpos (mant p) = Zpos p * 2 ^ (53 - digits p).
Proof.
  intros Hd. unfold mant. rewrite Z2Pos.id; [reflexivity|].
  assert (0 < 2 ^ (53 - digits p)) by (apply Z.pow_pos_nonneg; lia). lia.
Qed.

Lemma digits_mul_pow2 p q k :
  0 ≤ k → Zpos q = Zpos p * 2 ^ k → digits q = digits p + k.
Proof.
  intros Hk Hq. apply digits_unique. rewrite Hq.
  pose proof (digits_bounds p) as [Hlo Hhi]. pose proof (digits_pos p).
  assert (Hp : 0 < 2 ^ k) by (apply Z.pow_pos_nonneg; lia).
  replace (digits p + k - 1) with (digits p - 1 + k) by lia.
  rewrite !Z.pow_add_r by lia. split; nia.
Qed.

Lemma digits_mant p : digits p ≤ 53 → digits (mant p) = 53.
Proof.
  intros Hd. rewrite (digits_mul_pow2 p (mant p) (53 - digits p)); [lia|lia|].
  apply mant_value. exact Hd.
Qed.

Lemma digits_lt p : Zpos p < 2 ^ 53 → digits p ≤ 53.
Proof.
  intros H. pose proof (digits_bounds p) as [Hlo _].
  destruct (Z_le_gt_dec (digits p) 53) as [|Hgt]; [assumption|].
  assert (2 ^ 53 ≤ 2 ^ (digits p - 1)) by (apply Z.pow_le_mono_r; lia). lia.
Qed.

(** An exact quotient is its own rounding. *)
Lemma rne_exact K k : 0 ≤ k → rne (K * 2 ^ k) k = K.
Proof.
  intros Hk. assert (Hp : 0 < 2 ^ k) by (apply Z.pow_pos_nonneg; lia).
  unfold rne. rewrite Z.mod_mul, Z.div_mul by lia.
  rewrite (proj2 (Z.compare_lt_iff _ _)) by lia. reflexivity.
Qed.

(** The float of a positive integer of at most 53 digits, scaled by a power
    of two: the canonical mantissa and exponent. *)
Lemma binary_round_int sx p P n :
  digits p ≤ 53 → 0 ≤ n ≤ 1000 → Zpos P = Zpos p * 2 ^ n →
  binary_round prec emax sx P (- n) = S754_finite sx (mant p) (digits p - 53).
Proof.
  intros Hd Hn HP. pose proof (digits_pos p) as Hd1.
  pose proof (digits_mul_pow2 p P n ltac:(lia) HP) as HdP.
  unfold binary_round. change (Zpos (digits2_pos P)) with (digits P).
  rewrite HdP, fexp_normal by lia.
  replace (digits p + n + - n - 53) with (digits p - 53) by lia.
  unfold shl_align.
  destruct (digits p - 53 - - n) as [|k|k] eqn:Hk.
  - (* the mantissa has 53 digits already *)
    rewrite binary_round_aux_normal by lia. rewrite (proj2 (Z.leb_le _ _)) by lia.
    unfold finish. rewrite (proj2 (Z.leb_le _ _)) by lia.
    f_equal; [|lia]. apply Pos2Z.inj. rewrite mant_value by lia.
    rewrite Pos2Z.id, HP. f_equal. f_equal. lia.
  - (* too long: the low digits are zeros and are shifted out *)
    rewrite binary_round_aux_normal by lia. rewrite (proj2 (Z.leb_gt _ _)) by lia.
    replace (digits P - 53) with (Zpos k) by lia.
    assert (Hq : Zpos P = (Zpos p * 2 ^ (n - Zpos k)) * 2 ^ Zpos k).
    { rewrite HP, <- Z.mul_assoc, <- Z.pow_add_r by lia. do 2 f_equal. lia. }
    rewrite Hq, rne_exact by lia.
    replace (n - Zpos k) with (53 - digits p) by lia.
    rewrite <- mant_value by lia. unfold norm_result.
    pose proof (digits_bounds (mant p)) as [_ Hhi]. rewrite digits_mant in Hhi by lia.
    rewrite (proj2 (Z.eqb_neq _ _)) by lia.
    unfold finish. rewrite (proj2 (Z.leb_le _ _)) by lia.
    rewrite Pos2Z.id. f_equal. lia.
  - (* too short: shifted left *)
    assert (HdI : digits (Pos.iter xO P k) = 53).
    { rewrite digits_shift. lia. }
    rewrite binary_round_aux_normal by lia. rewrite (proj2 (Z.leb_le _ _)) by lia.
    unfold finish. rewrite (proj2 (Z.leb_le _ _)) by lia.
    f_equal. apply Pos2Z.inj. rewrite Pos2Z.id, iter_xO, HP, mant_value by lia.
    rewrite <- Z.mul_assoc, <- Z.pow_add_r by lia. do 2 f_equal. lia.
Qed.

(** The double of an integer of at most 53 digits: its digits moved up to
    the top of the mantissa. *)
Lemma fl_pos p :
  digits p ≤ 53 → fl (Zpos p) = S754_finite false (mant p) (digits p - 53).
Proof.
  intros Hd. unfold fl. cbn [binary_normalize].
  apply (binary_round_int false p p 0 Hd); [lia|]. rewrite Z.pow_0_r. lia.
Qed.

Lemma fl_neg p :
  digits p ≤ 53 → fl (Zneg p) = S754_finite true (mant p) (digits p - 53).
Proof.
  intros Hd. unfold fl. cbn [binary_normalize].
  apply (binary_round_int true p p 0 Hd); [lia|]. rewrite Z.pow_0_r. lia.
Qed.

(** [binary_normalize] of an integer below [2^53] scaled by [2^n], at the
    exponent [-n]: the float of the integer. *)
Lemma binary_normalize_int K n :
  Z.abs K < 2 ^ 53 → 0 ≤ n ≤ 1000 →
  binary_normalize prec emax (K * 2 ^ n) (- n) false = fl K.
Proof.
  intros HK Hn. assert (Hp : 0 < 2 ^ n) by (apply Z.pow_pos_nonneg; lia).
  destruct K as [|p|p].
  - reflexivity.
  - destruct (Zpos p * 2 ^ n) as [|P|P] eqn:HP; try lia.
    cbn [binary_normalize]. rewrite fl_pos by (apply digits_lt; lia).
    apply binary_round_int; [apply digits_lt; lia|lia|symmetry; exact HP].
  - destruct (Zneg p * 2 ^ n) as [|P|P] eqn:HP; try lia.
    cbn [binary_normalize]. rewrite fl_neg by (apply digits_lt; lia).
    apply binary_round_int; [apply digits_lt; lia|lia|].
    rewrite <- !Pos2Z.opp_pos in HP. lia.
Qed.

(** An integer below [2^53] in absolute value converts without rounding. *)
Lemma float_of_int_exact z : Z.abs z < 2 ^ 53 → float_of_int z = OK (fl z).
Proof.
  intros Hz. unfold float_of_int. fold (fl z).
  destruct z as [|p|p].
  - reflexivity.
  - rewrite fl_pos by (apply digits_lt; lia). reflexivity.
  - rewrite fl_neg by (apply digits_lt; lia). reflexivity.
Qed.

Lemma shl_align_value mx ex ez :
  ez ≤ ex → Zpos (fst (shl_align mx ex ez)) = Zpos mx * 2 ^ (ex - ez).
Proof.
  intros H. unfold shl_align. destruct (ez - ex) as [|k|k] eqn:Hk; cbn [fst]; try lia.
  - replace (ex - ez) with 0 by lia. rewrite Z.pow_0_r. lia.
  - rewrite iter_xO. do 2 f_equal. lia.
Qed.

(** [x - 1.0] on the float of an integer is the float of the integer
    minus one. *)
Lemma float_sub_one a :
  Z.abs a < 2 ^ 53 → Z.abs (a - 1) < 2 ^ 53 →
  float_sub (fl a) float_one = fl (a - 1).
Proof.
  intros Ha Ha1. destruct a as [|p|p].
  - vm_compute. reflexivity.
  - pose proof (digits_lt p ltac:(lia)) as Hd. pose proof (digits_pos p) as Hd1.
    rewrite fl_pos by exact Hd. unfold float_sub, float_one. cbn [SFsub].
    rewrite Z.min_r by lia. cbn [cond_Zopp].
    rewrite !shl_align_value by lia. rewrite mant_value by exact Hd.
    rewrite <- binary_normalize_int with (n := 52) by lia.
    change (- (52)) with (-52). f_equal.
    replace (digits p - 53 - -52) with (digits p - 1) by lia.
    replace (-52 - -52) with 0 by lia.
    rewrite <- Z.mul_assoc, <- Z.pow_add_r by lia.
    replace (53 - digits p + (digits p - 1)) with 52 by lia.
    rewrite Z.pow_0_r. lia.
  - pose proof (digits_lt p ltac:(lia)) as Hd. pose proof (digits_pos p) as Hd1.
    rewrite fl_neg by exact Hd. unfold float_sub, float_one. cbn [SFsub].
    rewrite Z.min_r by lia. cbn [cond_Zopp].
    rewrite !shl_align_value by lia. rewrite mant_value by exact Hd.
    rewrite <- binary_normalize_int with (n := 52) by lia.
    change (- (52)) with (-52). f_equal.
    replace (digits p - 53 - -52) with (digits p - 1) by lia.
    replace (-52 - -52) with 0 by lia.
    rewrite <- Z.mul_assoc, <- Z.pow_add_r by lia.
    replace (53 - digits p + (digits p - 1)) with 52 by lia.
    rewrite Z.pow_0_r. rewrite <- Pos2Z.opp_pos. lia.
Qed.

(** A finite number divided by itself is [1.0]. *)
Lemma SFdiv_self s m e :
  SFdiv prec emax (S754_finite s m e) (S754_finite s m e) = float_one.
Proof.
  cbn [SFdiv]. unfold SFdiv_core_binary.
  replace (Zdigits2 (Zpos m) + e - (Zdigits2 (Zpos m) + e)) with 0 by lia.
  rewrite Z.sub_diag.
  change (Z.min (fexp prec emax 0) 0) with (-53).
  change (0 - -53) with 53.
  assert (Hsh : Z.shiftl (Zpos m) 53 = 2 ^ 53 * Zpos m).
  { rewrite Z.shiftl_mul_pow2 by lia. lia. }
  rewrite Hsh.
  destruct (Z.div_eucl (2 ^ 53 * Zpos m) (Zpos m)) as [q r] eqn:Hqr.
  assert (Hq : q = 2 ^ 53).
  { change q with (fst (q, r)). rewrite <- Hqr. fold (Z.div (2 ^ 53 * Zpos m) (Zpos m)).
    apply Z.div_mul. lia. }
  assert (Hr : r = 0).
  { change r with (snd (q, r)). rewrite <- Hqr. fold (Z.modulo (2 ^ 53 * Zpos m) (Zpos m)).
    apply Z.mod_mul. lia. }
  subst q r.
  assert (Hl : new_location (Zpos m) 0 = loc_Exact).
  { unfold new_location. destruct (Z.even (Zpos m)); reflexivity. }
  rewrite Hl. replace (xorb s s) with false by (destruct s; reflexivity).
  vm_compute. reflexivity.
Qed.

(** A normal number times [1.0] is itself. *)
Lemma float_mul_one sx m e :
  digits m = 53 → -1074 ≤ e ≤ 971 →
  float_mul (S754_finite sx m e) float_one = S754_finite sx m e.
Proof.
  intros Hd He. unfold float_mul, float_one. cbn [SFmul].
  assert (HP : Zpos (m * 4503599627370496) = Zpos m * 2 ^ 52) by reflexivity.
  pose proof (digits_mul_pow2 m _ 52 ltac:(lia) HP) as HdP.
  rewrite binary_round_aux_normal by lia.
  rewrite (proj2 (Z.leb_gt _ _)) by lia.
  rewrite HdP, Hd. replace (53 + 52 - 53) with 52 by lia.
  rewrite HP, rne_exact by lia. unfold norm_result.
  pose proof (digits_bounds m) as [_ Hhi]. rewrite Hd in Hhi.
  rewrite (proj2 (Z.eqb_neq _ _)) by lia.
  unfold finish. rewrite (proj2 (Z.leb_le _ _)) by lia.
  rewrite Pos2Z.id. replace (xorb sx false) with sx by (destruct sx; reflexivity).
  f_equal. lia.
Qed.

Lemma float_mul_fl_one i : Z.abs i < 2 ^ 53 → float_mul (fl i) float_one = fl i.
Proof.
  intros Hi. destruct i as [|p|p].
  - reflexivity.
  - pose proof (digits_lt p ltac:(lia)). pose proof (digits_pos p).
    rewrite fl_pos by assumption. apply float_mul_one; [apply digits_mant; assumption|lia].
  - pose proof (digits_lt p ltac:(lia)). pose proof (digits_pos p).
    rewrite fl_neg by assumption. apply float_mul_one; [apply digits_mant; assumption|lia].
Qed.

(** [int(round(float(i)))] is [i]. *)
Lemma int_round_fl i : Z.abs i < 2 ^ 53 → int_round (fl i) = OK i.
Proof.
  intros Hi.
  assert (Hmag : ∀ p, digits p ≤ 53 →
            match digits p - 53 with
            | Zneg k => (Zpos (mant p) + 2 ^ (Zpos k - 1)) / 2 ^ Zpos k
            | _ => Zpos (mant p) * 2 ^ (digits p - 53)
            end = Zpos p).
  { intros p Hd. pose proof (digits_pos p). rewrite mant_value by exact Hd.
    destruct (digits p - 53) as [|k|k] eqn:Hk; try lia.
    - replace (53 - digits p) with 0 by lia. rewrite Z.pow_0_r. lia.
    - replace (53 - digits p) with (Zpos k) by lia.
      assert (Hp : 0 < 2 ^ (Zpos k - 1)) by (apply Z.pow_pos_nonneg; lia).
      assert (H2 : 2 ^ Zpos k = 2 * 2 ^ (Zpos k - 1)).
      { rewrite <- Z.pow_succ_r by lia. f_equal. lia. }
      symmetry. apply (Z.div_unique _ _ _ (2 ^ (Zpos k - 1))); lia. }
  destruct i as [|p|p].
  - reflexivity.
  - pose proof (digits_lt p ltac:(lia)) as Hd. rewrite fl_pos by exact Hd.
    cbn [int_round]. rewrite (Hmag p Hd). reflexivity.
  - pose proof (digits_lt p ltac:(lia)) as Hd. rewrite fl_neg by exact Hd.
    cbn [int_round]. rewrite (Hmag p Hd). reflexivity.
Qed.

Lemma fl_nonzero z : z ≠ 0 → Z.abs z < 2 ^ 53 → float_is_zero (fl z) = false.
Proof.
  intros Hz Hb. destruct z as [|p|p]; [congruence| |].
  - rewrite fl_pos by (apply digits_lt; lia). reflexivity.
  - rewrite fl_neg by (apply digits_lt; lia). reflexivity.
Qed.

(** The double of a non-zero integer below [2^53] is normal, with an
    exponent between [-52] and [0]. *)
Lemma fl_finite z :
  z ≠ 0 → Z.abs z < 2 ^ 53 →
  ∃ m e, fl z = S754_finite (z <? 0) m e ∧ digits m = 53 ∧ -52 ≤ e ≤ 0.
Proof.
  intros Hz Hb. destruct z as [|p|p]; [congruence| |].
  - pose proof (digits_lt p ltac:(lia)). pose proof (digits_pos p).
    exists (mant p), (digits p - 53). rewrite fl_pos by assumption.
    split; [reflexivity|]. split; [apply digits_mant; assumption|lia].
  - pose proof (digits_lt p ltac:(lia)). pose proof (digits_pos p).
    exists (mant p), (digits p - 53). rewrite fl_neg by assumption.
    split; [reflexivity|]. split; [apply digits_mant; assumption|lia].
Qed.

(** ** Binary64 arithmetic: rounding is monotone *)

(** Rounding to nearest even keeps the order, and does not depend on zeros
    appended below. *)
Lemma rne_mono M M' k : 0 ≤ M ≤ M' → 0 ≤ k → rne M k ≤ rne M' k.
Proof.
  intros HM Hk. assert (Hp : 0 < 2 ^ k) by (apply Z.pow_pos_nonneg; lia).
  unfold rne.
  pose proof (Z.div_mod M (2 ^ k) ltac:(lia)) as E.
  pose proof (Z.div_mod M' (2 ^ k) ltac:(lia)) as E'.
  pose proof (Z.mod_pos_bound M (2 ^ k) Hp) as B.
  pose proof (Z.mod_pos_bound M' (2 ^ k) Hp) as B'.
  pose proof (Z.div_le_mono M M' (2 ^ k) Hp ltac:(lia)) as Hq.
  destruct (Z.eq_dec (M / 2 ^ k) (M' / 2 ^ k)) as [Heq|Hne].
  - rewrite Heq in *.
    destruct (Z.compare_spec (2 * (M mod 2 ^ k)) (2 ^ k)),
             (Z.compare_spec (2 * (M' mod 2 ^ k)) (2 ^ k));
      try destruct (Z.even _); lia.
  - destruct (2 * (M mod 2 ^ k) ?= 2 ^ k), (2 * (M' mod 2 ^ k) ?= 2 ^ k);
      repeat destruct (Z.even _); lia.
Qed.

Lemma rne_shift N j k : 0 ≤ j → 0 ≤ k → rne (N * 2 ^ j) (k + j) = rne N k.
Proof.
  intros Hj Hk.
  assert (Hpj : 0 < 2 ^ j) by (apply Z.pow_pos_nonneg; lia).
  assert (Hpk : 0 < 2 ^ k) by (apply Z.pow_pos_nonneg; lia).
  unfold rne. rewrite Z.pow_add_r by lia.
  rewrite Z.div_mul_cancel_r by lia.
  rewrite Z.mul_mod_distr_r by lia.
  rewrite Z.mul_assoc. rewrite <- Zmult_compare_compat_r by lia. reflexivity.
Qed.

Lemma rne_0 N : rne N 0 = N.
Proof. unfold rne. rewrite Z.pow_0_r, Z.mod_1_r, Z.div_1_r. reflexivity. Qed.

Lemma digits_ge m d : 2 ^ (d - 1) ≤ Zpos m → d ≤ digits m.
Proof.
  intros H. pose proof (digits_bounds m) as [_ Hhi].
  destruct (Z_le_gt_dec d (digits m)) as [|Hgt]; [assumption|].
  assert (2 ^ digits m ≤ 2 ^ (d - 1)) by (apply Z.pow_le_mono_r; lia). lia.
Qed.

Lemma digits_le m d : 0 ≤ d → Zpos m < 2 ^ d → digits m ≤ d.
Proof.
  intros Hd H. pose proof (digits_bounds m) as [Hlo _].
  destruct (Z_le_gt_dec (digits m) d) as [|Hgt]; [assumption|].
  assert (2 ^ d ≤ 2 ^ (digits m - 1)) by (apply Z.pow_le_mono_r; lia). lia.
Qed.

Lemma digits_mono m m' : (m ≤ m')%positive → digits m ≤ digits m'.
Proof.
  intros H. apply digits_ge. pose proof (digits_bounds m) as [Hlo _]. lia.
Qed.

Lemma round53_bounds N :
  53 ≤ digits N →
  2 ^ 52 ≤ fst (round53 N) < 2 ^ 53 ∧
  digits N - 53 ≤ snd (round53 N) ≤ digits N - 52.
Proof.
  intros Hd. unfold round53.
  assert (Ha : 2 ^ 52 ≤ rne (Zpos N) (digits N - 53) ≤ 2 ^ 53).
  { destruct (Z.eq_dec (digits N) 53) as [Heq|Hne].
    - rewrite Heq. change (53 - 53) with 0. rewrite rne_0.
      pose proof (digits_bounds N) as HB. rewrite Heq in HB. simpl in HB. lia.
    - pose proof (shifted_mantissa_bounds N (digits N - 53) ltac:(lia) ltac:(lia)).
      pose proof (rne_bounds (Zpos N) (digits N - 53) ltac:(lia) ltac:(lia)). lia. }
  destruct (Z.eqb_spec (rne (Zpos N) (digits N - 53)) (2 ^ 53)); cbn [fst snd]; lia.
Qed.

Lemma norm_result_round53 sx N e :
  norm_result sx (rne (Zpos N) (digits N - 53)) (e + (digits N - 53))
  = finish sx (fst (round53 N)) (e + snd (round53 N)).
Proof.
  unfold norm_result, round53.
  destruct (Z.eqb_spec (rne (Zpos N) (digits N - 53)) (2 ^ 53)); cbn [fst snd];
    f_equal; lia.
Qed.

(** The order of the rounded mantissas is the order of the mantissas. *)
Lemma round53_mono N N' :
  53 ≤ digits N → (N ≤ N')%positive →
  snd (round53 N) < snd (round53 N') ∨
  (snd (round53 N) = snd (round53 N') ∧ fst (round53 N) ≤ fst (round53 N')).
Proof.
  intros Hd Hle. pose proof (digits_mono N N' Hle) as Hdd.
  pose proof (round53_bounds N Hd) as [Hf Hs].
  pose proof (round53_bounds N' ltac:(lia)) as [Hf' Hs'].
  destruct (Z.eq_dec (digits N) (digits N')) as [Heq|Hne].
  - pose proof (rne_mono (Zpos N) (Zpos N') (digits N - 53) ltac:(lia) ltac:(lia)) as Hm.
    unfold round53 in *. rewrite <- Heq in *.
    destruct (Z.eqb_spec (rne (Zpos N) (digits N - 53)) (2 ^ 53)) as [Ha|Ha];
      destruct (Z.eqb_spec (rne (Zpos N') (digits N - 53)) (2 ^ 53)) as [Ha'|Ha'];
      cbn [fst snd] in *; lia.
  - unfold round53 in *.
    destruct (Z.eqb_spec (rne (Zpos N) (digits N - 53)) (2 ^ 53)) as [Ha|Ha];
      destruct (Z.eqb_spec (rne (Zpos N') (digits N' - 53)) (2 ^ 53)) as [Ha'|Ha'];
      cbn [fst snd] in *; lia.
Qed.

(** The order of two positive doubles with mantissas of 53 digits, read off
    their exponents and mantissas. *)
Lemma finish_leb c x c' x' :
  0 < c → 0 < c' → x ≤ 971 → x' ≤ 971 →
  x < x' ∨ (x = x' ∧ c ≤ c') →
  float_leb (finish false c x) (finish false c' x') = true.
Proof.
  intros Hc Hc' Hx Hx' H. unfold finish.
  rewrite !(proj2 (Z.leb_le _ _)) by lia.
  unfold float_leb, SFleb, SFcompare.
  destruct H as [Hlt|[-> Hle]].
  - rewrite (proj2 (Z.compare_lt_iff _ _)) by lia. reflexivity.
  - rewrite Z.compare_refl. fold (Pos.compare (Z.to_pos c) (Z.to_pos c')).
    destruct (Pos.compare_spec (Z.to_pos c) (Z.to_pos c')) as [?|?|Hgt]; try reflexivity.
    apply Pos2Z.pos_lt_pos in Hgt. rewrite !Z2Pos.id in Hgt by lia. lia.
Qed.

(** ** Binary64 arithmetic: an index times a step *)

(** The product of the double of a positive integer below [2^53] and of a
    normal double is the rounding of the product of the integer and of the
    mantissa. *)
Lemma float_mul_pos p q k :
  digits p ≤ 53 → digits q = 53 → -1074 ≤ k →
  float_mul (fl (Zpos p)) (S754_finite false q k)
  = finish false (fst (round53 (p * q))) (k + snd (round53 (p * q))).
Proof.
  intros Hp Hq Hk. pose proof (digits_pos p) as Hp1.
  rewrite fl_pos by exact Hp. unfold float_mul. cbn [SFmul xorb].
  assert (HM : Zpos (mant p * q) = Zpos (p * q) * 2 ^ (53 - digits p)).
  { rewrite !Pos2Z.inj_mul, mant_value by exact Hp. lia. }
  pose proof (digits_mul_pow2 (p * q) (mant p * q) (53 - digits p) ltac:(lia) HM) as HdM.
  assert (HdN : digits p + 52 ≤ digits (p * q)).
  { apply digits_ge. rewrite Pos2Z.inj_mul.
    pose proof (digits_bounds p) as [Hlo _]. pose proof (digits_bounds q) as [Hlo' _].
    rewrite Hq in Hlo'. replace (digits p + 52 - 1) with (digits p - 1 + (53 - 1)) by lia.
    rewrite Z.pow_add_r by lia. apply Z.mul_le_mono_nonneg; lia. }
  rewrite binary_round_aux_normal by lia.
  rewrite (proj2 (Z.leb_gt _ _)) by lia.
  rewrite HM, HdM.
  replace (digits (p * q) + (53 - digits p) - 53)
    with ((digits (p * q) - 53) + (53 - digits p)) by lia.
  rewrite rne_shift by lia.
  replace (digits p - 53 + k + (digits (p * q) - 53 + (53 - digits p)))
    with (k + (digits (p * q) - 53)) by lia.
  apply norm_result_round53.
Qed.

(** Products by a normal double grow with the integer. *)
Lemma float_mul_mono i j q k :
  0 ≤ i ≤ j → j < 2 ^ 53 → digits q = 53 → -1074 ≤ k ≤ 900 →
  float_leb (float_mul (fl i) (S754_finite false q k))
            (float_mul (fl j) (S754_finite false q k)) = true.
Proof.
  intros Hij Hj Hq Hk.
  assert (Hfin : ∀ p, Zpos p < 2 ^ 53 →
            53 ≤ digits (p * q) ≤ 106).
  { intros p Hp. pose proof (digits_bounds q) as [Hlo Hhi]. rewrite Hq in Hlo, Hhi.
    split.
    - apply digits_ge. rewrite Pos2Z.inj_mul. simpl in *. nia.
    - apply digits_le; [lia|]. rewrite Pos2Z.inj_mul.
      change (2 ^ 106) with (2 ^ 53 * 2 ^ 53). apply Z.mul_lt_mono_nonneg; lia. }
  destruct j as [|pj|pj]; [| |lia].
  - assert (i = 0) as -> by lia. reflexivity.
  - destruct i as [|pi|pi]; [| |lia].
    + rewrite float_mul_pos by (try apply digits_lt; lia).
      pose proof (Hfin pj Hj) as Hd.
      pose proof (round53_bounds (pj * q) ltac:(lia)) as [Hf Hs].
      unfold finish. rewrite (proj2 (Z.leb_le _ _)) by lia. reflexivity.
    + rewrite !float_mul_pos by (try apply digits_lt; lia).
      pose proof (Hfin pi ltac:(lia)) as Hdi. pose proof (Hfin pj Hj) as Hdj.
      pose proof (round53_bounds (pi * q) ltac:(lia)) as [Hfi Hsi].
      pose proof (round53_bounds (pj * q) ltac:(lia)) as [Hfj Hsj].
      apply finish_leb; try lia.
      destruct (round53_mono (pi * q) (pj * q) ltac:(lia)) as [Hlt|[Heq Hle]].
      * apply Pos.mul_le_mono_r. lia.
      * left. lia.
      * right. split; [lia|exact Hle].
Qed.

(** ** Binary64 arithmetic: the quotient of two integers *)

Lemma round_nearest_even_bounds m l : m ≤ round_nearest_even m l ≤ m + 1.
Proof. destruct l as [|[| |]]; cbn [round_nearest_even]; try destruct (Z.even m); lia. Qed.

Lemma shr_record_of_loc_m m l : shr_m (shr_record_of_loc m l) = m.
Proof. destruct l as [|[| |]]; reflexivity. Qed.

Lemma shr_1_m r : 0 ≤ shr_m r → shr_m (shr_1 r) = shr_m r / 2.
Proof.
  destruct r as [m r s]. cbn [shr_m]. intros H.
  rewrite shr_1_nonneg by exact H. reflexivity.
Qed.

Lemma norm_result_finite sx a e :
  2 ^ 52 ≤ a ≤ 2 ^ 53 → e ≤ 970 →
  ∃ c x, norm_result sx a e = S754_finite sx c x ∧ digits c = 53 ∧
         e ≤ x ≤ e + 1 ∧ Zpos c * 2 ^ (x - e) = a.
Proof.
  intros Ha He. unfold norm_result, finish.
  destruct (Z.eqb_spec a (2 ^ 53)) as [->|Hne].
  - rewrite (proj2 (Z.leb_le _ _)) by lia.
    eexists _, _. split; [reflexivity|]. split; [reflexivity|]. split; [lia|].
    replace (e + 1 - e) with 1 by lia. reflexivity.
  - rewrite (proj2 (Z.leb_le _ _)) by lia.
    eexists _, _. split; [reflexivity|]. split; [|split; [lia|]].
    + apply digits_unique. rewrite Z2Pos.id by lia. change (53 - 1) with 52. lia.
    + rewrite Z.sub_diag, Z2Pos.id by lia. simpl. lia.
Qed.

(** [binary_round_aux] on a mantissa of 53 or 54 digits, whatever lies
    below it: a normal double, at most one unit of the mantissa away. *)
Lemma binary_round_aux_any sx q e l :
  2 ^ 52 ≤ q < 2 ^ 54 → -1074 ≤ e ≤ 900 →
  ∃ c x, binary_round_aux prec emax sx q e l = S754_finite sx c x ∧
         digits c = 53 ∧ e ≤ x ≤ e + 2 ∧
         q - 1 ≤ Zpos c * 2 ^ (x - e) ≤ q + 2.
Proof.
  intros Hq He. destruct q as [|m|m]; try lia.
  unfold binary_round_aux. unfold shr_fexp at 1. rewrite Zdigits2_pos.
  assert (Hd : digits m = 53 ∨ digits m = 54).
  { pose proof (digits_ge m 53 ltac:(simpl; lia)).
    pose proof (digits_le m 54 ltac:(lia) ltac:(lia)). lia. }
  destruct Hd as [Hd|Hd]; rewrite Hd, fexp_normal by lia.
  - replace (53 + e - 53 - e) with 0 by lia. cbn [shr].
    rewrite shr_record_of_loc_m.
    set (a := round_nearest_even (Zpos m) _).
    pose proof (round_nearest_even_bounds (Zpos m)
                  (loc_of_shr_record (shr_record_of_loc (Zpos m) l))) as Ha.
    fold a in Ha.
    pose proof (digits_bounds m) as HB. rewrite Hd in HB. change (53 - 1) with 52 in HB.
    rewrite round_second_stage by lia.
    destruct (norm_result_finite sx a e ltac:(lia) ltac:(lia)) as (c & x & -> & Hc & Hx & Hv).
    exists c, x. split; [reflexivity|]. split; [exact Hc|]. split; lia.
  - replace (54 + e - 53 - e) with 1 by lia. cbn [shr SpecFloat.iter_pos].
    pose proof (digits_bounds m) as HB. rewrite Hd in HB. change (54 - 1) with 53 in HB.
    set (r := shr_1 (shr_record_of_loc (Zpos m) l)).
    assert (Hr : shr_m r = Zpos m / 2).
    { unfold r. rewrite shr_1_m; rewrite shr_record_of_loc_m; [reflexivity|lia]. }
    set (a := round_nearest_even (shr_m r) _).
    pose proof (round_nearest_even_bounds (shr_m r) (loc_of_shr_record r)) as Ha.
    fold a in Ha. rewrite Hr in Ha.
    assert (Hh : 2 ^ 52 ≤ Zpos m / 2 < 2 ^ 53).
    { split; [apply Z.div_le_lower_bound|apply Z.div_lt_upper_bound]; lia. }
    pose proof (Z.div_mod (Zpos m) 2 ltac:(lia)) as Hdm.
    pose proof (Z.mod_pos_bound (Zpos m) 2 ltac:(lia)) as Hmb.
    rewrite round_second_stage by lia.
    destruct (norm_result_finite sx a (e + 1) ltac:(lia) ltac:(lia))
      as (c & x & -> & Hc & Hx & Hv).
    exists c, x. split; [reflexivity|]. split; [exact Hc|]. split; [lia|].
    replace (x - e) with (x - (e + 1) + 1) by lia.
    rewrite Z.pow_add_r by lia. change (2 ^ 1) with 2. lia.
Qed.

(** The quotient of two normal doubles with exponents of integers below
    [2^53] is a normal double, within two units of the last of the 54 digits
    of the quotient of the mantissas. *)
Lemma SFdiv_normal m1 e1 m2 e2 :
  digits m1 = 53 → digits m2 = 53 → -52 ≤ e1 ≤ 0 → -52 ≤ e2 ≤ 0 →
  ∃ c x, SFdiv prec emax (S754_finite false m1 e1) (S754_finite false m2 e2)
         = S754_finite false c x ∧
         digits c = 53 ∧ -105 ≤ x ≤ 1 ∧ e1 - e2 - 53 ≤ x ∧
         let Q := Zpos m1 * 2 ^ 53 / Zpos m2 in
         Q - 1 ≤ Zpos c * 2 ^ (x - (e1 - e2 - 53)) ≤ Q + 2.
Proof.
  intros Hd1 Hd2 He1 He2. cbn [SFdiv xorb]. unfold SFdiv_core_binary.
  rewrite !Zdigits2_pos, Hd1, Hd2.
  replace (53 + e1 - (53 + e2)) with (e1 - e2) by lia.
  rewrite fexp_normal by lia. rewrite Z.min_l by lia.
  replace (e1 - e2 - (e1 - e2 - 53)) with 53 by lia.
  rewrite Z.shiftl_mul_pow2 by lia.
  pose proof (Z_div_mod (Zpos m1 * 2 ^ 53) (Zpos m2) ltac:(lia)) as Hdiv.
  assert (HQ : Z.div_eucl (Zpos m1 * 2 ^ 53) (Zpos m2)
               = (Zpos m1 * 2 ^ 53 / Zpos m2, Zpos m1 * 2 ^ 53 mod Zpos m2)).
  { unfold Z.div, Z.modulo. destruct (Z.div_eucl _ _). reflexivity. }
  rewrite HQ. clear Hdiv HQ.
  pose proof (digits_bounds m1) as B1. rewrite Hd1 in B1. change (53 - 1) with 52 in B1.
  pose proof (digits_bounds m2) as B2. rewrite Hd2 in B2. change (53 - 1) with 52 in B2.
  assert (HQb : 2 ^ 52 ≤ Zpos m1 * 2 ^ 53 / Zpos m2 < 2 ^ 54).
  { split.
    - apply Z.div_le_lower_bound; [lia|]. nia.
    - apply Z.div_lt_upper_bound; [lia|]. nia. }
  destruct (binary_round_aux_any false (Zpos m1 * 2 ^ 53 / Zpos m2) (e1 - e2 - 53)
              (new_location (Zpos m2) (Zpos m1 * 2 ^ 53 mod Zpos m2)) HQb ltac:(lia))
    as (c & x & -> & Hc & Hx & Hv).
  exists c, x. split; [reflexivity|]. split; [exact Hc|]. split; [lia|]. split; [lia|].
  exact Hv.
Qed.

(** The rounded mantissa is within [2^-52] of the mantissa, relatively. *)
Lemma round53_value N :
  53 ≤ digits N →
  0 ≤ snd (round53 N) ∧
  2 ^ 52 * (fst (round53 N) * 2 ^ snd (round53 N) - Zpos N) ≤ Zpos N ∧
  2 ^ 52 * (Zpos N - fst (round53 N) * 2 ^ snd (round53 N)) ≤ Zpos N.
Proof.
  intros Hd. unfold round53.
  set (k := digits N - 53). assert (Hk : 0 ≤ k) by lia.
  assert (HP : 0 < 2 ^ k) by (apply Z.pow_pos_nonneg; lia).
  pose proof (digits_bounds N) as [Hlo Hhi].
  assert (H52 : 2 ^ 52 * 2 ^ k ≤ Zpos N).
  { rewrite <- Z.pow_add_r by lia. replace (52 + k) with (digits N - 1) by lia. exact Hlo. }
  assert (Ha : Zpos N - 2 ^ k < rne (Zpos N) k * 2 ^ k ≤ Zpos N + 2 ^ k).
  { destruct (Z.eq_dec k 0) as [Hk0|Hk0].
    - rewrite Hk0, rne_0. simpl. lia.
    - pose proof (rne_bounds (Zpos N) k ltac:(lia) ltac:(lia)).
      pose proof (Z.div_mod (Zpos N) (2 ^ k) ltac:(lia)).
      pose proof (Z.mod_pos_bound (Zpos N) (2 ^ k) HP). nia. }
  destruct (Z.eqb_spec (rne (Zpos N) k) (2 ^ 53)) as [Heq|Hne]; cbn [fst snd].
  - rewrite Heq in Ha. split; [lia|]. rewrite Z.pow_add_r by lia. change (2 ^ 1) with 2. lia.
  - split; [lia|]. lia.
Qed.

(** The quotient of the doubles of two positive integers [A] and [B] below
    [2^53] is a normal double [c * 2^x] with [B * (c * 2^x)] within
    [2 * B * 2^x] of [A]. *)
Lemma SFdiv_fl pA pB :
  digits pA ≤ 53 → digits pB ≤ 53 →
  ∃ c x, SFdiv prec emax (fl (Zpos pA)) (fl (Zpos pB)) = S754_finite false c x ∧
         digits c = 53 ∧ -105 ≤ x ≤ 1 ∧ x ≤ digits pA - digits pB - 51 ∧
         (x ≤ 0 →
          Zpos pA * 2 ^ (- x) - 2 * Zpos pB ≤ Zpos pB * Zpos c
          ≤ Zpos pA * 2 ^ (- x) + 2 * Zpos pB).
Proof.
  intros HdA HdB. pose proof (digits_pos pA) as HA1. pose proof (digits_pos pB) as HB1.
  rewrite !fl_pos by assumption.
  destruct (SFdiv_normal (mant pA) (digits pA - 53) (mant pB) (digits pB - 53))
    as (c & x & -> & Hc & Hx & Hx0 & Hv);
    [apply digits_mant; lia|apply digits_mant; lia|lia|lia|].
  exists c, x. split; [reflexivity|]. split; [exact Hc|]. split; [lia|].
  cbv zeta in Hv. destruct Hv as [Hv1 Hv2].
  set (e0 := digits pA - 53 - (digits pB - 53) - 53) in *.
  assert (Hu : x - e0 ≤ 2 ∨ 3 ≤ x - e0) by lia.
  assert (Hx2 : x ≤ e0 + 2).
  { destruct Hu as [Hu|Hu]; [lia|]. exfalso.
    (* the rounded mantissa cannot be more than two digits above [e0] *)
    pose proof (digits_bounds (mant pA)) as BA. rewrite digits_mant in BA by lia.
    pose proof (digits_bounds (mant pB)) as BB. rewrite digits_mant in BB by lia.
    change (53 - 1) with 52 in BA, BB.
    assert (HQ : Zpos (mant pA) * 2 ^ 53 / Zpos (mant pB) < 2 ^ 54).
    { apply Z.div_lt_upper_bound; [lia|]. nia. }
    assert (8 ≤ 2 ^ (x - e0)).
    { change 8 with (2 ^ 3). apply Z.pow_le_mono_r; lia. }
    pose proof (digits_bounds c) as BC. rewrite Hc in BC. change (53 - 1) with 52 in BC.
    nia. }
  split; [unfold e0 in Hx2; lia|].
  intros Hx0'.
  rewrite !mant_value in Hv1, Hv2 by assumption.
  set (A := Zpos pA) in *. set (B := Zpos pB) in *. set (C := Zpos c) in *.
  assert (HAp : 0 < A) by (unfold A; lia). assert (HBp : 0 < B) by (unfold B; lia).
  set (E1 := 2 ^ (53 - digits pA)) in *. set (E2 := 2 ^ (53 - digits pB)) in *.
  set (U := 2 ^ (x - e0)) in *. set (X := 2 ^ (- x)).
  assert (HE1 : 0 < E1) by (apply Z.pow_pos_nonneg; lia).
  assert (HE2 : 0 < E2) by (apply Z.pow_pos_nonneg; lia).
  assert (HU : 0 < U) by (apply Z.pow_pos_nonneg; lia).
  assert (HX : 0 < X) by (apply Z.pow_pos_nonneg; lia).
  assert (Hid : E1 * 2 ^ 53 = X * E2 * U).
  { unfold E1, E2, U, X. rewrite <- !Z.pow_add_r by lia. f_equal. unfold e0. lia. }
  pose proof (Z.div_mod (A * E1 * 2 ^ 53) (B * E2) ltac:(nia)) as Hdm.
  pose proof (Z.mod_pos_bound (A * E1 * 2 ^ 53) (B * E2) ltac:(nia)) as Hmb.
  set (Q := A * E1 * 2 ^ 53 / (B * E2)) in *.
  set (R := (A * E1 * 2 ^ 53) mod (B * E2)) in *.
  assert (Hnum : A * E1 * 2 ^ 53 = A * X * U * E2).
  { rewrite <- Z.mul_assoc, Hid. ring. }
  rewrite Hnum in Hdm.
  (* both sides are multiples of [E2] *)
  assert (Hlo : E2 * (A * X * U - 2 * B) < E2 * (B * (C * U))).
  { assert (B * E2 * (Q - 1) ≤ B * E2 * (C * U)) by (apply Z.mul_le_mono_nonneg_l; nia).
    nia. }
  assert (Hhi : E2 * (B * (C * U)) ≤ E2 * (A * X * U + 2 * B)).
  { assert (B * E2 * (C * U) ≤ B * E2 * (Q + 2)) by (apply Z.mul_le_mono_nonneg_l; nia).
    nia. }
  apply Z.mul_lt_mono_pos_l in Hlo; [|exact HE2].
  apply Z.mul_le_mono_pos_l in Hhi; [|exact HE2].
  fold X. split.
  - assert (Hc1 : U * (A * X - B * C) < 2 * B) by nia.
    destruct (Z_le_gt_dec (A * X - B * C) (2 * B)) as [|Hgt]; [lia|]. exfalso.
    assert (1 * (A * X - B * C) ≤ U * (A * X - B * C))
      by (apply Z.mul_le_mono_nonneg_r; lia). lia.
  - assert (Hc1 : U * (B * C - A * X) ≤ 2 * B) by nia.
    destruct (Z_le_gt_dec (B * C - A * X) (2 * B)) as [|Hgt]; [lia|]. exfalso.
    assert (1 * (B * C - A * X) ≤ U * (B * C - A * X))
      by (apply Z.mul_le_mono_nonneg_r; lia). lia.
Qed.

(** ** The positions of the resampler *)

(** The positions are one product per index of [range(0, pts_per_fiber)]. *)
Lemma calc_fiber_indices_eq fiberLength n :
  _calc_fiber_indices fiberLength n =
  let+ fl := float_of_int fiberLength in
  let+ fp := float_of_int n in
  let+ stepLength := float_div (float_sub fl float_one) (float_sub fp float_one) in
  mapR (fun idx => let+ i := float_of_int idx in OK (float_mul i stepLength)) (range 0 n).
Proof.
  unfold _calc_fiber_indices.
  destruct (float_of_int fiberLength) as [fl|e]; simpl; [|reflexivity].
  destruct (float_of_int n) as [fp|e]; simpl; [|reflexivity].
  destruct (float_div _ _) as [stepLength|e]; simpl; [|reflexivity].
  rewrite (for_each_append float_of_int (fun i => float_mul i stepLength)).
  destruct (mapR _ _); reflexivity.
Qed.

(** They are as many as [range(0, pts_per_fiber)] has elements. *)
Lemma calc_fiber_indices_length fiberLength n positions :
  _calc_fiber_indices fiberLength n = OK positions →
  length positions = Z.to_nat n.
Proof.
  rewrite calc_fiber_indices_eq. intros H.
  destruct (float_of_int fiberLength) as [fl|e]; simpl in H; [|discriminate].
  destruct (float_of_int n) as [fp|e]; simpl in H; [|discriminate].
  destruct (float_div _ _) as [stepLength|e]; simpl in H; [|discriminate].
  apply mapR_ok in H as [H _]. rewrite H, length_range. f_equal. lia.
Qed.

(** As many points as the fiber has: the positions are the indices. *)
Lemma calc_fiber_indices_same n :
  2 ≤ n < 2 ^ 53 → _calc_fiber_indices n n = OK (map fl (range 0 n)).
Proof.
  intros Hn. rewrite calc_fiber_indices_eq.
  rewrite float_of_int_exact by lia. cbn [bindR].
  rewrite float_sub_one by lia.
  destruct (fl_finite (n - 1) ltac:(lia) ltac:(lia)) as (m & e & Hfl & Hd & He).
  rewrite Hfl. unfold float_div. cbn [float_is_zero]. rewrite SFdiv_self. cbn [bindR].
  apply mapR_pure. intros i Hi. apply elem_of_range in Hi.
  rewrite float_of_int_exact by lia. cbn [bindR].
  rewrite float_mul_fl_one by lia. reflexivity.
Qed.

(** A fiber of one point: every position is zero. *)
Lemma calc_fiber_indices_single t :
  2 ≤ t < 2 ^ 53 →
  _calc_fiber_indices 1 t = OK (map (fun _ => float_zero) (range 0 t)).
Proof.
  intros Ht. rewrite calc_fiber_indices_eq.
  rewrite !float_of_int_exact by lia. cbn [bindR].
  rewrite !float_sub_one by lia. change (fl (1 - 1)) with float_zero.
  destruct (fl_finite (t - 1) ltac:(lia) ltac:(lia)) as (m & e & Hfl & Hd & He).
  rewrite Hfl. rewrite (proj2 (Z.ltb_ge _ _)) by lia.
  unfold float_div. cbn [float_is_zero float_zero SFdiv xorb bindR].
  apply mapR_pure. intros i Hi. apply elem_of_range in Hi.
  rewrite float_of_int_exact by lia. cbn [bindR].
  destruct (Z.eq_dec i 0) as [->|Hi0]; [reflexivity|].
  destruct (fl_finite i Hi0 ltac:(lia)) as (mi & ei & Hfi & _ & _).
  rewrite Hfi. rewrite (proj2 (Z.ltb_ge _ _)) by lia. reflexivity.
Qed.

(** The step is [0.0] or a positive normal double. *)
Lemma step_nonneg s t :
  1 ≤ s < 2 ^ 53 → 2 ≤ t < 2 ^ 53 →
  SFdiv prec emax (fl (s - 1)) (fl (t - 1)) = S754_zero false ∨
  ∃ c x, SFdiv prec emax (fl (s - 1)) (fl (t - 1)) = S754_finite false c x ∧
         digits c = 53 ∧ -105 ≤ x ≤ 1.
Proof.
  intros Hs Ht.
  destruct (fl_finite (t - 1) ltac:(lia) ltac:(lia)) as (m2 & e2 & -> & Hd2 & He2).
  rewrite (proj2 (Z.ltb_ge _ _)) by lia.
  destruct (Z.eq_dec s 1) as [->|Hs1].
  - left. reflexivity.
  - right. destruct (fl_finite (s - 1) ltac:(lia) ltac:(lia)) as (m1 & e1 & -> & Hd1 & He1).
    rewrite (proj2 (Z.ltb_ge _ _)) by lia.
    destruct (SFdiv_normal m1 e1 m2 e2 Hd1 Hd2 He1 He2) as (c & x & -> & Hc & Hx & _).
    exists c, x. split; [reflexivity|]. split; [exact Hc|lia].
Qed.

(** With such a step, the product by [i + 1] is not below the product by
    [i]. *)
Lemma step_mono s t i :
  1 ≤ s < 2 ^ 53 → 2 ≤ t < 2 ^ 53 → 0 ≤ i → i + 1 < 2 ^ 53 →
  let stepLength := SFdiv prec emax (fl (s - 1)) (fl (t - 1)) in
  float_leb (float_mul (fl i) stepLength) (float_mul (fl (i + 1)) stepLength) = true.
Proof.
  intros Hs Ht Hi Hi1 stepLength. unfold stepLength. clear stepLength.
  destruct (step_nonneg s t Hs Ht) as [->|(c & x & -> & Hc & Hx)].
  - assert (Hz : ∀ j, 0 ≤ j < 2 ^ 53 → float_mul (fl j) (S754_zero false) = S754_zero false).
    { intros [|p|p] Hj; [reflexivity| |lia].
      rewrite fl_pos by (apply digits_lt; lia). reflexivity. }
    rewrite !Hz by lia. reflexivity.
  - apply float_mul_mono; lia.
Qed.

(** The last position, [(t - 1) * stepLength], rounds to the index of the
    last point when the fiber has at most [2^49] points. *)
Lemma last_position_rounds s t :
  1 ≤ s ≤ 2 ^ 49 → 2 ≤ t < 2 ^ 53 →
  int_round (float_mul (fl (t - 1)) (SFdiv prec emax (fl (s - 1)) (fl (t - 1))))
  = OK (s - 1).
Proof.
  intros Hs Ht.
  destruct (t - 1) as [|pB|pB] eqn:HB; try lia.
  assert (HdB : digits pB ≤ 53) by (apply digits_lt; lia).
  destruct (s - 1) as [|pA|pA] eqn:HA; try lia.
  - rewrite (fl_pos pB) by exact HdB. reflexivity.
  - assert (HdA : digits pA ≤ 49) by (apply digits_le; lia).
    pose proof (digits_pos pA) as HA1. pose proof (digits_pos pB) as HB1.
    destruct (SFdiv_fl pA pB ltac:(lia) HdB) as (c & x & -> & Hc & Hx & Hx2 & Hv).
    specialize (Hv ltac:(lia)).
    rewrite float_mul_pos by lia.
    pose proof (digits_bounds c) as BC. rewrite Hc in BC. change (53 - 1) with 52 in BC.
    assert (HdN : 53 ≤ digits (pB * c)).
    { apply digits_ge. rewrite Pos2Z.inj_mul. change (53 - 1) with 52. nia. }
    pose proof (round53_bounds (pB * c) HdN) as [Hf Hy].
    pose proof (round53_value (pB * c) HdN) as (Hy0 & Hr1 & Hr2).
    set (f := fst (round53 (pB * c))) in *. set (y := snd (round53 (pB * c))) in *.
    rewrite Pos2Z.inj_mul in Hr1, Hr2.
    set (A := Zpos pA) in *. set (B := Zpos pB) in *. set (C := Zpos c) in *.
    set (X := 2 ^ (- x)) in *. set (Y := 2 ^ y) in *.
    assert (HAp : 0 < A < 2 ^ 49) by (unfold A; lia).
    assert (HBp : 0 < B) by (unfold B; lia).
    assert (HX : 0 < X) by (apply Z.pow_pos_nonneg; lia).
    assert (HY : 0 < Y) by (apply Z.pow_pos_nonneg; lia).
    assert (HBN : 2 ^ 52 * B ≤ B * C) by nia.
    assert (HAX : A * X ≤ (2 ^ 49 - 1) * X) by (apply Z.mul_le_mono_nonneg_r; lia).
    assert (HfY : 2 ^ 52 * Y ≤ f * Y) by (apply Z.mul_le_mono_nonneg_r; lia).
    assert (Hclose : 2 * (f * Y - A * X) < X ∧ 2 * (A * X - f * Y) < X).
    { generalize dependent (B * C). generalize dependent (A * X).
      generalize dependent (f * Y). intros. lia. }
    assert (HK : 52 + y < 49 - x).
    { apply (Z.pow_lt_mono_r_iff 2); [lia|lia|].
      rewrite !Z.pow_add_r by lia. replace (49 - x) with (49 + - x) by lia.
      rewrite Z.pow_add_r by lia. fold X Y.
      generalize dependent (A * X). generalize dependent (f * Y). intros. lia. }
    unfold finish. rewrite (proj2 (Z.leb_le _ _)) by lia.
    unfold int_round.
    destruct (x + y) as [|k|k] eqn:Hxy; [exfalso; clear - Hxy HK Hy0; lia|exfalso; clear - Hxy HK Hy0; lia|].
    f_equal.
    assert (HXY : X = 2 ^ Zpos k * Y).
    { unfold X, Y. rewrite <- Z.pow_add_r by lia. f_equal. lia. }
    assert (HKp : 2 ^ Zpos k = 2 * 2 ^ (Zpos k - 1)).
    { rewrite <- Z.pow_succ_r by lia. f_equal. lia. }
    set (Kp := 2 ^ Zpos k) in *. set (H := 2 ^ (Zpos k - 1)) in *.
    assert (HH : 0 < H) by (apply Z.pow_pos_nonneg; lia).
    rewrite Z2Pos.id by lia.
    destruct Hclose as [Hc1 Hc2]. rewrite HXY in Hc1, Hc2.
    assert (Hd1 : 2 * (f - A * Kp) < Kp).
    { apply (Z.mul_lt_mono_pos_r Y); [exact HY|]. lia. }
    assert (Hd2 : 2 * (A * Kp - f) < Kp).
    { apply (Z.mul_lt_mono_pos_r Y); [exact HY|]. lia. }
    symmetry. apply (Z.div_unique _ _ A (f + H - Kp * A)); lia.
Qed.

(** A fiber resampled to [n] points has [n] samples. *)
Lemma fiber_samples_length {V} (fetch : Z → result V) n ptIds vs :
  fiber_samples fetch n ptIds = OK vs → length vs = Z.to_nat n.
Proof.
  unfold fiber_samples. intros H.
  destruct (_calc_fiber_indices (GetNumberOfIds ptIds) n) as [positions|e] eqn:Hc;
    cbn [bindR] in H; [|discriminate].
  apply mapR_ok in H as [H _]. rewrite H. eapply calc_fiber_indices_length. exact Hc.
Qed.

(** In a table of samples for [n] points, fiber [f] has an entry at [p]
    exactly for [0 <= p < n]. *)
Lemma cell_is_Some {V} (fetch : Z → result V) n cells (vss : list (list V)) f p :
  mapR (fiber_samples fetch n) cells = OK vss →
  0 ≤ f < Z.of_nat (length cells) →
  is_Some (cell vss f p) ↔ 0 ≤ p < n.
Proof.
  intros Hm Hf. apply mapR_ok in Hm as [Hlen Hel].
  destruct (cells !! Z.to_nat f) as [ptIds|] eqn:Hc.
  2: { apply lookup_ge_None_1 in Hc. lia. }
  destruct (Hel _ _ Hc) as (vs & Hvs & Hvss).
  apply fiber_samples_length in Hvs. unfold cell. rewrite Hvss.
  case_bool_decide as Hb.
  - rewrite lookup_lt_is_Some. lia.
  - split; [intros [? ?]; discriminate | lia].
Qed.

(** * The claims *)

(** ** The sample positions (C1) *)

(** C1, the claim as stated fails: with two source points and fifty
    targets the last position is [49 * (1.0 / 49.0)], the double just below
    [1.0], not [sourcePointCount - 1 = 1.0]. *)
Lemma calc_fiber_indices_last_not_exact :
  (let+ positions := _calc_fiber_indices 2 50 in OK (positions !! 49%nat))
  = OK (Some (S754_finite false 9007199254740991 (-53))) ∧
  float_eqb (S754_finite false 9007199254740991 (-53)) (fl (2 - 1)) = false.
Proof. split; vm_compute; reflexivity. Qed.

(** C1, as amended: for [1 <= sourcePointCount < 2^53] and
    [2 <= targetCount < 2^53], [_calc_fiber_indices] returns exactly
    [targetCount] doubles; the [i]-th is the double product of [i] and of
    [stepLength], the double quotient of [sourcePointCount - 1] by
    [targetCount - 1]; they are non-decreasing and the first is [0.0]. The
    last need not be [sourcePointCount - 1], but it rounds to it,
    [int(round(last)) = sourcePointCount - 1], when
    [sourcePointCount <= 2^49]; and when both counts are equal the positions
    are [0.0, 1.0, ..., sourcePointCount - 1] exactly. *)
Theorem calc_fiber_indices_positions s t :
  1 ≤ s < 2 ^ 53 → 2 ≤ t < 2 ^ 53 →
  let stepLength := SFdiv prec emax (fl (s - 1)) (fl (t - 1)) in
  ∃ positions,
    _calc_fiber_indices s t = OK positions ∧
    Z.of_nat (length positions) = t ∧
    (∀ i, 0 ≤ i < t →
       positions !! Z.to_nat i = Some (float_mul (fl i) stepLength)) ∧
    (∀ (i : nat) x y,
       positions !! i = Some x → positions !! S i = Some y → float_leb x y = true) ∧
    positions !! 0%nat = Some float_zero ∧
    (s ≤ 2 ^ 49 →
       ∃ x, positions !! Z.to_nat (t - 1) = Some x ∧ int_round x = OK (s - 1)) ∧
    (s = t → positions = map fl (range 0 t)).
Proof.
  intros Hs Ht stepLength.
  exists (map (fun i => float_mul (fl i) stepLength) (range 0 t)).
  assert (Hrun : _calc_fiber_indices s t
                 = OK (map (fun i => float_mul (fl i) stepLength) (range 0 t))).
  { rewrite calc_fiber_indices_eq.
    rewrite !float_of_int_exact by lia. cbn [bindR].
    rewrite !float_sub_one by lia.
    unfold float_div. rewrite fl_nonzero by lia. cbn [bindR].
    apply mapR_pure. intros i Hi. apply elem_of_range in Hi.
    rewrite float_of_int_exact by lia. reflexivity. }
  assert (Hlook : ∀ i, 0 ≤ i < t →
            map (fun i => float_mul (fl i) stepLength) (range 0 t) !! Z.to_nat i
            = Some (float_mul (fl i) stepLength)).
  { intros i Hi. change (map ?f ?l) with (f <$> l). rewrite list_lookup_fmap. unfold range.
    rewrite lookup_seqZ_lt by lia. cbn [fmap option_fmap option_map].
    rewrite Z2Nat.id, Z.add_0_l by lia. reflexivity. }
  split; [exact Hrun|]. split.
  { rewrite length_map, length_range. lia. }
  split; [exact Hlook|]. split.
  { intros i x y Hx Hy.
    pose proof (lookup_lt_Some _ _ _ Hy) as Hlt. rewrite length_map, length_range in Hlt.
    rewrite <- (Nat2Z.id i) in Hx. rewrite Hlook in Hx by lia.
    replace (S i) with (Z.to_nat (Z.of_nat i + 1)) in Hy by lia.
    rewrite Hlook in Hy by lia.
    injection Hx as <-. injection Hy as <-.
    apply (step_mono s t); lia. }
  split.
  { pose proof (Hlook 0 ltac:(lia)) as H0. change (Z.to_nat 0) with 0%nat in H0.
    rewrite H0. f_equal. unfold stepLength.
    change (fl 0) with (S754_zero false).
    destruct (step_nonneg s t Hs Ht) as [->|(c & x & -> & _)]; reflexivity. }
  split.
  { intros Hs49. eexists. split; [apply Hlook; lia|].
    apply last_position_rounds; lia. }
  intros ->. pose proof (calc_fiber_indices_same t Ht) as Hsame.
  rewrite Hrun in Hsame. injection Hsame as Hsame. exact Hsame.
Qed.

Lemma calc_fiber_indices_positions_witness :
  let stepLength := SFdiv prec emax (fl (7 - 1)) (fl (4 - 1)) in
  ∃ positions,
    _calc_fiber_indices 7 4 = OK positions ∧
    Z.of_nat (length positions) = 4 ∧
    (∀ i, 0 ≤ i < 4 →
       positions !! Z.to_nat i = Some (float_mul (fl i) stepLength)) ∧
    (∀ (i : nat) x y,
       positions !! i = Some x → positions !! S i = Some y → float_leb x y = true) ∧
    positions !! 0%nat = Some float_zero ∧
    (7 ≤ 2 ^ 49 →
       ∃ x, positions !! Z.to_nat (4 - 1) = Some x ∧ int_round x = OK (7 - 1)) ∧
    (7 = 4 → positions = map fl (range 0 4)).
Proof. apply (calc_fiber_indices_positions 7 4); lia. Defined.

(** ** Round trip through export (C2) *)

Section ExportLoop.
Variable P : Z → Z → point.
Variable n : Z.

Lemma export_points_fold f (l : list Z) : ∀ pts0 ids0,
  foldl (fun a p => export_point P f p a) (pts0, ids0) l =
  (pts0 ++ map (P f) l,
   ids0 ++ map (fun i => Z.of_nat (length pts0 + i)) (seq 0 (length l))).
Proof.
  induction l as [|p l IH]; intros pts0 ids0.
  - cbn. rewrite !app_nil_r. reflexivity.
  - cbn [foldl]. unfold export_point at 2. cbn [fst snd]. rewrite IH.
    rewrite <- !app_assoc. cbn [app length seq map]. rewrite length_app. cbn [length].
    f_equal. f_equal. f_equal; [f_equal; lia|].
    rewrite <- seq_shift, map_map. apply map_ext. intros i. f_equal. lia.
Qed.

Lemma export_fiber_eq f outPts outFibers :
  export_fiber P n f (outPts, outFibers) =
  (outPts ++ map (P f) (range 0 n),
   outFibers ++ [map (fun i => Z.of_nat (length outPts + i))
                     (seq 0 (length (range 0 n)))]).
Proof.
  unfold export_fiber. cbn [fst snd]. rewrite export_points_fold. reflexivity.
Qed.

Lemma export_fibers_fold (l : list Z) : ∀ outPts outFibers c,
  mapR (mapR (GetPoint outPts)) outFibers = OK c →
  let out := foldl (fun a f => export_fiber P n f a) (outPts, outFibers) l in
  mapR (mapR (GetPoint (out.1))) (out.2)
  = OK (c ++ map (fun f => map (P f) (range 0 n)) l).
Proof.
  induction l as [|f l IH]; intros outPts outFibers c Hc.
  - cbn. rewrite app_nil_r. exact Hc.
  - cbn [foldl map]. rewrite export_fiber_eq.
    specialize (IH (outPts ++ map (P f) (range 0 n))
                   (outFibers ++
                      [map (fun i => Z.of_nat (length outPts + i))
                           (seq 0 (length (range 0 n)))])
                   (c ++ [map (P f) (range 0 n)])).
    cbn zeta in IH. rewrite <- app_assoc in IH. cbn [app] in IH. apply IH.
    rewrite mapR_app.
    rewrite (mapR_mono (mapR (GetPoint outPts)) _ outFibers c); [| |exact Hc].
    2: { intros ids ys _. apply mapR_mono. intros id y _. apply vtk_at_app. }
    cbn [bindR mapR].
    pose proof (mapR_inserted (map (P f) (range 0 n)) outPts []) as Hn.
    rewrite app_nil_r, length_map in Hn. rewrite Hn. reflexivity.
Qed.

End ExportLoop.

(** The export of a store that holds all its points: the points, rounded
    to binary32, fiber by fiber. *)
Lemma convertToVTK_spec self nf n (P : Z → Z → point) :
  no_of_fibers self = Some nf → pts_per_fiber self = Some n →
  (∀ f p, 0 ≤ f < nf → 0 ≤ p < n → stored_point self f p = Some (P f p)) →
  ∃ out, convertToVTK [] self = (self, OK out) ∧
         fiber_coords out
         = OK (map (fun f => map (fun p => point32 (P f p)) (range 0 n)) (range 0 nf)).
Proof.
  intros Hnf Hn Hpts. unfold convertToVTK.
  erewrite bindM_ok by (unfold self_no_of_fibers; rewrite Hnf; reflexivity).
  erewrite bindM_ok.
  2: { apply (foldM_pure _ _ (fun f acc => export_fiber (fun f p => point32 (P f p)) n f acc)).
       intros f [outPts outFibers] Hf. apply elem_of_range in Hf.
       rewrite bool_decide_eq_false_2 by (apply not_elem_of_nil).
       erewrite bindM_ok by (unfold self_pts_per_fiber; rewrite Hn; reflexivity).
       erewrite bindM_ok.
       2: { apply (foldM_pure _ _
                     (fun p acc => export_point (fun f p => point32 (P f p)) f p acc)).
            intros p [pts0 ids0] Hp. apply elem_of_range in Hp.
            destruct (stored_point_inv _ _ _ _ (Hpts f p Hf Hp)) as (Hx & Hy & Hz).
            erewrite bindM_ok by (apply read_float_at; exact Hx).
            erewrite bindM_ok by (apply read_float_at; exact Hy).
            erewrite bindM_ok by (apply read_float_at; exact Hz).
            unfold bindM, lift, ret, py_float, export_point, point32. cbn [fst snd].
            destruct (P f p) as [[x y] z]. reflexivity. }
       reflexivity. }
  eexists. split; [reflexivity|].
  unfold fiber_coords. cbn [GetPoints GetLines].
  apply (export_fibers_fold (fun f p => point32 (P f p)) n (range 0 nf) [] [] []).
  reflexivity.
Qed.

(** Resampling a fiber to the number of points it has fetches the value of
    each of its points, in order. *)
Lemma fiber_samples_same {V} (fetch : Z → result V) n ptIds :
  2 ≤ n < 2 ^ 53 → GetNumberOfIds ptIds = n →
  fiber_samples fetch n ptIds = mapR fetch ptIds.
Proof.
  intros Hn Hlen. unfold fiber_samples. rewrite Hlen.
  rewrite calc_fiber_indices_same by exact Hn. cbn [bindR].
  rewrite mapR_map.
  rewrite <- (mapR_indices fetch ptIds []). cbn [app length].
  unfold range, GetNumberOfIds in *. rewrite Z.sub_0_r, Hlen.
  apply mapR_ext. intros i Hi. apply elem_of_seqZ in Hi.
  unfold fetch_sample, sample_id. rewrite int_round_fl by lia. reflexivity.
Qed.


(** Nor is every point count accepted: a geometry whose only fiber has one
    point cannot be ingested with one point per fiber, the step length being
    [0.0 / 0.0]. *)
Lemma roundtrip_one_point_fails :
  Forall (fun ptIds => GetNumberOfIds ptIds = 1) (GetLines lone_point) ∧
  snd (convertFromVTK lone_point (Some 1) new_FiberTree) = Raise ZeroDivisionError.
Proof.
  split.
  - repeat constructor.
  - vm_compute. reflexivity.
Qed.




(** ** Rows of [getFibers] (C3) *)

Lemma length_set2 a i j v : length (set2 a i j v) = length a.
Proof.
  unfold set2. destruct (a !! Z.to_nat i); [apply length_insert|reflexivity].
Qed.

(** Whatever is excluded, the matrices [getFibers] returns have one row per
    element of [fidxes]. *)
Lemma getFibers_row_count fidxes rejIdx self self' mx my mz :
  getFibers fidxes rejIdx self = (self', OK (mx, my, mz)) →
  length mx = length fidxes ∧ length my = length fidxes ∧ length mz = length fidxes.
Proof.
  unfold getFibers. intros H.
  apply bindM_inv_ok in H as (s1 & n & _ & H).
  apply bindM_inv_ok in H as (s2 & ax & Hx & H).
  apply bindM_inv_ok in H as (s3 & ay & Hy & H).
  apply bindM_inv_ok in H as (s4 & az & Hz & H).
  apply bindM_inv_ok in H as (s5 & [idx out] & Hloop & H).
  unfold ret in H. injection H as _ ->.
  assert (Hrows : ∀ a st st', lift (np_zeros2 (length fidxes) n) st = (st', OK a) →
                              length a = length fidxes).
  { intros a st st' Ha. unfold lift, np_zeros2 in Ha.
    destruct (np_zeros n); cbn [bindR] in Ha; [|discriminate].
    injection Ha as _ <-. apply length_replicate. }
  pose (P := fun s : Z * matrix3 =>
               length (s.2.1.1) = length fidxes ∧ length (s.2.1.2) = length fidxes ∧
               length (s.2.2) = length fidxes).
  apply (foldM_invariant P) in Hloop; [exact Hloop| |].
  - intros fidx [i arrays] st st' s' Hs Hb.
    destruct (bool_decide (fidx ∈ rejIdx)).
    + unfold ret in Hb. injection Hb as _ <-. exact Hs.
    + apply bindM_inv_ok in Hb as (s6 & arrays' & Hin & Hb).
      unfold ret in Hb. injection Hb as _ <-.
      apply (foldM_invariant (fun a : matrix3 => P (i, a))) in Hin; [exact Hin| |exact Hs].
      intros pidx [[bx by_] bz] t t' b' Hp Hbody.
      apply bindM_inv_ok in Hbody as (t1 & x & _ & Hbody).
      apply bindM_inv_ok in Hbody as (t2 & y & _ & Hbody).
      apply bindM_inv_ok in Hbody as (t3 & z & _ & Hbody).
      unfold ret in Hbody. injection Hbody as _ <-.
      unfold P in *. cbn in *. rewrite !length_set2. exact Hp.
  - unfold P. cbn. repeat split; eapply Hrows; eassumption.
Qed.

(** C3, the code at the input of the claim: [getFibers([0,1,2,3],
    rejIdx=[1,3])] on a store of four fibers returns matrices of four rows,
    not two: fibers 0 and 2 in the first two rows, and two rows of zeros
    that [np.zeros] allocated and the loop never filled. *)
Theorem getFibers_keeps_excluded_rows :
  snd (getFibers [0; 1; 2; 3] [1; 3] (ingested four_fibers 2)) =
  OK ([[fl 0; fl 1]; [fl 4; fl 5]; [float_zero; float_zero]; [float_zero; float_zero]],
      [[fl 0; fl 0]; [fl 0; fl 0]; [float_zero; float_zero]; [float_zero; float_zero]],
      [[fl 0; fl 0]; [fl 0; fl 0]; [float_zero; float_zero]; [float_zero; float_zero]]).
Proof. vm_compute. reflexivity. Qed.

(** ** Failures of the resampler (C4) *)

(** C4, the claim as stated fails: for [targetCount = 0] the resampler
    returns the empty list. *)
Lemma calc_fiber_indices_zero_target : _calc_fiber_indices 5 0 = OK [].
Proof. vm_compute. reflexivity. Qed.

(** C4, as amended: for every [sourcePointCount] that converts to a double,
    [_calc_fiber_indices] raises for [targetCount = 1], a
    [ZeroDivisionError] (so [(5, 1)] fails), and returns the empty list for
    [targetCount <= 0] (above [-2^53]); a [sourcePointCount] too large for a
    double raises [OverflowError] whatever [targetCount] is. *)
Theorem calc_fiber_indices_failures s :
  (is_ok (float_of_int s) = true →
     _calc_fiber_indices s 1 = Raise ZeroDivisionError ∧
     ∀ t, - 2 ^ 53 < t - 1 → t ≤ 0 → _calc_fiber_indices s t = OK []) ∧
  (is_ok (float_of_int s) = false →
     ∀ t, _calc_fiber_indices s t = Raise OverflowError) ∧
  _calc_fiber_indices 5 1 = Raise ZeroDivisionError.
Proof.
  split; [|split].
  - intros Hs. destruct (float_of_int s) as [fs|e] eqn:Hfs; [|discriminate]. split.
    + unfold _calc_fiber_indices. rewrite Hfs. reflexivity.
    + intros t Hlo Hhi. rewrite calc_fiber_indices_eq, Hfs. cbn [bindR].
      rewrite float_of_int_exact by lia. cbn [bindR].
      rewrite float_sub_one by lia.
      unfold float_div. rewrite fl_nonzero by lia. cbn [bindR].
      unfold range. rewrite seqZ_nil by lia. reflexivity.
  - intros Hs t. unfold _calc_fiber_indices, float_of_int in *.
    destruct (binary_normalize prec emax s 0 false); try discriminate. reflexivity.
  - vm_compute. reflexivity.
Qed.

Lemma calc_fiber_indices_failures_witness :
  _calc_fiber_indices 7 1 = Raise ZeroDivisionError ∧
  _calc_fiber_indices 7 (-3) = OK [] ∧
  _calc_fiber_indices (2 ^ 1024) 4 = Raise OverflowError.
Proof.
  split; [|split].
  - apply (proj1 (calc_fiber_indices_failures 7)). reflexivity.
  - apply (proj1 (calc_fiber_indices_failures 7)); [reflexivity|lia|lia].
  - apply (proj1 (proj2 (calc_fiber_indices_failures (2 ^ 1024)))).
    vm_compute. reflexivity.
Defined.

(** ** Fibers of a single point (C5) *)

Lemma fiber_samples_single {V} (fetch : Z → result V) t id v :
  2 ≤ t < 2 ^ 53 → fetch id = OK v →
  fiber_samples fetch t [id] = OK (map (fun _ => v) (range 0 t)).
Proof.
  intros Ht Hv. unfold fiber_samples. change (GetNumberOfIds [id]) with 1.
  rewrite calc_fiber_indices_single by exact Ht. cbn [bindR].
  rewrite (mapR_pure _ (fun _ => v)).
  - rewrite map_map. reflexivity.
  - intros pos Hpos. apply list_elem_of_fmap in Hpos as (i & -> & _).
    unfold fetch_sample, sample_id. cbn [int_round float_zero bindR].
    change (GetId [id] 0) with (OK id : result Z). cbn [bindR]. exact Hv.
Qed.

(** C5, the claim as stated fails: a geometry whose first fiber has one
    point is ingested, and the store holds that point at the three sample
    indices of the fiber. *)
Lemma convertFromVTK_single_point_fiber :
  convertFromVTK short_fiber (Some 3) new_FiberTree = (ingested short_fiber 3, OK tt) ∧
  snd (getFiber 0 (ingested short_fiber 3))
    = OK ([fl 9; fl 9; fl 9], [fl 9; fl 9; fl 9], [fl 9; fl 9; fl 9]).
Proof. vm_compute. split; reflexivity. Qed.

(** C5, as amended: a fiber of one point does not make [convertFromVTK]
    fail.  For [2 <= pts_per_fiber < 2^53], on a geometry in which every
    fiber either has one point that the geometry holds or has samples that
    all resolve to points, ingestion into a new store returns, and the store
    holds the point of a one-point fiber at every sample index of that
    fiber. *)
Theorem convertFromVTK_accepts_single_points g t :
  2 ≤ t < 2 ^ 53 →
  (∀ ptIds, ptIds ∈ GetLines g →
     (∃ id, ptIds = [id] ∧ is_ok (GetPoint (GetPoints g) id) = true) ∨
     is_ok (fiber_samples (GetPoint (GetPoints g)) t ptIds) = true) →
  ∃ self,
    convertFromVTK g (Some t) new_FiberTree = (self, OK tt) ∧
    ∀ (f : nat) id pt p,
      GetLines g !! f = Some [id] → GetPoint (GetPoints g) id = OK pt →
      0 ≤ p < t →
      stored_point self (Z.of_nat f) p = Some pt.
Proof.
  intros Ht Hall.
  pose proof (convertFromVTK_spec g t new_FiberTree depth3_new) as Hs.
  destruct (mapR (fiber_samples (GetPoint (GetPoints g)) t) (GetLines g))
    as [ptss|e] eqn:Hm.
  2: { exfalso. assert (Hok : is_ok (mapR (fiber_samples (GetPoint (GetPoints g)) t)
                                       (GetLines g)) = true).
       { apply mapR_each. intros ptIds Hin.
         destruct (Hall ptIds Hin) as [(id & -> & Hid)|Hok]; [|exact Hok].
         destruct (GetPoint (GetPoints g) id) as [pt|] eqn:Hpt; [|discriminate].
         rewrite (fiber_samples_single _ t id pt Ht Hpt). reflexivity. }
       rewrite Hm in Hok. discriminate. }
  destruct Hs as (self & Hrun & _ & _ & _ & Hfl).
  exists self. split; [exact Hrun|].
  intros f id pt p Hline Hpt Hp.
  apply mapR_ok in Hm as [_ Hel]. destruct (Hel f [id] Hline) as (vs & Hvs & Hvss).
  rewrite (fiber_samples_single _ t id pt Ht Hpt) in Hvs. injection Hvs as <-.
  assert (Hcell : cell ptss (Z.of_nat f) p = Some pt).
  { replace p with (Z.of_nat (Z.to_nat p)) by lia.
    rewrite (cell_lookup ptss f (Z.to_nat p) _ Hvss).
    unfold range. rewrite list_lookup_fmap, lookup_seqZ_lt by lia. reflexivity. }
  unfold stored_point. rewrite !Hfl, Hcell.
  rewrite !bool_decide_eq_true_2 by (rewrite !elem_of_cons; auto).
  destruct pt as [[x y] z]. reflexivity.
Qed.

Lemma convertFromVTK_accepts_single_points_witness :
  ∃ self,
    convertFromVTK short_fiber (Some 3) new_FiberTree = (self, OK tt) ∧
    stored_point self 0 2 = Some (pt3 9 9 9).
Proof.
  destruct (convertFromVTK_accepts_single_points short_fiber 3) as (self & Hrun & Hpts).
  - lia.
  - intros ptIds Hin. cbn [GetLines short_fiber] in Hin.
    rewrite !elem_of_cons, elem_of_nil in Hin.
    destruct Hin as [->|[->|[]]].
    + left. exists 0. split; reflexivity.
    + right. vm_compute. reflexivity.
  - exists self. split; [exact Hrun|].
    apply (Hpts 0%nat 0 (pt3 9 9 9) 2); [reflexivity|reflexivity|lia].
Defined.

(** ** Reading what is not there (C6) *)

(** A store ingested into a new [FiberTree] holds numbers under the fibers of
    the geometry only. *)
Lemma ingested_no_fiber g n self idx p a :
  convertFromVTK g (Some n) new_FiberTree = (self, OK tt) →
  ¬ (0 ≤ idx < GetNumberOfLines g) →
  float_at (at_point idx p a) self = None.
Proof.
  intros Hc Hout. pose proof (convertFromVTK_spec g n new_FiberTree depth3_new) as Hs.
  destruct (mapR (fiber_samples (GetPoint (GetPoints g)) n) (GetLines g)) as [ptss|e] eqn:Hm.
  - destruct Hs as (s' & Hrun & _ & _ & _ & Hfl). rewrite Hc in Hrun.
    injection Hrun as <-. rewrite Hfl.
    apply mapR_ok in Hm as [Hlen _].
    assert (Hcell : cell ptss idx p = None).
    { unfold cell. case_bool_decide as Hb; [|reflexivity].
      rewrite (lookup_ge_None_2 ptss (Z.to_nat idx)); [reflexivity|].
      unfold GetNumberOfLines in Hout. lia. }
    rewrite Hcell. destruct (bool_decide _); unfold float_at; simpl;
      apply obj_float_at_empty.
  - destruct Hs as (s' & Hrun). rewrite Hc in Hrun. discriminate.
Qed.

Lemma ingested_pts_per_fiber g n self :
  convertFromVTK g (Some n) new_FiberTree = (self, OK tt) →
  pts_per_fiber self = Some n ∧ no_of_fibers self = Some (GetNumberOfLines g) ∧
  depth3 self.
Proof.
  intros Hc. pose proof (convertFromVTK_spec g n new_FiberTree depth3_new) as Hs.
  destruct (mapR (fiber_samples (GetPoint (GetPoints g)) n) (GetLines g)) as [ptss|e].
  - destruct Hs as (s' & Hrun & Hd & Hn & Hp & _). rewrite Hc in Hrun.
    injection Hrun as <-. auto.
  - destruct Hs as (s' & Hrun). rewrite Hc in Hrun. discriminate.
Qed.

(** C6, the claim as stated fails: a store ingested with zero points per
    fiber answers [getFiber(7)], an index it has no fiber for, with three
    empty arrays, and [getScalar] of a name never attached with an empty
    array. *)
Lemma getFiber_no_points_returns :
  convertFromVTK two_fibers (Some 0) new_FiberTree = (ingested two_fibers 0, OK tt) ∧
  snd (getFiber 7 (ingested two_fibers 0)) = OK ([], [], []) ∧
  snd (getScalar 0 "FA" (ingested two_fibers 0)) = OK [].
Proof. vm_compute. repeat split; reflexivity. Qed.

(** C6, as amended: [getFiber] raises (a [TypeError], from [float()] on the
    empty subtree created for the missing key) on an object that was never
    ingested, and on a store ingested with at least one point per fiber when
    the index is outside [0, fiberCount); [getScalar] raises the same error
    on any store of at least one point per fiber when the name is not attached
    to one of the points of the fiber.  Neither returns a default value
    there. *)
Theorem missing_data_raises :
  (∀ idx, snd (getFiber idx new_FiberTree) = Raise TypeError) ∧
  (∀ g n self idx,
     convertFromVTK g (Some n) new_FiberTree = (self, OK tt) → 1 ≤ n →
     ¬ (0 ≤ idx < GetNumberOfLines g) →
     snd (getFiber idx self) = Raise TypeError) ∧
  (∀ self n fidx p name,
     pts_per_fiber self = Some n → 0 ≤ p < n →
     float_at (at_point fidx p name) self = None →
     snd (getScalar fidx name self) = Raise TypeError).
Proof.
  split; [|split].
  - intros idx. reflexivity.
  - intros g n self idx Hc Hn Hout.
    destruct (ingested_pts_per_fiber _ _ _ Hc) as (Hp & _ & _).
    apply (getFiber_missing idx n 0 "x" self Hp); [lia| |].
    + rewrite elem_of_cons. left. reflexivity.
    + eapply ingested_no_fiber; eassumption.
  - intros self n fidx p name. apply getScalar_missing.
Qed.

Lemma missing_data_raises_witness :
  snd (getFiber 2 (ingested two_fibers 3)) = Raise TypeError ∧
  snd (getScalar 0 "FA" (ingested two_fibers 3)) = Raise TypeError.
Proof.
  destruct missing_data_raises as (_ & H2 & H3). split.
  - apply (H2 two_fibers 3 (ingested two_fibers 3) 2).
    + vm_compute. reflexivity.
    + lia.
    + vm_compute. intros [_ H]. discriminate H.
  - apply (H3 (ingested two_fibers 3) 3 0 1 "FA"%string).
    + vm_compute. reflexivity.
    + lia.
    + vm_compute. reflexivity.
Defined.

(** ** Extraction and the state of the store (C7) *)






(** ** Scalars after [addScalar] (C8) *)



(** ** Arc length (C9) *)

(** One turn of the inner loop of [calcFiberLength] on stored points. *)
Lemma calcFiberLength_step self fidx idx L p q :
  stored_point self fidx (idx - 1) = Some p →
  stored_point self fidx idx = Some q →
  (do x1 <- read (at_point fidx idx "x");
   do x2 <- read (at_point fidx (idx - 1) "x");
   do y1 <- read (at_point fidx idx "y");
   do y2 <- read (at_point fidx (idx - 1) "y");
   do z1 <- read (at_point fidx idx "z");
   do z2 <- read (at_point fidx (idx - 1) "z");
   do d <- lift (segment_length x1 x2 y1 y2 z1 z2);
   ret (float_add L d)) self
  = (self, let+ d := dist p q in OK (float_add L d)).
Proof.
  intros Hp Hq.
  apply stored_point_inv in Hp as (Hpx & Hpy & Hpz).
  apply stored_point_inv in Hq as (Hqx & Hqy & Hqz).
  erewrite bindM_ok by (apply read_float_at; exact Hqx).
  erewrite bindM_ok by (apply read_float_at; exact Hpx).
  erewrite bindM_ok by (apply read_float_at; exact Hqy).
  erewrite bindM_ok by (apply read_float_at; exact Hpy).
  erewrite bindM_ok by (apply read_float_at; exact Hqz).
  erewrite bindM_ok by (apply read_float_at; exact Hpz).
  unfold bindM, lift, ret, segment_length, dist, py_sub. cbn [bindR].
  destruct (float_pow2 (float_sub (p.1.1) (q.1.1))) as [dx2|e]; cbn [bindR]; [|reflexivity].
  destruct (float_pow2 (float_sub (p.1.2) (q.1.2))) as [dy2|e]; cbn [bindR]; [|reflexivity].
  destruct (float_pow2 (float_sub (p.2) (q.2))) as [dz2|e]; cbn [bindR]; reflexivity.
Qed.

Lemma calcFiberLength_spec self n fidxes (P : Z → Z → point) :
  pts_per_fiber self = Some n → 2 ≤ n →
  (∀ f i, f ∈ fidxes → 0 ≤ i < n → stored_point self f i = Some (P f i)) →
  calcFiberLength fidxes self = (self, mapR (fun f => arc_length (P f) n) fidxes).
Proof.
  intros Hn Hge Hpts. unfold calcFiberLength. rewrite Hn.
  rewrite (proj2 (Z.ltb_ge n 2)) by lia.
  rewrite (foldM_lifted _ _
             (fun f LArray => let+ L := arc_length (P f) n in OK (LArray ++ [L]))).
  - rewrite (for_each_append (fun f => arc_length (P f) n) id). cbn [app].
    rewrite (mapR_ext _ (fun f => arc_length (P f) n)).
    + destruct (mapR _ fidxes); reflexivity.
    + intros f _. destruct (arc_length (P f) n); reflexivity.
  - intros f LArray Hf. unfold bindM.
    rewrite (foldM_lifted _ _
               (fun i acc => let+ d := dist (P f (i - 1)) (P f i) in OK (float_add acc d))).
    + fold (arc_length (P f) n). destruct (arc_length (P f) n); reflexivity.
    + intros i L Hi. apply elem_of_range in Hi.
      apply calcFiberLength_step; apply Hpts; (exact Hf || lia).
Qed.

(** A store ingested into a new [FiberTree] holds a point for every fiber
    of the geometry and every sample index. *)
Lemma ingested_stored_points g n self f i :
  convertFromVTK g (Some n) new_FiberTree = (self, OK tt) →
  0 ≤ f < GetNumberOfLines g → 0 ≤ i < n →
  is_Some (stored_point self f i).
Proof.
  intros Hc Hf Hi. pose proof (convertFromVTK_spec g n new_FiberTree depth3_new) as Hs.
  destruct (mapR (fiber_samples (GetPoint (GetPoints g)) n) (GetLines g)) as [ptss|e] eqn:Hm.
  2: { destruct Hs as (s' & Hrun). rewrite Hc in Hrun. discriminate. }
  destruct Hs as (s' & Hrun & _ & _ & _ & Hfl). rewrite Hc in Hrun. injection Hrun as <-.
  pose proof (proj2 (cell_is_Some _ _ _ _ f i Hm Hf) Hi) as [pt Hpt].
  unfold stored_point. rewrite !Hfl, Hpt.
  rewrite !bool_decide_eq_true_2
    by (rewrite !elem_of_cons; auto).
  eexists; reflexivity.
Qed.




(** ** The point count of [addScalar] (C10) *)

Lemma PtsBlind_ret {A} (a : A) : PtsBlind (ret a).
Proof. intros self m. reflexivity. Qed.

Lemma PtsBlind_lift {A} (r : result A) : PtsBlind (lift r).
Proof. intros self m. reflexivity. Qed.

Lemma PtsBlind_bind {A B} (c : M A) (k : A → M B) :
  PtsBlind c → (∀ a, PtsBlind (k a)) → PtsBlind (bindM c k).
Proof.
  intros Hc Hk self m. unfold bindM. rewrite Hc.
  destruct (c self) as [mid [a|e]]; simpl; [apply Hk|reflexivity].
Qed.

Lemma PtsBlind_foldM {A S} (l : list A) (body : A → S → M S) :
  (∀ x s, PtsBlind (body x s)) → ∀ s, PtsBlind (foldM l body s).
Proof.
  intros Hb. induction l as [|x l IH]; intros s; simpl.
  - apply PtsBlind_ret.
  - apply PtsBlind_bind; [apply Hb|exact IH].
Qed.

Lemma PtsBlind_write path v : PtsBlind (write path v).
Proof.
  intros self m. unfold write, with_pts. simpl.
  destruct (tree_write path v (fiberTree self)); reflexivity.
Qed.

Lemma PtsBlind_self_no_of_fibers : PtsBlind self_no_of_fibers.
Proof.
  intros self m. unfold self_no_of_fibers, with_pts. simpl.
  destruct (no_of_fibers self) eqn:H; simpl; rewrite ?H; reflexivity.
Qed.

Lemma PtsBlind_addScalar g data name pts : PtsBlind (addScalar g data name pts).
Proof.
  unfold addScalar.
  apply PtsBlind_bind; [apply PtsBlind_self_no_of_fibers|]. intros nf.
  apply PtsBlind_bind; [|intros ?; apply PtsBlind_ret].
  apply PtsBlind_foldM. intros fidx [ptIds0 cells0].
  destruct (GetNextCell cells0 ptIds0) as [ptIds cells].
  apply PtsBlind_bind; [apply PtsBlind_lift|]. intros positions.
  apply PtsBlind_bind; [|intros ?; apply PtsBlind_ret].
  apply PtsBlind_foldM. intros lineIdx pidx.
  apply PtsBlind_bind; [apply PtsBlind_lift|]. intros ptidx.
  apply PtsBlind_bind; [apply PtsBlind_lift|]. intros v.
  apply PtsBlind_bind; [apply PtsBlind_write|]. intros ?. apply PtsBlind_ret.
Qed.

(** C10: [addScalar] samples with its own [pts_per_fiber] argument, 20 when
    it is not given, and never looks at the store's [pts_per_fiber]: after
    [convertFromVTK] with [N] points and [addScalar] with [n] points, the
    coordinates are under the sample indices [0 <= p < N] and the scalar
    under [0 <= p < n] of every fiber, the store still counts [N] points
    per fiber, and the call returns the same way whatever the store's
    count is. *)
Theorem addScalar_own_point_count g N data name pts self self' :
  convertFromVTK g (Some N) new_FiberTree = (self, OK tt) →
  addScalar g data name pts self = (self', OK tt) →
  name ∉ ["x"; "y"; "z"]%string →
  addScalar g data name None = addScalar g data name (Some 20) ∧
  pts_per_fiber self' = Some N ∧
  (∀ m, addScalar g data name pts (with_pts m self) = (with_pts m self', OK tt)) ∧
  (∀ f p, 0 ≤ f < GetNumberOfLines g →
     (is_Some (float_at (at_point f p name) self') ↔ 0 ≤ p < default 20 pts) ∧
     (is_Some (float_at (at_point f p "x") self') ↔ 0 ≤ p < N)).
Proof.
  intros Hing Hadd Hname.
  pose proof (convertFromVTK_spec g N new_FiberTree depth3_new) as Hi.
  destruct (mapR (fiber_samples (GetPoint (GetPoints g)) N) (GetLines g)) as [ptss|e] eqn:Hmi.
  2: { destruct Hi as (s' & Hrun). rewrite Hing in Hrun. discriminate. }
  destruct Hi as (s0 & Hrun0 & Hd & Hnf & Hpts & Hfl0).
  rewrite Hing in Hrun0. injection Hrun0 as <-.
  pose proof (addScalar_spec g data name pts self Hd Hnf) as Hs.
  destruct (mapR (fiber_samples (py_getitem data) (default 20 pts)) (GetLines g))
    as [vss|e] eqn:Hms.
  2: { destruct Hs as (s' & Hrun). rewrite Hadd in Hrun. discriminate. }
  destruct Hs as (s1 & Hrun1 & Hd' & Hn' & Hp' & Hfl1).
  rewrite Hadd in Hrun1. injection Hrun1 as <-.
  split; [reflexivity|]. split; [congruence|]. split.
  - intros m. rewrite (PtsBlind_addScalar g data name pts self m), Hadd. reflexivity.
  - intros f p Hf. split.
    + rewrite Hfl1, bool_decide_eq_true_2 by (apply list_elem_of_singleton; reflexivity).
      rewrite Hfl0, bool_decide_eq_false_2 by exact Hname.
      unfold float_at at 1. cbn [fiberTree new_FiberTree]. rewrite obj_float_at_empty.
      rewrite <- (cell_is_Some _ _ _ _ f p Hms Hf).
      destruct (cell vss f p); split; intros [? ?]; try discriminate; eauto.
    + rewrite Hfl1, bool_decide_eq_false_2.
      2: { rewrite list_elem_of_singleton. intros Heq. apply Hname. rewrite <- Heq.
           rewrite elem_of_cons. left. reflexivity. }
      rewrite Hfl0, bool_decide_eq_true_2 by (rewrite elem_of_cons; left; reflexivity).
      unfold float_at at 1. cbn [fiberTree new_FiberTree]. rewrite obj_float_at_empty.
      rewrite <- (cell_is_Some _ _ _ _ f p Hmi Hf).
      destruct (cell ptss f p); split; intros [? ?]; try discriminate; eauto.
Qed.

Lemma addScalar_own_point_count_witness :
  let data := [fl 10; fl 11; fl 12; fl 13; fl 14] in
  let self := ingested two_fibers 3 in
  let self' := fst (addScalar two_fibers data "FA" (Some 2) self) in
  pts_per_fiber self' = Some 3 ∧
  addScalar two_fibers data "FA" (Some 2) (with_pts (Some 2) self)
    = (with_pts (Some 2) self', OK tt) ∧
  (is_Some (float_at (at_point 1 2 "FA") self') ↔ 0 ≤ 2 < 2) ∧
  (is_Some (float_at (at_point 1 2 "x") self') ↔ 0 ≤ 2 < 3).
Proof.
  intros data self self'.
  assert (Hing : convertFromVTK two_fibers (Some 3) new_FiberTree = (self, OK tt))
    by (vm_compute; reflexivity).
  assert (Hadd : addScalar two_fibers data "FA" (Some 2) self = (self', OK tt))
    by (vm_compute; reflexivity).
  assert (Hname : "FA"%string ∉ ["x"; "y"; "z"]%string).
  { rewrite !elem_of_cons, elem_of_nil. intros [H|[H|[H|[]]]]; discriminate H. }
  destruct (addScalar_own_point_count two_fibers 3 data "FA" (Some 2) self self'
              Hing Hadd Hname) as (_ & H1 & H2 & H3).
  split; [exact H1|]. split; [apply H2|].
  pose proof (H3 1 2) as H4. change (default 20 (Some 2)) with 2 in H4.
  apply H4. unfold GetNumberOfLines. simpl. lia.
Defined.

(** * Further properties of the module *)

(** ** Sample indices stay inside the fiber *)

Lemma int_round_finish c x :
  0 < c → x ≤ 971 → int_round (finish false c x) = OK (nearest_int c x).
Proof.
  intros Hc Hx. unfold finish. rewrite (proj2 (Z.leb_le _ _)) by lia.
  unfold int_round, nearest_int. rewrite Z2Pos.id by lia. reflexivity.
Qed.

(** Rounding to an integer keeps the order of two normal doubles. *)
Lemma nearest_int_mono c x c' x' :
  2 ^ 52 ≤ c < 2 ^ 53 → 2 ^ 52 ≤ c' < 2 ^ 53 →
  x < x' ∨ (x = x' ∧ c ≤ c') →
  0 ≤ nearest_int c x ≤ nearest_int c' x'.
Proof.
  intros Hc Hc' Hord.
  assert (Hnn : ∀ d y, 0 ≤ d → 0 ≤ nearest_int d y).
  { intros d [|p|p] Hd; unfold nearest_int.
    - lia.
    - assert (0 < 2 ^ Zpos p) by (apply Z.pow_pos_nonneg; lia). nia.
    - assert (0 < 2 ^ Zpos p) by (apply Z.pow_pos_nonneg; lia).
      assert (0 < 2 ^ (Zpos p - 1)) by (apply Z.pow_pos_nonneg; lia).
      apply Z.div_pos; lia. }
  split; [apply Hnn; lia|].
  destruct Hord as [Hlt|[<- Hle]].
  2: { destruct x as [|p|p]; unfold nearest_int.
       - lia.
       - assert (0 < 2 ^ Zpos p) by (apply Z.pow_pos_nonneg; lia). nia.
       - assert (0 < 2 ^ Zpos p) by (apply Z.pow_pos_nonneg; lia).
         apply Z.div_le_mono; lia. }
  assert (Hbelow : ∀ k, (c + 2 ^ (Zpos k - 1)) / 2 ^ Zpos k ≤ 2 ^ 52).
  { intros k. assert (HH : 0 < 2 ^ (Zpos k - 1)) by (apply Z.pow_pos_nonneg; lia).
    assert (HK : 2 ^ Zpos k = 2 * 2 ^ (Zpos k - 1)).
    { rewrite <- Z.pow_succ_r by lia. f_equal. lia. }
    rewrite HK. apply Z.div_le_upper_bound; [lia|]. nia. }
  destruct x as [|p|p]; destruct x' as [|p'|p']; unfold nearest_int; try lia.
  - (* 0 < x' *)
    assert (2 ^ 1 ≤ 2 ^ Zpos p') by (apply Z.pow_le_mono_r; lia).
    change (2 ^ 1) with 2 in *. nia.
  - (* 0 < x < x' *)
    assert (Hp : 2 ^ Zpos p' = 2 ^ (Zpos p' - Zpos p) * 2 ^ Zpos p).
    { rewrite <- Z.pow_add_r by lia. f_equal. lia. }
    assert (2 ^ 1 ≤ 2 ^ (Zpos p' - Zpos p)) by (apply Z.pow_le_mono_r; lia).
    change (2 ^ 1) with 2 in *.
    assert (0 < 2 ^ Zpos p) by (apply Z.pow_pos_nonneg; lia).
    rewrite Hp. nia.
  - (* x < 0 = x' *)
    specialize (Hbelow p). lia.
  - (* x < 0 < x' *)
    specialize (Hbelow p).
    assert (0 < 2 ^ Zpos p') by (apply Z.pow_pos_nonneg; lia). nia.
  - (* x < x' < 0 *)
    assert (Hd : 0 < Zpos p - Zpos p') by lia.
    set (d := Zpos p - Zpos p') in *.
    assert (Hpd : 0 < 2 ^ d) by (apply Z.pow_pos_nonneg; lia).
    assert (Hp' : 0 < 2 ^ Zpos p') by (apply Z.pow_pos_nonneg; lia).
    assert (HK : 2 ^ Zpos p = 2 ^ d * 2 ^ Zpos p').
    { rewrite <- Z.pow_add_r by lia. f_equal. lia. }
    assert (HH : 2 ^ (Zpos p - 1) = 2 ^ (Zpos p' - 1) * 2 ^ d).
    { rewrite <- Z.pow_add_r by lia. f_equal. lia. }
    rewrite HK, HH. rewrite <- Z.div_div by lia.
    rewrite Z.div_add by lia.
    apply Z.div_le_mono; [lia|].
    assert (2 ^ 1 ≤ 2 ^ d) by (apply Z.pow_le_mono_r; lia). change (2 ^ 1) with 2 in *.
    assert (c / 2 ^ d ≤ c / 2).
    { apply Z.div_le_compat_l; lia. }
    assert (c / 2 < 2 ^ 52) by (apply Z.div_lt_upper_bound; lia).
    lia.
Qed.

(** What [_calc_fiber_indices] returns for counts below [2^53]. *)
Lemma calc_fiber_indices_value s t :
  1 ≤ s < 2 ^ 53 → 2 ≤ t < 2 ^ 53 →
  _calc_fiber_indices s t
  = OK (map (fun i => float_mul (fl i) (SFdiv prec emax (fl (s - 1)) (fl (t - 1))))
            (range 0 t)).
Proof.
  intros Hs Ht. rewrite calc_fiber_indices_eq.
  rewrite !float_of_int_exact by lia. cbn [bindR].
  rewrite !float_sub_one by lia.
  unfold float_div. rewrite fl_nonzero by lia. cbn [bindR].
  apply mapR_pure. intros i Hi. apply elem_of_range in Hi.
  rewrite float_of_int_exact by lia. reflexivity.
Qed.

(** The rounded positions never go backwards. *)
Lemma position_rounds_mono s t i j :
  1 ≤ s < 2 ^ 53 → 2 ≤ t < 2 ^ 53 → 0 ≤ i ≤ j → j < 2 ^ 53 →
  let stepLength := SFdiv prec emax (fl (s - 1)) (fl (t - 1)) in
  ∃ ki kj, int_round (float_mul (fl i) stepLength) = OK ki ∧
           int_round (float_mul (fl j) stepLength) = OK kj ∧
           0 ≤ ki ≤ kj.
Proof.
  intros Hs Ht Hi Hj stepLength. unfold stepLength. clear stepLength.
  destruct (step_nonneg s t Hs Ht) as [Hz|(c & x & Hstep & Hc & Hx)].
  - rewrite Hz.
    assert (H0 : ∀ q, 0 ≤ q < 2 ^ 53 → int_round (float_mul (fl q) (S754_zero false)) = OK 0).
    { intros [|p|p] Hq; [reflexivity| |lia].
      rewrite fl_pos by (apply digits_lt; lia). reflexivity. }
    exists 0, 0. rewrite !H0 by lia. split; [reflexivity|]. split; [reflexivity|lia].
  - rewrite Hstep.
    assert (Hfin : ∀ q, Zpos q < 2 ^ 53 → 53 ≤ digits (q * c) ≤ 106).
    { intros q Hq. pose proof (digits_bounds c) as [Hlo Hhi]. rewrite Hc in Hlo, Hhi.
      split.
      - apply digits_ge. rewrite Pos2Z.inj_mul. simpl in *. nia.
      - apply digits_le; [lia|]. rewrite Pos2Z.inj_mul.
        change (2 ^ 106) with (2 ^ 53 * 2 ^ 53). apply Z.mul_lt_mono_nonneg; lia. }
    assert (Hpos : ∀ q, Zpos q < 2 ^ 53 →
              int_round (float_mul (fl (Zpos q)) (S754_finite false c x))
              = OK (nearest_int (fst (round53 (q * c))) (x + snd (round53 (q * c)))) ∧
              2 ^ 52 ≤ fst (round53 (q * c)) < 2 ^ 53).
    { intros q Hq. pose proof (Hfin q Hq) as Hd.
      pose proof (round53_bounds (q * c) ltac:(lia)) as [Hf Hsn].
      rewrite float_mul_pos by (try apply digits_lt; lia).
      rewrite int_round_finish by lia. split; [reflexivity|exact Hf]. }
    destruct j as [|pj|pj]; [| |lia].
    + assert (i = 0) as -> by lia. exists 0, 0. repeat split; lia.
    + destruct (Hpos pj Hj) as [Hrj Hfj]. destruct i as [|pi|pi]; [| |lia].
      * eexists 0, _. split; [reflexivity|]. split; [exact Hrj|].
        pose proof (nearest_int_mono _ (x + snd (round53 (pj * c))) _
                      (x + snd (round53 (pj * c))) Hfj Hfj
                      (or_intror (conj eq_refl (Z.le_refl _)))). lia.
      * destruct (Hpos pi ltac:(lia)) as [Hri Hfi].
        eexists _, _. split; [exact Hri|]. split; [exact Hrj|].
        assert (Hord : (pi * c ≤ pj * c)%positive) by (apply Pos.mul_le_mono_r; lia).
        pose proof (Hfin pi ltac:(lia)) as Hdi.
        destruct (round53_mono (pi * c) (pj * c) ltac:(lia) Hord) as [Hlt|[Heq Hle]].
        -- apply nearest_int_mono; [lia|lia|left; lia].
        -- apply nearest_int_mono; [lia|lia|right; split; [lia|exact Hle]].
Qed.

(** Every position rounds to an index between 0 and the index of the last
    point. *)
Lemma position_rounds_inside s t i :
  1 ≤ s ≤ 2 ^ 49 → 2 ≤ t < 2 ^ 53 → 0 ≤ i < t →
  ∃ k, int_round (float_mul (fl i) (SFdiv prec emax (fl (s - 1)) (fl (t - 1)))) = OK k ∧
       0 ≤ k ≤ s - 1.
Proof.
  intros Hs Ht Hi.
  pose proof (last_position_rounds s t Hs Ht) as Hlast.
  destruct (position_rounds_mono s t i (t - 1) ltac:(lia) Ht ltac:(lia) ltac:(lia))
    as (ki & kj & Hki & Hkj & Hle).
  rewrite Hlast in Hkj. injection Hkj as <-. exists ki. split; [exact Hki|exact Hle].
Qed.

(** X1.  For a fiber of [1 <= s <= 2^49] points resampled to
    [2 <= t < 2^53] points, the source indices [int(round(lineIdx))] that
    [convertFromVTK] and [addScalar] pass to [GetId] start at 0, end at
    [s - 1], never go backwards and so stay inside the fiber. *)
Theorem sample_indices_inside s t :
  1 ≤ s ≤ 2 ^ 49 → 2 ≤ t < 2 ^ 53 →
  ∃ positions,
    _calc_fiber_indices s t = OK positions ∧
    (∀ (p : nat) pos, positions !! p = Some pos →
       ∃ k, int_round pos = OK k ∧ 0 ≤ k ≤ s - 1) ∧
    (∀ (p : nat) pos pos', positions !! p = Some pos → positions !! S p = Some pos' →
       ∃ k k', int_round pos = OK k ∧ int_round pos' = OK k' ∧ k ≤ k') ∧
    (∃ pos, positions !! 0%nat = Some pos ∧ int_round pos = OK 0) ∧
    (∃ pos, positions !! Z.to_nat (t - 1) = Some pos ∧ int_round pos = OK (s - 1)).
Proof.
  intros Hs Ht. eexists. split; [apply calc_fiber_indices_value; lia|].
  set (step := SFdiv prec emax (fl (s - 1)) (fl (t - 1))).
  assert (Hlook : ∀ (p : nat) pos,
            map (fun i => float_mul (fl i) step) (range 0 t) !! p = Some pos →
            Z.of_nat p < t ∧ pos = float_mul (fl (Z.of_nat p)) step).
  { intros p pos Hp. change (map ?f ?l) with (f <$> l) in Hp.
    rewrite list_lookup_fmap in Hp. unfold range in Hp.
    destruct (seqZ 0 (t - 0) !! p) as [i|] eqn:Hi; [|discriminate].
    apply lookup_seqZ in Hi as [-> Hlt]. injection Hp as <-.
    split; [lia|]. rewrite Z.add_0_l. reflexivity. }
  assert (Hat : ∀ i, 0 ≤ i < t →
            map (fun i => float_mul (fl i) step) (range 0 t) !! Z.to_nat i
            = Some (float_mul (fl i) step)).
  { intros i Hi. change (map ?f ?l) with (f <$> l). rewrite list_lookup_fmap. unfold range.
    rewrite lookup_seqZ_lt by lia. cbn [fmap option_fmap option_map].
    rewrite Z2Nat.id, Z.add_0_l by lia. reflexivity. }
  split; [|split; [|split]].
  - intros p pos Hp. apply Hlook in Hp as [Hlt ->].
    apply position_rounds_inside; lia.
  - intros p pos pos' Hp Hp'. apply Hlook in Hp as [Hlt ->]. apply Hlook in Hp' as [Hlt' ->].
    destruct (position_rounds_mono s t (Z.of_nat p) (Z.of_nat (S p)))
      as (k & k' & Hk & Hk' & Hle); try lia.
    exists k, k'. split; [exact Hk|]. split; [exact Hk'|lia].
  - eexists. split; [apply (Hat 0); lia|].
    destruct (position_rounds_mono s t 0 0) as (k & k' & Hk & _ & _); try lia.
    fold step in Hk. change (fl 0) with (S754_zero false) in *.
    destruct (step_nonneg s t ltac:(lia) Ht) as [Hz|(c & x & Hstep & _)];
      fold step in Hz || fold step in Hstep; rewrite ?Hz, ?Hstep; reflexivity.
  - eexists. split; [apply Hat; lia|]. apply last_position_rounds; lia.
Qed.

Lemma sample_indices_inside_witness :
  ∃ positions,
    _calc_fiber_indices 7 4 = OK positions ∧
    (∀ (p : nat) pos, positions !! p = Some pos →
       ∃ k, int_round pos = OK k ∧ 0 ≤ k ≤ 7 - 1) ∧
    (∀ (p : nat) pos pos', positions !! p = Some pos → positions !! S p = Some pos' →
       ∃ k k', int_round pos = OK k ∧ int_round pos' = OK k' ∧ k ≤ k') ∧
    (∃ pos, positions !! 0%nat = Some pos ∧ int_round pos = OK 0) ∧
    (∃ pos, positions !! Z.to_nat (4 - 1) = Some pos ∧ int_round pos = OK (7 - 1)).
Proof. apply (sample_indices_inside 7 4); lia. Defined.

(** ** Ingestion of a well-formed geometry *)

(** The samples of one fiber of at most [2^49] points whose ids all have a
    value: one value per position, each the value of the id found at the
    rounded position. *)
Lemma fiber_samples_total {V} (fetch : Z → result V) n ptIds :
  1 ≤ GetNumberOfIds ptIds ≤ 2 ^ 49 → 2 ≤ n < 2 ^ 53 →
  (∀ id, id ∈ ptIds → is_ok (fetch id) = true) →
  ∃ positions vs,
    _calc_fiber_indices (GetNumberOfIds ptIds) n = OK positions ∧
    fiber_samples fetch n ptIds = OK vs ∧
    Z.of_nat (length positions) = n ∧ length vs = length positions ∧
    ∀ (p : nat) pos, positions !! p = Some pos →
      ∃ k id v, int_round pos = OK k ∧ 0 ≤ k < GetNumberOfIds ptIds ∧
                GetId ptIds k = OK id ∧ id ∈ ptIds ∧ fetch id = OK v ∧
                vs !! p = Some v.
Proof.
  intros Hs Hn Hfetch.
  pose proof (calc_fiber_indices_value (GetNumberOfIds ptIds) n ltac:(lia) Hn) as Hcalc.
  set (step := SFdiv prec emax (fl (GetNumberOfIds ptIds - 1)) (fl (n - 1))) in Hcalc.
  set (positions := map (fun i => float_mul (fl i) step) (range 0 n)) in Hcalc.
  assert (Hin : ∀ (p : nat) pos, positions !! p = Some pos →
            ∃ k, int_round pos = OK k ∧ 0 ≤ k ≤ GetNumberOfIds ptIds - 1).
  { intros p pos Hp. unfold positions in Hp. change (map ?f ?l) with (f <$> l) in Hp.
    rewrite list_lookup_fmap in Hp. unfold range in Hp.
    destruct (seqZ 0 (n - 0) !! p) as [i|] eqn:Hi; [|discriminate].
    apply lookup_seqZ in Hi as [-> Hlt]. injection Hp as <-.
    apply position_rounds_inside; lia. }
  assert (Hone : ∀ (p : nat) pos, positions !! p = Some pos →
            ∃ k id v, int_round pos = OK k ∧ 0 ≤ k < GetNumberOfIds ptIds ∧
                      GetId ptIds k = OK id ∧ id ∈ ptIds ∧
                      fetch_sample fetch ptIds pos = OK v ∧ fetch id = OK v).
  { intros p pos Hp. destruct (Hin p pos Hp) as (k & Hk & Hrange).
    unfold GetNumberOfIds in Hrange.
    destruct (lookup_lt_is_Some_2 ptIds (Z.to_nat k) ltac:(lia)) as [id Hid].
    assert (Hget : GetId ptIds k = OK id).
    { unfold GetId, vtk_at. rewrite (proj2 (Z.ltb_ge _ _)) by lia. rewrite Hid. reflexivity. }
    pose proof (list_elem_of_lookup_2 _ _ _ Hid) as Hel.
    pose proof (Hfetch id Hel) as Hok.
    destruct (fetch id) as [v|e] eqn:Hv; [|discriminate].
    exists k, id, v. unfold GetNumberOfIds.
    split; [exact Hk|]. split; [lia|]. split; [exact Hget|]. split; [exact Hel|].
    split; [|exact Hv].
    unfold fetch_sample, sample_id. rewrite Hk. cbn [bindR]. rewrite Hget. cbn [bindR].
    exact Hv. }
  destruct (mapR_total (fetch_sample fetch ptIds) positions) as (vs & Hvs & Hlen).
  { intros pos Hpos. apply list_elem_of_lookup_1 in Hpos as [p Hp].
    destruct (Hone p pos Hp) as (k & id & v & _ & _ & _ & _ & -> & _). reflexivity. }
  exists positions, vs. split; [exact Hcalc|]. split.
  { unfold fiber_samples. rewrite Hcalc. cbn [bindR]. exact Hvs. }
  split.
  { rewrite (calc_fiber_indices_length _ _ _ Hcalc). lia. }
  split; [exact Hlen|].
  intros p pos Hp. destruct (Hone p pos Hp) as (k & id & v & Hk & Hr & Hget & Hel & Hfs & Hv).
  exists k, id, v. repeat (split; [assumption|]).
  apply mapR_ok in Hvs as [_ Hall]. destruct (Hall p pos Hp) as (v' & Hv' & Hvp).
  congruence.
Qed.

(** The store after [convertFromVTK] into a new object, read point by
    point. *)
Lemma ingested_cells g n ptss :
  mapR (fiber_samples (GetPoint (GetPoints g)) n) (GetLines g) = OK ptss →
  ∃ self, convertFromVTK g (Some n) new_FiberTree = (self, OK tt) ∧
    depth3 self ∧
    no_of_fibers self = Some (GetNumberOfLines g) ∧ pts_per_fiber self = Some n ∧
    ∀ f p, stored_point self f p = cell ptss f p.
Proof.
  intros Hm. pose proof (convertFromVTK_spec g n new_FiberTree depth3_new) as Hs.
  rewrite Hm in Hs. destruct Hs as (self & Hrun & Hd & Hnf & Hpts & Hfl).
  exists self. split; [exact Hrun|]. split; [exact Hd|]. split; [exact Hnf|].
  split; [exact Hpts|].
  intros f p. unfold stored_point. rewrite !Hfl.
  rewrite !bool_decide_eq_true_2 by (rewrite !elem_of_cons; auto).
  destruct (cell ptss f p) as [[[x y] z]|]; [reflexivity|].
  unfold float_at. cbn [fiberTree new_FiberTree]. rewrite obj_float_at_empty. reflexivity.
Qed.

Lemma well_formed_ids g ptIds id :
  well_formed g → ptIds ∈ GetLines g → id ∈ ptIds →
  is_ok (GetPoint (GetPoints g) id) = true.
Proof.
  intros Hwf Hin Hid. destruct (Hwf ptIds Hin) as [_ Hids]. specialize (Hids id Hid).
  unfold GetPoint, vtk_at. rewrite (proj2 (Z.ltb_ge _ _)) by lia.
  destruct (lookup_lt_is_Some_2 (GetPoints g) (Z.to_nat id) ltac:(lia)) as [pt ->].
  reflexivity.
Qed.

(** Ingestion of a well-formed geometry returns, and what it stores for
    each fiber are the samples of that fiber. *)
Lemma ingested_samples g n :
  well_formed g → 2 ≤ n < 2 ^ 53 →
  ∃ self, convertFromVTK g (Some n) new_FiberTree = (self, OK tt) ∧
    no_of_fibers self = Some (GetNumberOfLines g) ∧ pts_per_fiber self = Some n ∧
    ∀ (f : nat) ptIds, GetLines g !! f = Some ptIds →
      ∃ positions,
        _calc_fiber_indices (GetNumberOfIds ptIds) n = OK positions ∧
        Z.of_nat (length positions) = n ∧
        ∀ (p : nat) pos, positions !! p = Some pos →
          ∃ k id pt, int_round pos = OK k ∧ 0 ≤ k < GetNumberOfIds ptIds ∧
                     GetId ptIds k = OK id ∧
                     GetPoint (GetPoints g) id = OK pt ∧
                     stored_point self (Z.of_nat f) (Z.of_nat p) = Some pt.
Proof.
  intros Hwf Hn.
  destruct (mapR_total (fiber_samples (GetPoint (GetPoints g)) n) (GetLines g))
    as (ptss & Hm & Hlen).
  { intros ptIds Hin. destruct (Hwf ptIds Hin) as [Hs _].
    destruct (fiber_samples_total (GetPoint (GetPoints g)) n ptIds Hs Hn)
      as (positions & vs & _ & -> & _); [|reflexivity].
    intros id Hid. eapply well_formed_ids; eassumption. }
  destruct (ingested_cells g n ptss Hm) as (self & Hrun & _ & Hnf & Hpts & Hcell).
  exists self. split; [exact Hrun|]. split; [exact Hnf|]. split; [exact Hpts|].
  intros f ptIds Hline.
  pose proof (list_elem_of_lookup_2 _ _ _ Hline) as Hin.
  destruct (Hwf ptIds Hin) as [Hs _].
  destruct (fiber_samples_total (GetPoint (GetPoints g)) n ptIds Hs Hn)
    as (positions & vs & Hcalc & Hvs & Hplen & Hvlen & Hall).
  { intros id Hid. eapply well_formed_ids; eassumption. }
  exists positions. split; [exact Hcalc|]. split; [exact Hplen|].
  intros p pos Hp. destruct (Hall p pos Hp) as (k & id & pt & Hk & Hr & Hget & _ & Hpt & Hvp).
  exists k, id, pt. repeat (split; [assumption|]).
  rewrite Hcell.
  apply mapR_ok in Hm as [_ Hrows]. destruct (Hrows f ptIds Hline) as (vs' & Hvs' & Hrow).
  assert (vs' = vs) as -> by congruence.
  rewrite (cell_lookup ptss f p vs Hrow). exact Hvp.
Qed.

(** X2.  [convertFromVTK] never fails on a well-formed geometry when
    [2 <= pts_per_fiber < 2^53]: it sets both counts and stores, for every
    fiber and every sample position, the point whose id the fiber holds at
    the rounded position. *)
Theorem convertFromVTK_nearest_points g n :
  well_formed g → 2 ≤ n < 2 ^ 53 →
  ∃ self, convertFromVTK g (Some n) new_FiberTree = (self, OK tt) ∧
    no_of_fibers self = Some (GetNumberOfLines g) ∧ pts_per_fiber self = Some n ∧
    ∀ (f : nat) ptIds, GetLines g !! f = Some ptIds →
      ∃ positions,
        _calc_fiber_indices (GetNumberOfIds ptIds) n = OK positions ∧
        Z.of_nat (length positions) = n ∧
        ∀ (p : nat) pos, positions !! p = Some pos →
          ∃ k id pt, int_round pos = OK k ∧ 0 ≤ k < GetNumberOfIds ptIds ∧
                     GetId ptIds k = OK id ∧
                     GetPoint (GetPoints g) id = OK pt ∧
                     stored_point self (Z.of_nat f) (Z.of_nat p) = Some pt.
Proof. intros Hwf Hn. apply ingested_samples; assumption. Qed.

Lemma two_fibers_well_formed : well_formed two_fibers.
Proof.
  intros ptIds Hin. cbn [GetLines two_fibers] in Hin.
  rewrite !elem_of_cons, elem_of_nil in Hin.
  destruct Hin as [-> | [-> | []]]; (split; [vm_compute; split; discriminate|]);
    intros id Hid; rewrite !elem_of_cons, elem_of_nil in Hid;
    destruct Hid as [-> | [-> | [-> | []]]]; vm_compute; split; (discriminate || reflexivity).
Qed.

Lemma convertFromVTK_nearest_points_witness :
  ∃ self, convertFromVTK two_fibers (Some 5) new_FiberTree = (self, OK tt) ∧
    no_of_fibers self = Some 2 ∧ pts_per_fiber self = Some 5 ∧
    stored_point self 1 2 = Some (pt3 7 7 7).
Proof.
  destruct (convertFromVTK_nearest_points two_fibers 5 two_fibers_well_formed ltac:(lia))
    as (self & Hrun & Hnf & Hpts & Hall).
  exists self. split; [exact Hrun|]. split; [exact Hnf|]. split; [exact Hpts|].
  destruct (Hall 1%nat [3; 4; 2] eq_refl) as (positions & Hcalc & _ & Hpos).
  assert (Hc : _calc_fiber_indices 3 5 = OK [fl 0; S754_finite false 4503599627370496 (-53);
                                            fl 1; S754_finite false 6755399441055744 (-52);
                                            fl 2]) by (vm_compute; reflexivity).
  change (GetNumberOfIds [3; 4; 2]) with 3 in Hcalc. rewrite Hc in Hcalc.
  injection Hcalc as <-.
  destruct (Hpos 2%nat (fl 1) eq_refl) as (k & id & pt & Hk & _ & Hid & Hpt & Hst).
  vm_compute in Hk. injection Hk as <-. vm_compute in Hid. injection Hid as <-.
  assert (Hp : GetPoint (GetPoints two_fibers) 4 = OK (pt3 7 7 7)) by reflexivity.
  rewrite Hp in Hpt. injection Hpt as <-. exact Hst.
Defined.

Lemma first_position_rounds s t :
  1 ≤ s < 2 ^ 53 → 2 ≤ t < 2 ^ 53 →
  int_round (float_mul (fl 0) (SFdiv prec emax (fl (s - 1)) (fl (t - 1)))) = OK 0.
Proof.
  intros Hs Ht. change (fl 0) with (S754_zero false).
  destruct (step_nonneg s t Hs Ht) as [->|(c & x & -> & _)]; reflexivity.
Qed.

Lemma GetId_lookup ptIds k id :
  GetId ptIds k = OK id → 0 ≤ k ∧ ptIds !! Z.to_nat k = Some id.
Proof.
  unfold GetId, vtk_at. destruct (Z.ltb_spec k 0); [discriminate|].
  destruct (ptIds !! Z.to_nat k) as [a|]; [|discriminate].
  intros Heq. injection Heq as ->. split; [assumption|reflexivity].
Qed.

(** X3.  On a well-formed geometry ingested with [2 <= pts_per_fiber < 2^53]
    points, the first and the last stored sample of every fiber are the
    first and the last point of that fiber: both end points are kept. *)
Theorem convertFromVTK_keeps_end_points g n :
  well_formed g → 2 ≤ n < 2 ^ 53 →
  ∃ self, convertFromVTK g (Some n) new_FiberTree = (self, OK tt) ∧
    ∀ (f : nat) ptIds, GetLines g !! f = Some ptIds →
      ∃ a b pa pb,
        ptIds !! 0%nat = Some a ∧ last ptIds = Some b ∧
        GetPoint (GetPoints g) a = OK pa ∧ GetPoint (GetPoints g) b = OK pb ∧
        stored_point self (Z.of_nat f) 0 = Some pa ∧
        stored_point self (Z.of_nat f) (n - 1) = Some pb.
Proof.
  intros Hwf Hn.
  destruct (ingested_samples g n Hwf Hn) as (self & Hrun & _ & _ & Hall).
  exists self. split; [exact Hrun|]. intros f ptIds Hline.
  destruct (Hwf ptIds (list_elem_of_lookup_2 _ _ _ Hline)) as [Hs _].
  destruct (Hall f ptIds Hline) as (positions & Hcalc & Hlen & Hpos).
  rewrite calc_fiber_indices_value in Hcalc by lia. injection Hcalc as <-.
  set (step := SFdiv prec emax (fl (GetNumberOfIds ptIds - 1)) (fl (n - 1))) in *.
  assert (Hat : ∀ i, 0 ≤ i < n →
            map (fun i => float_mul (fl i) step) (range 0 n) !! Z.to_nat i
            = Some (float_mul (fl i) step)).
  { intros i Hi. change (map ?f ?l) with (f <$> l). rewrite list_lookup_fmap. unfold range.
    rewrite lookup_seqZ_lt by lia. cbn [fmap option_fmap option_map].
    rewrite Z2Nat.id, Z.add_0_l by lia. reflexivity. }
  destruct (Hpos _ _ (Hat 0 ltac:(lia))) as (k0 & a & pa & Hk0 & _ & Ha & Hpa & Hsa).
  destruct (Hpos _ _ (Hat (n - 1) ltac:(lia))) as (k1 & b & pb & Hk1 & _ & Hb & Hpb & Hsb).
  unfold step in Hk0, Hk1.
  rewrite first_position_rounds in Hk0 by lia. injection Hk0 as <-.
  rewrite last_position_rounds in Hk1 by lia. injection Hk1 as <-.
  apply GetId_lookup in Ha as [_ Ha]. apply GetId_lookup in Hb as [_ Hb].
  exists a, b, pa, pb. split; [exact Ha|]. split.
  { rewrite last_lookup. rewrite <- Hb. f_equal. unfold GetNumberOfIds. lia. }
  split; [exact Hpa|]. split; [exact Hpb|]. split.
  - exact Hsa.
  - rewrite Z2Nat.id in Hsb by lia. exact Hsb.
Qed.

Lemma convertFromVTK_keeps_end_points_witness :
  ∃ self, convertFromVTK two_fibers (Some 5) new_FiberTree = (self, OK tt) ∧
    stored_point self 1 0 = Some (pt3 5 5 5) ∧
    stored_point self 1 4 = Some (pt3 1 1 0).
Proof.
  destruct (convertFromVTK_keeps_end_points two_fibers 5 two_fibers_well_formed ltac:(lia))
    as (self & Hrun & Hall).
  exists self. split; [exact Hrun|].
  destruct (Hall 1%nat [3; 4; 2] eq_refl) as (a & b & pa & pb & Ha & Hb & Hpa & Hpb & H0 & H1).
  injection Ha as <-. injection Hb as <-.
  assert (Hp3 : GetPoint (GetPoints two_fibers) 3 = OK (pt3 5 5 5)) by reflexivity.
  assert (Hp2 : GetPoint (GetPoints two_fibers) 2 = OK (pt3 1 1 0)) by reflexivity.
  rewrite Hp3 in Hpa. rewrite Hp2 in Hpb. injection Hpa as <-. injection Hpb as <-.
  split; [exact H0|exact H1].
Defined.

(** ** What ingestion and scalar attachment leave alone *)

(** The store used in the examples: [two_fibers] ingested with three points
    per fiber. *)
Lemma two_fibers_ingestion :
  convertFromVTK two_fibers (Some 3) new_FiberTree = (ingested two_fibers 3, OK tt).
Proof. vm_compute. reflexivity. Qed.

Lemma cell_outside {V} (fetch : Z → result V) n cells (vss : list (list V)) f p :
  mapR (fiber_samples fetch n) cells = OK vss →
  ¬ (0 ≤ f < Z.of_nat (length cells)) ∨ ¬ (0 ≤ p < n) →
  cell vss f p = None.
Proof.
  intros Hm Hout.
  destruct (decide (0 ≤ f < Z.of_nat (length cells))) as [Hf|Hf].
  - destruct Hout as [Hout|Hout]; [contradiction|].
    pose proof (cell_is_Some fetch n cells vss f p Hm Hf) as Hiff.
    destruct (cell vss f p) as [v|]; [|reflexivity].
    exfalso. apply Hout, Hiff. eexists; reflexivity.
  - apply mapR_ok in Hm as [Hlen _]. unfold cell.
    case_bool_decide as Hb; [|reflexivity].
    rewrite (lookup_ge_None_2 vss (Z.to_nat f)) by lia. reflexivity.
Qed.

(** X4.  [convertFromVTK] only assigns: on a store that already holds
    numbers it sets the two counts and leaves every number it does not
    overwrite as it was, that is every scalar, every fiber from the new
    fiber count on and every point from the new point count on. *)
Theorem convertFromVTK_keeps_the_rest g n self self' :
  depth3 self →
  convertFromVTK g (Some n) self = (self', OK tt) →
  no_of_fibers self' = Some (GetNumberOfLines g) ∧
  pts_per_fiber self' = Some n ∧
  depth3 self' ∧
  ∀ f p a,
    a ∉ ["x"; "y"; "z"]%string ∨ ¬ (0 ≤ f < GetNumberOfLines g) ∨ ¬ (0 ≤ p < n) →
    float_at (at_point f p a) self' = float_at (at_point f p a) self.
Proof.
  intros Hd Hrun. pose proof (convertFromVTK_spec g n self Hd) as Hs.
  destruct (mapR (fiber_samples (GetPoint (GetPoints g)) n) (GetLines g)) as [ptss|e] eqn:Hm.
  2: { destruct Hs as (s' & Hs). rewrite Hrun in Hs. discriminate. }
  destruct Hs as (s' & Hs & Hd' & Hnf & Hpts & Hfl). rewrite Hrun in Hs. injection Hs as <-.
  split; [exact Hnf|]. split; [exact Hpts|]. split; [exact Hd'|].
  intros f p a Hout. rewrite Hfl.
  destruct Hout as [Ha|Hout].
  - rewrite bool_decide_eq_false_2 by exact Ha. reflexivity.
  - rewrite (cell_outside _ _ _ _ f p Hm) by exact Hout.
    destruct (bool_decide _); reflexivity.
Qed.

Lemma convertFromVTK_keeps_the_rest_witness :
  let self := ingested two_fibers 3 in
  let self' := fst (convertFromVTK lone_point (Some 2) self) in
  no_of_fibers self' = Some 1 ∧ pts_per_fiber self' = Some 2 ∧
  float_at (at_point 1 2 "x") self' = float_at (at_point 1 2 "x") self ∧
  float_at (at_point 1 2 "x") self = Some (fl 1).
Proof.
  intros self self'.
  destruct (ingested_pts_per_fiber two_fibers 3 self two_fibers_ingestion) as (_ & _ & Hd).
  assert (Hrun : convertFromVTK lone_point (Some 2) self = (self', OK tt))
    by (vm_compute; reflexivity).
  destruct (convertFromVTK_keeps_the_rest lone_point 2 self self' Hd Hrun)
    as (Hnf & Hpts & _ & Hkeep).
  split; [exact Hnf|]. split; [exact Hpts|]. split.
  - apply Hkeep. right. left. vm_compute. intros [_ H]. discriminate H.
  - vm_compute. reflexivity.
Defined.

Lemma OnlyUnder_ret name {A} (a : A) : OnlyUnder name (ret a).
Proof. intros self self' r H. injection H as <- _. auto. Qed.

Lemma OnlyUnder_lift name {A} (x : result A) : OnlyUnder name (lift x).
Proof. intros self self' r H. injection H as <- _. auto. Qed.

Lemma OnlyUnder_self_no_of_fibers name : OnlyUnder name self_no_of_fibers.
Proof.
  intros self self' r H. unfold self_no_of_fibers in H.
  assert (self' = self) as -> by (destruct (no_of_fibers self); congruence).
  auto.
Qed.

Lemma OnlyUnder_bind name {A B} (m : M A) (k : A → M B) :
  OnlyUnder name m → (∀ a, OnlyUnder name (k a)) → OnlyUnder name (bindM m k).
Proof.
  intros Hm Hk self self' r H. unfold bindM in H.
  destruct (m self) as [mid [a|e]] eqn:Hmid.
  - destruct (Hm _ _ _ Hmid) as (H1 & H2 & H3).
    destruct (Hk a _ _ _ H) as (K1 & K2 & K3).
    split; [congruence|]. split; [congruence|].
    intros f p b Hb. rewrite K3, H3 by exact Hb. reflexivity.
  - injection H as <- _. eapply Hm. exact Hmid.
Qed.

Lemma OnlyUnder_foldM name {A S} (l : list A) (body : A → S → M S) :
  (∀ x s, OnlyUnder name (body x s)) → ∀ s, OnlyUnder name (foldM l body s).
Proof.
  intros Hb. induction l as [|x l IH]; intros s; cbn [foldM].
  - apply OnlyUnder_ret.
  - apply OnlyUnder_bind; [apply Hb|exact IH].
Qed.

Lemma OnlyUnder_write name fidx pidx v :
  OnlyUnder name (write (at_point fidx pidx name) v).
Proof.
  intros self self' r H. unfold write in H.
  destruct (tree_write (at_point fidx pidx name) v (fiberTree self)) as [t|e] eqn:Hw.
  - injection H as <- _. split; [reflexivity|]. split; [reflexivity|].
    intros f p a Ha. unfold float_at, obj_float_at. cbn [fiberTree].
    rewrite (tree_write_frame _ (at_point f p a) _ _ _ Hw); [reflexivity|reflexivity|].
    unfold at_point. intros Heq. injection Heq as _ _ Heq. contradiction.
  - injection H as <- _. auto.
Qed.

(** X5.  [addScalar] touches nothing but the scalar it attaches, on any
    store and whether it returns or raises: the two counts are as before,
    and so is every number stored under a fiber, a point and a name other
    than [scalarType], the coordinates among them. *)
Theorem addScalar_keeps_the_rest g data name pts self self' r :
  addScalar g data name pts self = (self', r) →
  no_of_fibers self' = no_of_fibers self ∧
  pts_per_fiber self' = pts_per_fiber self ∧
  ∀ f p a, a ≠ name → float_at (at_point f p a) self' = float_at (at_point f p a) self.
Proof.
  revert self self' r. change (OnlyUnder name (addScalar g data name pts)).
  unfold addScalar.
  apply OnlyUnder_bind; [apply OnlyUnder_self_no_of_fibers|]. intros nf.
  apply OnlyUnder_bind; [|intros ?; apply OnlyUnder_ret].
  apply OnlyUnder_foldM. intros fidx [ptIds0 cells0].
  destruct (GetNextCell cells0 ptIds0) as [ptIds cells].
  apply OnlyUnder_bind; [apply OnlyUnder_lift|]. intros positions.
  apply OnlyUnder_bind; [|intros ?; apply OnlyUnder_ret].
  apply OnlyUnder_foldM. intros lineIdx pidx.
  apply OnlyUnder_bind; [apply OnlyUnder_lift|]. intros ptidx.
  apply OnlyUnder_bind; [apply OnlyUnder_lift|]. intros v.
  apply OnlyUnder_bind; [apply OnlyUnder_write|]. intros ?. apply OnlyUnder_ret.
Qed.

Lemma addScalar_keeps_the_rest_witness :
  let data := [fl 10; fl 11; fl 12] in
  let self := ingested two_fibers 3 in
  let self' := fst (addScalar two_fibers data "FA" (Some 2) self) in
  snd (addScalar two_fibers data "FA" (Some 2) self) = Raise IndexError ∧
  float_at (at_point 0 1 "FA") self' = Some (fl 12) ∧
  pts_per_fiber self' = Some 3 ∧
  float_at (at_point 1 2 "x") self' = Some (fl 1).
Proof.
  intros data self self'.
  assert (Hrun : addScalar two_fibers data "FA" (Some 2) self = (self', Raise IndexError))
    by (vm_compute; reflexivity).
  destruct (addScalar_keeps_the_rest two_fibers data "FA" (Some 2) self self' _ Hrun)
    as (_ & Hpts & Hkeep).
  split; [rewrite Hrun; reflexivity|]. split; [vm_compute; reflexivity|]. split.
  - rewrite Hpts. vm_compute. reflexivity.
  - rewrite (Hkeep 1 2 "x"%string) by discriminate. vm_compute. reflexivity.
Defined.

(** ** Export with excluded fibers *)

Lemma foldl_skip {A S} (skip : A → bool) (step : S → A → S) (l : list A) : ∀ s,
  foldl (fun s x => if skip x then s else step s x) s l
  = foldl step s (List.filter (fun x => negb (skip x)) l).
Proof.
  induction l as [|x l IH]; intros s; [reflexivity|].
  cbn [foldl List.filter]. destruct (skip x); cbn [negb foldl]; apply IH.
Qed.

Lemma elem_of_kept rejIdx nf f : f ∈ kept rejIdx nf ↔ 0 ≤ f < nf ∧ f ∉ rejIdx.
Proof.
  unfold kept, not_rejected. rewrite list_elem_of_In, filter_In, <- list_elem_of_In, elem_of_range.
  rewrite negb_true_iff, bool_decide_eq_false. reflexivity.
Qed.

Lemma convertToVTK_kept self nf n rejIdx (P : Z → Z → point) :
  no_of_fibers self = Some nf → pts_per_fiber self = Some n →
  (∀ f p, f ∈ kept rejIdx nf → 0 ≤ p < n → stored_point self f p = Some (P f p)) →
  ∃ out, convertToVTK rejIdx self = (self, OK out) ∧
         fiber_coords out
         = OK (map (fun f => map (fun p => point32 (P f p)) (range 0 n)) (kept rejIdx nf)).
Proof.
  intros Hnf Hn Hpts. unfold convertToVTK.
  erewrite bindM_ok by (unfold self_no_of_fibers; rewrite Hnf; reflexivity).
  erewrite bindM_ok.
  2: { apply (foldM_pure _ _
                (fun f acc => if bool_decide (f ∈ rejIdx) then acc
                              else export_fiber (fun f p => point32 (P f p)) n f acc)).
       intros f [outPts outFibers] Hf. apply elem_of_range in Hf.
       case_bool_decide as Hrej; [reflexivity|].
       assert (Hk : f ∈ kept rejIdx nf) by (apply elem_of_kept; split; assumption).
       erewrite bindM_ok by (unfold self_pts_per_fiber; rewrite Hn; reflexivity).
       erewrite bindM_ok.
       2: { apply (foldM_pure _ _
                     (fun p acc => export_point (fun f p => point32 (P f p)) f p acc)).
            intros p [pts0 ids0] Hp. apply elem_of_range in Hp.
            destruct (stored_point_inv _ _ _ _ (Hpts f p Hk Hp)) as (Hx & Hy & Hz).
            erewrite bindM_ok by (apply read_float_at; exact Hx).
            erewrite bindM_ok by (apply read_float_at; exact Hy).
            erewrite bindM_ok by (apply read_float_at; exact Hz).
            unfold bindM, lift, ret, py_float, export_point, point32. cbn [fst snd].
            destruct (P f p) as [[x y] z]. reflexivity. }
       reflexivity. }
  eexists. split; [reflexivity|].
  unfold fiber_coords. cbn [GetPoints GetLines].
  rewrite (foldl_skip (fun f => bool_decide (f ∈ rejIdx))
                      (fun acc f => export_fiber (fun f p => point32 (P f p)) n f acc)).
  apply (export_fibers_fold (fun f p => point32 (P f p)) n (kept rejIdx nf) [] [] []).
  reflexivity.
Qed.

(** X6.  [convertToVTK(rejIdx)] on a store that holds the points of the
    fibers it keeps leaves the store as it is and returns a geometry with
    exactly the fibers of [range(0, no_of_fibers)] that are not in [rejIdx],
    in order, each with its [pts_per_fiber] stored points rounded to
    binary32; an excluded fiber leaves no line behind and is not even
    read. *)
Theorem convertToVTK_drops_rejected self nf n rejIdx (P : Z → Z → point) :
  no_of_fibers self = Some nf → pts_per_fiber self = Some n →
  (∀ f p, 0 ≤ f < nf → f ∉ rejIdx → 0 ≤ p < n → stored_point self f p = Some (P f p)) →
  ∃ out, convertToVTK rejIdx self = (self, OK out) ∧
         fiber_coords out
         = OK (map (fun f => map (fun p => point32 (P f p)) (range 0 n))
                   (kept rejIdx nf)) ∧
         length (GetLines out) = length (kept rejIdx nf) ∧
         ∀ f, f ∈ kept rejIdx nf ↔ 0 ≤ f < nf ∧ f ∉ rejIdx.
Proof.
  intros Hnf Hn Hpts.
  destruct (convertToVTK_kept self nf n rejIdx P Hnf Hn) as (out & Hrun & Hco).
  { intros f p Hk Hp. apply elem_of_kept in Hk as [Hf Hrej]. apply Hpts; assumption. }
  exists out. split; [exact Hrun|]. split; [exact Hco|]. split.
  - unfold fiber_coords in Hco. apply mapR_ok in Hco as [Hlen _].
    rewrite length_map in Hlen. symmetry. exact Hlen.
  - intros f. apply elem_of_kept.
Qed.

Lemma convertToVTK_drops_rejected_witness :
  ∃ out, convertToVTK [0] (ingested two_fibers 3) = (ingested two_fibers 3, OK out) ∧
         fiber_coords out = OK [[pt3 5 5 5; pt3 7 7 7; pt3 1 1 0]] ∧
         length (GetLines out) = 1%nat.
Proof.
  pose (P := fun f p => default (pt3 0 0 0) (stored_point (ingested two_fibers 3) f p)).
  destruct (ingested_pts_per_fiber _ _ _ two_fibers_ingestion) as (Hn & Hnf & _).
  destruct (convertToVTK_drops_rejected (ingested two_fibers 3) 2 3 [0] P Hnf Hn)
    as (out & Hrun & Hco & Hlen & _).
  - intros f p Hf _ Hp. unfold P.
    destruct (ingested_stored_points two_fibers 3 _ f p two_fibers_ingestion Hf Hp)
      as [pt ->]. reflexivity.
  - exists out. split; [exact Hrun|]. split; [|exact Hlen].
    rewrite Hco. vm_compute. reflexivity.
Defined.

(** ** Extraction of several fibers *)

(** Filling row [i] of a matrix cell by cell replaces the row by the list
    of the values. *)
Lemma fill_row_steps (vals : Z → float) (i : nat) (l : list Z) : ∀ row m,
  m !! i = Some row →
  foldl (fun m p => set2 m (Z.of_nat i) p (vals p)) m l
  = <[i := foldl (fun r p => set1 r p (vals p)) row l]> m.
Proof.
  induction l as [|p l IH]; intros row m Hrow.
  - cbn [foldl]. rewrite list_insert_id by exact Hrow. reflexivity.
  - cbn [foldl]. unfold set2 at 2. rewrite Nat2Z.id, Hrow.
    pose proof (lookup_lt_Some _ _ _ Hrow) as Hlt.
    rewrite (IH (set1 row p (vals p))).
    + rewrite list_insert_insert_eq. reflexivity.
    + apply list_lookup_insert_eq. exact Hlt.
Qed.

Lemma fill_row (vals : Z → float) (i : nat) n row m :
  m !! i = Some row → length row = Z.to_nat n → 0 ≤ n →
  foldl (fun m p => set2 m (Z.of_nat i) p (vals p)) m (range 0 n)
  = <[i := map vals (range 0 n)]> m.
Proof.
  intros Hrow Hlen Hn. rewrite (fill_row_steps vals i _ row m Hrow). f_equal.
  pose proof (fill_cells vals row []) as H. cbn [length app] in H.
  rewrite Hlen, Z2Nat.id in H by lia. unfold range. rewrite Z.sub_0_r. exact H.
Qed.

(** Filling a matrix row by row, one row per element of [l], from row
    [length pre] on. *)
Lemma fill_rows (rowv : Z → Z → float) n (l : list Z) : ∀ (pre rest : list (list float)),
  0 ≤ n → (length l ≤ length rest)%nat →
  (∀ row, row ∈ rest → length row = Z.to_nat n) →
  foldl (fun (s : Z * list (list float)) f =>
           (s.1 + 1, foldl (fun m p => set2 m s.1 p (rowv f p)) s.2 (range 0 n)))
        (Z.of_nat (length pre), pre ++ rest) l
  = (Z.of_nat (length pre + length l),
     pre ++ map (fun f => map (rowv f) (range 0 n)) l ++ drop (length l) rest).
Proof.
  induction l as [|f l IH]; intros pre rest Hn Hlen Hrows.
  - cbn [foldl map length app drop]. rewrite Nat.add_0_r. reflexivity.
  - destruct rest as [|row rest]; [cbn in Hlen; lia|].
    cbn [foldl fst snd].
    rewrite (fill_row (rowv f) (length pre) n row).
    + rewrite insert_app_r_alt by lia. rewrite Nat.sub_diag. cbn [insert list_insert].
      specialize (IH (pre ++ [map (rowv f) (range 0 n)]) rest Hn).
      rewrite length_app in IH. cbn [length] in IH.
      replace (Z.of_nat (length pre) + 1) with (Z.of_nat (length pre + 1)) by lia.
      rewrite <- app_assoc in IH. cbn [app] in IH. rewrite IH.
      * cbn [length map drop app]. rewrite <- app_assoc. cbn [app].
        f_equal. lia.
      * cbn [length] in Hlen. lia.
      * intros r Hr. apply Hrows. right. exact Hr.
    + rewrite lookup_app_r by lia. rewrite Nat.sub_diag. reflexivity.
    + apply Hrows. left.
    + exact Hn.
Qed.

Lemma fill_matrix (rowv : Z → Z → float) n (l : list Z) :
  0 ≤ n →
  snd (foldl (fun (s : Z * list (list float)) f =>
                (s.1 + 1, foldl (fun m p => set2 m s.1 p (rowv f p)) s.2 (range 0 n)))
             (0, replicate (length l) (replicate (Z.to_nat n) float_zero)) l)
  = map (fun f => map (rowv f) (range 0 n)) l.
Proof.
  intros Hn.
  pose proof (fill_rows rowv n l [] (replicate (length l) (replicate (Z.to_nat n) float_zero))
                Hn) as H.
  cbn [length app] in H. change (Z.of_nat 0) with 0 in H. rewrite H.
  - cbn [snd]. rewrite drop_ge by (rewrite length_replicate; lia). apply app_nil_r.
  - rewrite length_replicate. lia.
  - intros row Hrow. apply elem_of_replicate in Hrow as [-> _]. apply length_replicate.
Qed.

(** [getScalars] on a store that holds the scalar for the fibers asked
    for. *)
Lemma getScalars_ok fidxes name n (vals : Z → Z → float) self :
  pts_per_fiber self = Some n → 0 ≤ n →
  (∀ f p, f ∈ fidxes → 0 ≤ p < n → float_at (at_point f p name) self = Some (vals f p)) →
  getScalars fidxes name self
  = (self, OK (map (fun f => map (vals f) (range 0 n)) fidxes)).
Proof.
  intros Hn Hpos Hall. unfold getScalars.
  erewrite bindM_ok by (unfold self_pts_per_fiber; rewrite Hn; reflexivity).
  unfold np_zeros2, np_zeros. rewrite (proj2 (Z.ltb_ge n 0)) by lia. cbn [bindR].
  erewrite bindM_ok by reflexivity.
  erewrite bindM_ok.
  2: { apply (foldM_pure _ _
                (fun f (s : Z * list (list float)) =>
                   (s.1 + 1, foldl (fun m p => set2 m s.1 p (vals f p)) s.2 (range 0 n)))).
       intros f [idx m] Hf.
       erewrite bindM_ok.
       2: { apply (foldM_pure _ _ (fun p m => set2 m idx p (vals f p))).
            intros p m' Hp. apply elem_of_range in Hp.
            pose proof (read_float_spec (at_point f p name) self) as Hr.
            rewrite (Hall f p Hf Hp) in Hr. erewrite bindM_ok by exact Hr. reflexivity. }
       reflexivity. }
  unfold ret. rewrite (fill_matrix vals n fidxes Hpos). reflexivity.
Qed.

Lemma foldl_triple {A X Y Z'} (fx : X → A → X) (fy : Y → A → Y) (fz : Z' → A → Z')
    (l : list A) : ∀ a b c,
  foldl (fun (s : X * Y * Z') p => (fx s.1.1 p, fy s.1.2 p, fz s.2 p)) (a, b, c) l
  = (foldl fx a l, foldl fy b l, foldl fz c l).
Proof.
  induction l as [|p l IH]; intros a b c; [reflexivity|]. cbn [foldl fst snd]. apply IH.
Qed.

Lemma foldl_counter {A S} (g : Z → A → S → S) (l : list A) : ∀ i a,
  fst (foldl (fun (s : Z * S) f => (s.1 + 1, g s.1 f s.2)) (i, a) l)
  = i + Z.of_nat (length l).
Proof.
  induction l as [|f l IH]; intros i a; cbn [foldl fst snd length].
  - lia.
  - rewrite IH. lia.
Qed.

Lemma foldl_counter_triple {A X Y Z'} (gx : Z → A → X → X) (gy : Z → A → Y → Y)
    (gz : Z → A → Z' → Z') (l : list A) : ∀ i a b c,
  snd (foldl (fun (s : Z * (X * Y * Z')) f =>
                (s.1 + 1, (gx s.1 f s.2.1.1, gy s.1 f s.2.1.2, gz s.1 f s.2.2)))
             (i, (a, b, c)) l)
  = (snd (foldl (fun (s : Z * X) f => (s.1 + 1, gx s.1 f s.2)) (i, a) l),
     snd (foldl (fun (s : Z * Y) f => (s.1 + 1, gy s.1 f s.2)) (i, b) l),
     snd (foldl (fun (s : Z * Z') f => (s.1 + 1, gz s.1 f s.2)) (i, c) l)).
Proof.
  induction l as [|f l IH]; intros i a b c; [reflexivity|]. cbn [foldl fst snd]. apply IH.
Qed.

(** [getFiber] on a store that holds the points of the fiber. *)
Lemma getFiber_ok f n (P : Z → point) self :
  pts_per_fiber self = Some n → 0 ≤ n →
  (∀ p, 0 ≤ p < n → stored_point self f p = Some (P p)) →
  getFiber f self
  = (self, OK (map (fun p => (P p).1.1) (range 0 n),
               map (fun p => (P p).1.2) (range 0 n),
               map (fun p => (P p).2) (range 0 n))).
Proof.
  intros Hn Hpos Hall. unfold getFiber.
  erewrite bindM_ok by (unfold self_pts_per_fiber; rewrite Hn; reflexivity).
  unfold np_zeros. rewrite (proj2 (Z.ltb_ge n 0)) by lia.
  do 3 (erewrite bindM_ok by reflexivity).
  rewrite (foldM_pure _ _
             (fun p (s : array3) =>
                (set1 s.1.1 p (P p).1.1, set1 s.1.2 p (P p).1.2, set1 s.2 p (P p).2))).
  - rewrite (foldl_triple (fun a p => set1 a p (P p).1.1) (fun a p => set1 a p (P p).1.2)
                          (fun a p => set1 a p (P p).2)).
    rewrite !fill_zeros by exact Hpos. reflexivity.
  - intros p [[ax ay] az] Hp. apply elem_of_range in Hp.
    destruct (stored_point_inv _ _ _ _ (Hall p Hp)) as (Hx & Hy & Hz).
    pose proof (read_float_spec (at_point f p "x") self) as Hrx. rewrite Hx in Hrx.
    pose proof (read_float_spec (at_point f p "y") self) as Hry. rewrite Hy in Hry.
    pose proof (read_float_spec (at_point f p "z") self) as Hrz. rewrite Hz in Hrz.
    erewrite bindM_ok by exact Hrx. erewrite bindM_ok by exact Hry.
    erewrite bindM_ok by exact Hrz. reflexivity.
Qed.

(** [getFibers] when none of the fibers asked for is excluded. *)
Lemma getFibers_ok fidxes rejIdx n (P : Z → Z → point) self :
  pts_per_fiber self = Some n → 0 ≤ n →
  (∀ f, f ∈ fidxes → f ∉ rejIdx) →
  (∀ f p, f ∈ fidxes → 0 ≤ p < n → stored_point self f p = Some (P f p)) →
  getFibers fidxes rejIdx self
  = (self, OK (map (fun f => map (fun p => (P f p).1.1) (range 0 n)) fidxes,
               map (fun f => map (fun p => (P f p).1.2) (range 0 n)) fidxes,
               map (fun f => map (fun p => (P f p).2) (range 0 n)) fidxes)).
Proof.
  intros Hn Hpos Hrej Hall. unfold getFibers.
  erewrite bindM_ok by (unfold self_pts_per_fiber; rewrite Hn; reflexivity).
  unfold np_zeros2, np_zeros. rewrite (proj2 (Z.ltb_ge n 0)) by lia. cbn [bindR].
  do 3 (erewrite bindM_ok by reflexivity).
  erewrite bindM_ok.
  2: { apply (foldM_pure _ _
                (fun f (s : Z * matrix3) =>
                   (s.1 + 1,
                    (foldl (fun m p => set2 m s.1 p (P f p).1.1) s.2.1.1 (range 0 n),
                     foldl (fun m p => set2 m s.1 p (P f p).1.2) s.2.1.2 (range 0 n),
                     foldl (fun m p => set2 m s.1 p (P f p).2) s.2.2 (range 0 n))))).
       intros f [idx [[ax ay] az]] Hf.
       rewrite bool_decide_eq_false_2 by (apply Hrej; exact Hf).
       erewrite bindM_ok.
       2: { apply (foldM_pure _ _
                     (fun p (s : matrix3) =>
                        (set2 s.1.1 idx p (P f p).1.1, set2 s.1.2 idx p (P f p).1.2,
                         set2 s.2 idx p (P f p).2))).
            intros p [[bx by_] bz] Hp. apply elem_of_range in Hp.
            destruct (stored_point_inv _ _ _ _ (Hall f p Hf Hp)) as (Hx & Hy & Hz).
            pose proof (read_float_spec (at_point f p "x") self) as Hrx. rewrite Hx in Hrx.
            pose proof (read_float_spec (at_point f p "y") self) as Hry. rewrite Hy in Hry.
            pose proof (read_float_spec (at_point f p "z") self) as Hrz. rewrite Hz in Hrz.
            erewrite bindM_ok by exact Hrx. erewrite bindM_ok by exact Hry.
            erewrite bindM_ok by exact Hrz. reflexivity. }
       unfold ret. cbn [fst snd].
       rewrite (foldl_triple (fun m p => set2 m idx p (P f p).1.1)
                             (fun m p => set2 m idx p (P f p).1.2)
                             (fun m p => set2 m idx p (P f p).2)).
       reflexivity. }
  unfold ret.
  rewrite (foldl_counter_triple
             (fun i f m => foldl (fun m p => set2 m i p (P f p).1.1) m (range 0 n))
             (fun i f m => foldl (fun m p => set2 m i p (P f p).1.2) m (range 0 n))
             (fun i f m => foldl (fun m p => set2 m i p (P f p).2) m (range 0 n))).
  rewrite (fill_matrix (fun f p => (P f p).1.1) n fidxes Hpos).
  rewrite (fill_matrix (fun f p => (P f p).1.2) n fidxes Hpos).
  rewrite (fill_matrix (fun f p => (P f p).2) n fidxes Hpos).
  reflexivity.
Qed.

(** X7.  On a store that holds the points of the fibers asked for, none of
    them excluded, [getFibers] leaves the store as it is and returns three
    matrices with one row per element of [fidxes], in the order of [fidxes]:
    row [k] of each matrix is the array [getFiber] returns for the fiber
    [fidxes[k]]. *)
Theorem getFibers_rows fidxes rejIdx n self :
  pts_per_fiber self = Some n → 0 ≤ n →
  (∀ f, f ∈ fidxes → f ∉ rejIdx) →
  (∀ f p, f ∈ fidxes → 0 ≤ p < n → is_Some (stored_point self f p)) →
  ∃ mx my mz,
    getFibers fidxes rejIdx self = (self, OK (mx, my, mz)) ∧
    length mx = length fidxes ∧ length my = length fidxes ∧ length mz = length fidxes ∧
    ∀ (k : nat) f, fidxes !! k = Some f →
      ∃ xs ys zs,
        getFiber f self = (self, OK (xs, ys, zs)) ∧
        mx !! k = Some xs ∧ my !! k = Some ys ∧ mz !! k = Some zs.
Proof.
  intros Hn Hpos Hrej Hall.
  pose (P := fun f p => default (float_zero, float_zero, float_zero) (stored_point self f p)).
  assert (HP : ∀ f p, f ∈ fidxes → 0 ≤ p < n → stored_point self f p = Some (P f p)).
  { intros f p Hf Hp. unfold P. destruct (Hall f p Hf Hp) as [pt ->]. reflexivity. }
  eexists _, _, _. split; [apply (getFibers_ok fidxes rejIdx n P self Hn Hpos Hrej HP)|].
  rewrite !length_map. repeat (split; [reflexivity|]).
  intros k f Hk. pose proof (list_elem_of_lookup_2 _ _ _ Hk) as Hf.
  eexists _, _, _. split.
  - apply (getFiber_ok f n (P f) self Hn Hpos). intros p Hp. apply HP; assumption.
  - change (map ?g fidxes) with (g <$> fidxes). rewrite !list_lookup_fmap, Hk.
    repeat split; reflexivity.
Qed.

Lemma getFibers_rows_witness :
  ∃ mx my mz,
    getFibers [1; 0; 1] [] (ingested two_fibers 3)
      = (ingested two_fibers 3, OK (mx, my, mz)) ∧
    length mx = 3%nat ∧
    ∃ xs ys zs,
      getFiber 1 (ingested two_fibers 3) = (ingested two_fibers 3, OK (xs, ys, zs)) ∧
      mx !! 2%nat = Some xs.
Proof.
  destruct (ingested_pts_per_fiber _ _ _ two_fibers_ingestion) as (Hn & _ & _).
  destruct (getFibers_rows [1; 0; 1] [] 3 (ingested two_fibers 3) Hn ltac:(lia))
    as (mx & my & mz & Hrun & Hlx & _ & _ & Hrows).
  - intros f _. apply not_elem_of_nil.
  - intros f p Hf Hp.
    apply (ingested_stored_points two_fibers 3 _ f p two_fibers_ingestion); [|exact Hp].
    rewrite !elem_of_cons, elem_of_nil in Hf. change (GetNumberOfLines two_fibers) with 2.
    lia.
  - exists mx, my, mz. split; [exact Hrun|]. split; [exact Hlx|].
    destruct (Hrows 2%nat 1 eq_refl) as (xs & ys & zs & Hg & Hx & _).
    exists xs, ys, zs. split; [exact Hg|exact Hx].
Defined.

(** X8.  On a store that holds the scalar [scalarType] for the fibers asked
    for, [getScalars] leaves the store as it is and returns a matrix with one
    row per element of [fidxes]: row [k] is the array [getScalar] returns for
    the fiber [fidxes[k]]. *)
Theorem getScalars_rows fidxes name n self :
  pts_per_fiber self = Some n → 0 ≤ n →
  (∀ f p, f ∈ fidxes → 0 ≤ p < n → is_Some (float_at (at_point f p name) self)) →
  ∃ m,
    getScalars fidxes name self = (self, OK m) ∧
    length m = length fidxes ∧
    ∀ (k : nat) f, fidxes !! k = Some f →
      ∃ row, getScalar f name self = (self, OK row) ∧ m !! k = Some row ∧
             Z.of_nat (length row) = n.
Proof.
  intros Hn Hpos Hall.
  pose (vals := fun f p => default float_zero (float_at (at_point f p name) self)).
  assert (Hv : ∀ f p, f ∈ fidxes → 0 ≤ p < n →
                 float_at (at_point f p name) self = Some (vals f p)).
  { intros f p Hf Hp. unfold vals. destruct (Hall f p Hf Hp) as [v ->]. reflexivity. }
  eexists. split; [apply (getScalars_ok fidxes name n vals self Hn Hpos Hv)|].
  rewrite length_map. split; [reflexivity|].
  intros k f Hk. pose proof (list_elem_of_lookup_2 _ _ _ Hk) as Hf.
  eexists. split.
  - apply (getScalar_ok f name n (vals f) self Hn Hpos). intros p Hp. apply Hv; assumption.
  - change (map ?g fidxes) with (g <$> fidxes). rewrite list_lookup_fmap, Hk.
    split; [reflexivity|]. rewrite length_map, length_range. lia.
Qed.

Lemma getScalars_rows_witness :
  ∃ m,
    getScalars [1; 1] "x" (ingested two_fibers 3) = (ingested two_fibers 3, OK m) ∧
    length m = 2%nat ∧
    ∃ row, getScalar 1 "x" (ingested two_fibers 3) = (ingested two_fibers 3, OK row) ∧
           m !! 0%nat = Some row.
Proof.
  destruct (ingested_pts_per_fiber _ _ _ two_fibers_ingestion) as (Hn & _ & _).
  destruct (getScalars_rows [1; 1] "x" 3 (ingested two_fibers 3) Hn ltac:(lia))
    as (m & Hrun & Hlen & Hrows).
  - intros f p Hf Hp.
    assert (Hs : is_Some (stored_point (ingested two_fibers 3) f p)).
    { apply (ingested_stored_points two_fibers 3 _ f p two_fibers_ingestion); [|exact Hp].
      rewrite !elem_of_cons, elem_of_nil in Hf. change (GetNumberOfLines two_fibers) with 2.
      lia. }
    destruct Hs as [pt Hs]. apply stored_point_inv in Hs as (Hx & _). rewrite Hx.
    eexists; reflexivity.
  - exists m. split; [exact Hrun|]. split; [exact Hlen|].
    destruct (Hrows 0%nat 1 eq_refl) as (row & Hg & Hm & _).
    exists row. split; [exact Hg|exact Hm].
Defined.

(** ** Ingestion followed by extraction or export *)

(** After ingestion of a well-formed geometry, every sample of a fiber is
    one of the points of that fiber. *)
Lemma ingested_points g n :
  well_formed g → 2 ≤ n < 2 ^ 53 →
  ∃ self, convertFromVTK g (Some n) new_FiberTree = (self, OK tt) ∧
    no_of_fibers self = Some (GetNumberOfLines g) ∧ pts_per_fiber self = Some n ∧
    ∀ (f : nat) ptIds p, GetLines g !! f = Some ptIds → 0 ≤ p < n →
      ∃ id pt, id ∈ ptIds ∧ GetPoint (GetPoints g) id = OK pt ∧
               stored_point self (Z.of_nat f) p = Some pt.
Proof.
  intros Hwf Hn.
  destruct (ingested_samples g n Hwf Hn) as (self & Hrun & Hnf & Hpts & Hall).
  exists self. split; [exact Hrun|]. split; [exact Hnf|]. split; [exact Hpts|].
  intros f ptIds p Hline Hp.
  destruct (Hall f ptIds Hline) as (positions & _ & Hlen & Hpos).
  destruct (lookup_lt_is_Some_2 positions (Z.to_nat p) ltac:(lia)) as [pos Hlk].
  destruct (Hpos _ _ Hlk) as (k & id & pt & _ & _ & Hid & Hpt & Hst).
  apply GetId_lookup in Hid as [_ Hid].
  exists id, pt. split; [eapply list_elem_of_lookup_2; exact Hid|].
  split; [exact Hpt|]. rewrite Z2Nat.id in Hst by lia. exact Hst.
Qed.

(** X9.  After [convertFromVTK] of a well-formed geometry with
    [2 <= pts_per_fiber < 2^53], [getFiber] returns for every fiber three
    arrays of [pts_per_fiber] coordinates, and the point at each index is one
    of the points of that fiber in the geometry: resampling never invents a
    coordinate. *)
Theorem convertFromVTK_then_getFiber g n :
  well_formed g → 2 ≤ n < 2 ^ 53 →
  ∃ self, convertFromVTK g (Some n) new_FiberTree = (self, OK tt) ∧
    ∀ (f : nat) ptIds, GetLines g !! f = Some ptIds →
      ∃ xs ys zs,
        getFiber (Z.of_nat f) self = (self, OK (xs, ys, zs)) ∧
        Z.of_nat (length xs) = n ∧ Z.of_nat (length ys) = n ∧ Z.of_nat (length zs) = n ∧
        ∀ (p : nat) x, xs !! p = Some x →
          ∃ id y z, id ∈ ptIds ∧ GetPoint (GetPoints g) id = OK (x, y, z) ∧
                    ys !! p = Some y ∧ zs !! p = Some z.
Proof.
  intros Hwf Hn.
  destruct (ingested_points g n Hwf Hn) as (self & Hrun & _ & Hpts & Hall).
  exists self. split; [exact Hrun|]. intros f ptIds Hline.
  pose (P := fun p => default (float_zero, float_zero, float_zero)
                              (stored_point self (Z.of_nat f) p)).
  assert (HP : ∀ p, 0 ≤ p < n → stored_point self (Z.of_nat f) p = Some (P p)).
  { intros p Hp. unfold P. destruct (Hall f ptIds p Hline Hp) as (id & pt & _ & _ & ->).
    reflexivity. }
  eexists _, _, _. split; [apply (getFiber_ok (Z.of_nat f) n P self Hpts ltac:(lia) HP)|].
  rewrite !length_map, length_range. repeat (split; [lia|]).
  intros p x Hx. change (map ?h ?l) with (h <$> l) in Hx |- *.
  rewrite list_lookup_fmap in Hx. rewrite !list_lookup_fmap.
  destruct (range 0 n !! p) as [q|] eqn:Hq; [|discriminate].
  cbn [fmap option_fmap option_map] in Hx |- *. injection Hx as <-.
  apply list_elem_of_lookup_2, elem_of_range in Hq.
  destruct (Hall f ptIds q Hline Hq) as (id & pt & Hid & Hpt & Hst).
  rewrite (HP q Hq) in Hst. injection Hst as Hst. rewrite Hst.
  exists id, (pt.1.2), (pt.2). split; [exact Hid|].
  destruct pt as [[x y] z]. split; [exact Hpt|]. split; reflexivity.
Qed.

Lemma convertFromVTK_then_getFiber_witness :
  ∃ self, convertFromVTK two_fibers (Some 5) new_FiberTree = (self, OK tt) ∧
    ∃ xs ys zs, getFiber 1 self = (self, OK (xs, ys, zs)) ∧ Z.of_nat (length xs) = 5.
Proof.
  destruct (convertFromVTK_then_getFiber two_fibers 5 two_fibers_well_formed ltac:(lia))
    as (self & Hrun & Hall).
  exists self. split; [exact Hrun|].
  destruct (Hall 1%nat [3; 4; 2] eq_refl) as (xs & ys & zs & Hg & Hlen & _).
  exists xs, ys, zs. split; [exact Hg|exact Hlen].
Defined.

(** X10.  [convertFromVTK] of a well-formed geometry followed by
    [convertToVTK()] gives a geometry with as many fibers, each of
    [pts_per_fiber] points, and every point of an exported fiber is a point
    of the same fiber of the input, rounded to binary32. *)
Theorem convertFromVTK_then_convertToVTK g n :
  well_formed g → 2 ≤ n < 2 ^ 53 →
  ∃ self out coords,
    convertFromVTK g (Some n) new_FiberTree = (self, OK tt) ∧
    convertToVTK [] self = (self, OK out) ∧
    fiber_coords out = OK coords ∧
    length coords = length (GetLines g) ∧
    ∀ (f : nat) ptIds row, GetLines g !! f = Some ptIds → coords !! f = Some row →
      Z.of_nat (length row) = n ∧
      ∀ pt, pt ∈ row →
        ∃ id pt0, id ∈ ptIds ∧ GetPoint (GetPoints g) id = OK pt0 ∧ pt = point32 pt0.
Proof.
  intros Hwf Hn.
  destruct (ingested_points g n Hwf Hn) as (self & Hrun & Hnf & Hpts & Hall).
  pose (P := fun f p => default (float_zero, float_zero, float_zero) (stored_point self f p)).
  assert (HP : ∀ f p, 0 ≤ f < GetNumberOfLines g → 0 ≤ p < n →
                 stored_point self f p = Some (P f p)).
  { intros f p Hf Hp. unfold P, GetNumberOfLines in *.
    destruct (lookup_lt_is_Some_2 (GetLines g) (Z.to_nat f) ltac:(lia)) as [ptIds Hline].
    destruct (Hall _ ptIds p Hline Hp) as (id & pt & _ & _ & Hst).
    rewrite Z2Nat.id in Hst by lia. rewrite Hst. reflexivity. }
  destruct (convertToVTK_spec self (GetNumberOfLines g) n P Hnf Hpts HP) as (out & Hout & Hco).
  eexists self, out, _. split; [exact Hrun|]. split; [exact Hout|]. split; [exact Hco|].
  split.
  { rewrite length_map, length_range. unfold GetNumberOfLines. lia. }
  intros f ptIds row Hline Hrow.
  change (map ?h ?l) with (h <$> l) in Hrow. rewrite list_lookup_fmap in Hrow.
  destruct (range 0 (GetNumberOfLines g) !! f) as [f'|] eqn:Hf; [|discriminate].
  cbn [fmap option_fmap option_map] in Hrow. injection Hrow as <-.
  unfold range in Hf. apply lookup_seqZ in Hf as [-> Hlt].
  rewrite Z.add_0_l. split.
  { rewrite length_map, length_range. lia. }
  intros pt Hin. change (map ?h ?l) with (h <$> l) in Hin.
  apply list_elem_of_fmap in Hin as (p & -> & Hp). apply elem_of_range in Hp.
  destruct (Hall f ptIds p Hline Hp) as (id & pt & Hid & Hpt & Hst).
  exists id, pt. split; [exact Hid|]. split; [exact Hpt|]. unfold P. rewrite Hst.
  reflexivity.
Qed.

Lemma convertFromVTK_then_convertToVTK_witness :
  ∃ self out coords,
    convertFromVTK two_fibers (Some 5) new_FiberTree = (self, OK tt) ∧
    convertToVTK [] self = (self, OK out) ∧
    fiber_coords out = OK coords ∧ length coords = 2%nat.
Proof.
  destruct (convertFromVTK_then_convertToVTK two_fibers 5 two_fibers_well_formed ltac:(lia))
    as (self & out & coords & Hrun & Hout & Hco & Hlen & _).
  exists self, out, coords. repeat (split; [assumption|]). exact Hlen.
Defined.

(** ** [convertFromTuple] and [getFibers] *)

Lemma py_getitem_inside {A} (l : list A) i :
  0 ≤ i < Z.of_nat (length l) →
  ∃ a, l !! Z.to_nat i = Some a ∧ py_getitem l i = OK a.
Proof.
  intros Hi. destruct (lookup_lt_is_Some_2 l (Z.to_nat i) ltac:(lia)) as [a Ha].
  exists a. split; [exact Ha|]. unfold py_getitem. cbv zeta.
  rewrite !(proj2 (Z.ltb_ge i 0)) by lia. rewrite Ha. reflexivity.
Qed.

Lemma getitem2_entry m rows cols f p :
  length m = rows → (∀ row, row ∈ m → length row = cols) →
  0 ≤ f < Z.of_nat rows → 0 ≤ p < Z.of_nat cols →
  getitem2 m f p = OK (entry m f p).
Proof.
  intros Hrows Hcols Hf Hp. unfold getitem2, entry.
  destruct (py_getitem_inside m f ltac:(lia)) as (row & Hrow & ->). cbn [bindR].
  pose proof (Hcols row (list_elem_of_lookup_2 _ _ _ Hrow)) as Hlen.
  destruct (py_getitem_inside row p ltac:(lia)) as (x & Hx & ->).
  rewrite Hrow. cbn. rewrite Hx. reflexivity.
Qed.

(** A matrix is the table of its entries. *)
Lemma matrix_entries m rows cols :
  length m = rows → (∀ row, row ∈ m → length row = cols) →
  map (fun f => map (fun p => entry m f p) (range 0 (Z.of_nat cols)))
      (range 0 (Z.of_nat rows)) = m.
Proof.
  intros Hrows Hcols. apply list_eq. intros i.
  change (map ?h ?l) with (h <$> l). rewrite list_lookup_fmap. unfold range.
  rewrite !Z.sub_0_r.
  destruct (m !! i) as [row|] eqn:Hrow.
  - pose proof (lookup_lt_Some _ _ _ Hrow) as Hi.
    rewrite lookup_seqZ_lt by lia. cbn [fmap option_fmap option_map]. f_equal.
    pose proof (Hcols row (list_elem_of_lookup_2 _ _ _ Hrow)) as Hlen.
    apply list_eq. intros j. rewrite list_lookup_fmap.
    destruct (row !! j) as [x|] eqn:Hx.
    + pose proof (lookup_lt_Some _ _ _ Hx) as Hj.
      rewrite lookup_seqZ_lt by lia. cbn [fmap option_fmap option_map]. f_equal.
      unfold entry. rewrite !Z.add_0_l, !Nat2Z.id, Hrow. cbn. rewrite Hx. reflexivity.
    + apply lookup_ge_None_1 in Hx. rewrite lookup_seqZ_ge by lia. reflexivity.
  - apply lookup_ge_None_1 in Hrow. rewrite lookup_seqZ_ge by lia. reflexivity.
Qed.

(** Storing the points [P f p] for [p] in [ps], then for [f] in [fs]. *)
Lemma store_points_inner (P : Z → point) f (ps : list Z) : ∀ self,
  depth3 self →
  ∃ self', foldM ps (fun p (_ : unit) => store_point f p (P p)) tt self = (self', OK tt) ∧
    depth3 self' ∧
    no_of_fibers self' = no_of_fibers self ∧
    pts_per_fiber self' = pts_per_fiber self ∧
    ∀ f' p' a, float_at (at_point f' p' a) self' =
      if bool_decide (f' = f ∧ p' ∈ ps ∧ a ∈ ["x"; "y"; "z"]%string)
      then Some (coord a (P p'))
      else float_at (at_point f' p' a) self.
Proof.
  induction ps as [|p ps IH]; intros self Hd.
  - exists self. split; [reflexivity|]. split; [exact Hd|]. split; [reflexivity|].
    split; [reflexivity|]. intros f' p' a.
    rewrite bool_decide_eq_false_2; [reflexivity|].
    intros (_ & Hin & _). apply elem_of_nil in Hin. exact Hin.
  - destruct (store_point_spec f p (P p) self Hd) as (s1 & H1 & Hd1 & Hn1 & Hp1 & Hf1).
    destruct (IH s1 Hd1) as (s2 & H2 & Hd2 & Hn2 & Hp2 & Hf2).
    exists s2. split.
    { cbn [foldM]. erewrite bindM_ok by exact H1. exact H2. }
    split; [exact Hd2|]. split; [congruence|]. split; [congruence|].
    intros f' p' a. rewrite Hf2, Hf1.
    destruct (decide (f' = f ∧ p' ∈ ps ∧ a ∈ ["x"; "y"; "z"]%string)) as [(Hf & Hin & Ha)|Hn].
    { rewrite !bool_decide_eq_true_2; [reflexivity| |].
      - split; [exact Hf|]. split; [right; exact Hin|exact Ha].
      - split; [exact Hf|]. split; [exact Hin|exact Ha]. }
    rewrite (bool_decide_eq_false_2 _ Hn).
    destruct (decide (f' = f ∧ p' = p ∧ a ∈ ["x"; "y"; "z"]%string)) as [(Hf & -> & Ha)|Hn'].
    { rewrite !bool_decide_eq_true_2; [reflexivity| |].
      - split; [exact Hf|]. split; [left|exact Ha].
      - split; [exact Hf|]. split; [reflexivity|exact Ha]. }
    rewrite (bool_decide_eq_false_2 _ Hn').
    rewrite bool_decide_eq_false_2; [reflexivity|].
    intros (Hf & Hin & Ha). apply elem_of_cons in Hin as [->|Hin].
    + apply Hn'. auto.
    + apply Hn. auto.
Qed.

Lemma foldM_ext_in {A S} (l : list A) (b1 b2 : A → S → M S) :
  (∀ x s self, x ∈ l → b1 x s self = b2 x s self) →
  ∀ s self, foldM l b1 s self = foldM l b2 s self.
Proof.
  induction l as [|x l IH]; intros H s self; [reflexivity|].
  cbn [foldM]. unfold bindM. rewrite (H x s self) by left.
  destruct (b2 x s self) as [mid [s'|e]]; [|reflexivity].
  apply IH. intros y t st Hy. apply H. right. exact Hy.
Qed.

Lemma store_points_outer (P : Z → Z → point) n (body : Z → unit → M unit) (fs : list Z) :
  (∀ f self, f ∈ fs → pts_per_fiber self = Some n →
     body f tt self =
     foldM (range 0 n) (fun p (_ : unit) => store_point f p (P f p)) tt self) →
  ∀ self,
  depth3 self → pts_per_fiber self = Some n →
  ∃ self',
    foldM fs body tt self = (self', OK tt) ∧
    depth3 self' ∧
    no_of_fibers self' = no_of_fibers self ∧
    pts_per_fiber self' = pts_per_fiber self ∧
    ∀ f' p' a, float_at (at_point f' p' a) self' =
      if bool_decide (f' ∈ fs ∧ 0 ≤ p' < n ∧ a ∈ ["x"; "y"; "z"]%string)
      then Some (coord a (P f' p'))
      else float_at (at_point f' p' a) self.
Proof.
  induction fs as [|f fs IH]; intros Hbody self Hd Hn.
  - exists self. split; [reflexivity|]. split; [exact Hd|]. split; [reflexivity|].
    split; [reflexivity|]. intros f' p' a.
    rewrite bool_decide_eq_false_2; [reflexivity|].
    intros (Hin & _). apply elem_of_nil in Hin. exact Hin.
  - destruct (store_points_inner (P f) f (range 0 n) self Hd)
      as (s1 & H1 & Hd1 & Hn1 & Hp1 & Hf1).
    destruct (IH ltac:(intros g st Hg; apply Hbody; right; exact Hg)
                s1 Hd1 ltac:(congruence)) as (s2 & H2 & Hd2 & Hn2 & Hp2 & Hf2).
    exists s2. split.
    { cbn [foldM]. erewrite bindM_ok; [exact H2|].
      rewrite (Hbody f self ltac:(left) Hn). exact H1. }
    split; [exact Hd2|]. split; [congruence|]. split; [congruence|].
    intros f' p' a. rewrite Hf2, Hf1.
    destruct (decide (f' ∈ fs ∧ 0 ≤ p' < n ∧ a ∈ ["x"; "y"; "z"]%string))
      as [(Hin & Hp & Ha)|Hno].
    { rewrite !bool_decide_eq_true_2; [reflexivity| |].
      - split; [right; exact Hin|]. split; assumption.
      - split; [exact Hin|]. split; assumption. }
    rewrite (bool_decide_eq_false_2 _ Hno).
    destruct (decide (f' = f ∧ p' ∈ range 0 n ∧ a ∈ ["x"; "y"; "z"]%string))
      as [(-> & Hp & Ha)|Hno'].
    { apply elem_of_range in Hp.
      rewrite !bool_decide_eq_true_2; [reflexivity| |].
      - split; [left|]. split; assumption.
      - split; [reflexivity|]. split; [apply elem_of_range; exact Hp|exact Ha]. }
    rewrite (bool_decide_eq_false_2 _ Hno').
    rewrite bool_decide_eq_false_2; [reflexivity|].
    intros (Hin & Hp & Ha). apply elem_of_cons in Hin as [->|Hin].
    + apply Hno'. split; [reflexivity|]. split; [apply elem_of_range; exact Hp|exact Ha].
    + apply Hno. auto.
Qed.

(** What [convertFromTuple] builds from three matrices of [rows >= 1] rows
    and [cols] columns. *)
Lemma convertFromTuple_spec t rows cols :
  rectangular rows cols t → (1 ≤ rows)%nat →
  ∃ self, convertFromTuple t = OK self ∧
    depth3 self ∧
    no_of_fibers self = Some (Z.of_nat rows) ∧
    pts_per_fiber self = Some (Z.of_nat cols) ∧
    ∀ f p a, float_at (at_point f p a) self =
      if bool_decide (0 ≤ f < Z.of_nat rows ∧ 0 ≤ p < Z.of_nat cols ∧
                      a ∈ ["x"; "y"; "z"]%string)
      then Some (coord a (tuple_point t f p)) else None.
Proof.
  intros Hrect Hrows.
  assert (Hx := Hrect t.1.1 ltac:(rewrite !elem_of_cons; auto)).
  assert (Hy := Hrect t.1.2 ltac:(rewrite !elem_of_cons; auto)).
  assert (Hz := Hrect t.2 ltac:(rewrite !elem_of_cons; auto)).
  destruct Hx as [Hxr Hxc]. destruct Hy as [Hyr Hyc]. destruct Hz as [Hzr Hzc].
  unfold convertFromTuple.
  destruct (py_getitem_inside t.1.1 0 ltac:(lia)) as (row0 & Hrow0 & ->). cbn [bindR].
  rewrite (Hxc row0 (list_elem_of_lookup_2 _ _ _ Hrow0)), Hxr.
  set (self1 := {| fiberTree := fiberTree new_FiberTree;
                   no_of_fibers := Some (Z.of_nat rows);
                   pts_per_fiber := Some (Z.of_nat cols) |}).
  assert (Hd1 : depth3 self1).
  { intros q x Hq. apply (depth3_new q x). exact Hq. }
  match goal with
  | |- context [foldM (range 0 _) ?b tt] =>
      destruct (store_points_outer (tuple_point t) (Z.of_nat cols) b
                  (range 0 (Z.of_nat rows))) with (self := self1)
        as (self & Hrun & Hd & Hnf & Hpts & Hfl)
  end.
  { intros f st Hf Hn. apply elem_of_range in Hf.
    erewrite bindM_ok by (unfold self_pts_per_fiber; rewrite Hn; reflexivity).
    apply foldM_ext_in. intros p [] st2 Hp. apply elem_of_range in Hp.
    rewrite (getitem2_entry t.1.1 rows cols f p Hxr Hxc Hf Hp).
    rewrite (getitem2_entry t.1.2 rows cols f p Hyr Hyc Hf Hp).
    rewrite (getitem2_entry t.2 rows cols f p Hzr Hzc Hf Hp).
    reflexivity. }
  { exact Hd1. }
  { reflexivity. }
  erewrite bindM_ok by reflexivity.
  rewrite Hrun.
  exists self. split; [reflexivity|]. split; [exact Hd|]. split; [exact Hnf|].
  split; [exact Hpts|].
  intros f p a. rewrite Hfl.
  replace (float_at (at_point f p a) self1) with (@None float)
    by (symmetry; apply obj_float_at_empty).
  erewrite bool_decide_ext; [reflexivity|]. rewrite elem_of_range. tauto.
Qed.

Lemma stored_point_of_floats self f p (pt : point) :
  (∀ a, a ∈ ["x"; "y"; "z"]%string → float_at (at_point f p a) self = Some (coord a pt)) →
  stored_point self f p = Some pt.
Proof.
  intros H. unfold stored_point.
  rewrite (H "x"%string), (H "y"%string), (H "z"%string)
    by (rewrite !elem_of_cons; auto).
  destruct pt as [[x y] z]. reflexivity.
Qed.

Lemma convertFromTuple_points t rows cols :
  rectangular rows cols t → (1 ≤ rows)%nat →
  ∃ self, convertFromTuple t = OK self ∧
    no_of_fibers self = Some (Z.of_nat rows) ∧
    pts_per_fiber self = Some (Z.of_nat cols) ∧
    (∀ f p, 0 ≤ f < Z.of_nat rows → 0 ≤ p < Z.of_nat cols →
       stored_point self f p = Some (tuple_point t f p)) ∧
    (∀ f p a, ¬ (0 ≤ f < Z.of_nat rows ∧ 0 ≤ p < Z.of_nat cols ∧
                  a ∈ ["x"; "y"; "z"]%string) →
       float_at (at_point f p a) self = None).
Proof.
  intros Hrect Hrows.
  destruct (convertFromTuple_spec t rows cols Hrect Hrows)
    as (self & Hrun & _ & Hnf & Hn & Hfl).
  exists self. repeat (split; [assumption|]). split.
  - intros f p Hf Hp. apply stored_point_of_floats. intros a Ha.
    rewrite Hfl, bool_decide_eq_true_2; [reflexivity|]. auto.
  - intros f p a Hno. rewrite Hfl, bool_decide_eq_false_2; [reflexivity|exact Hno].
Qed.

Lemma entry_table (g : Z → Z → float) (fidxes : list Z) n k f p :
  fidxes !! k = Some f → 0 ≤ p < n →
  entry (map (fun f => map (g f) (range 0 n)) fidxes) (Z.of_nat k) p = g f p.
Proof.
  intros Hk Hp. unfold entry. rewrite Nat2Z.id.
  change (map ?h fidxes) with (h <$> fidxes). rewrite list_lookup_fmap, Hk. cbn.
  change (map ?h (range 0 n)) with (h <$> range 0 n). rewrite list_lookup_fmap.
  unfold range. rewrite lookup_seqZ_lt by lia. cbn. f_equal. lia.
Qed.

Lemma rectangular_table (gx gy gz : Z → Z → float) (fidxes : list Z) n :
  0 ≤ n →
  rectangular (length fidxes) (Z.to_nat n)
    (map (fun f => map (gx f) (range 0 n)) fidxes,
     map (fun f => map (gy f) (range 0 n)) fidxes,
     map (fun f => map (gz f) (range 0 n)) fidxes).
Proof.
  intros Hn m Hm. cbn [fst snd] in Hm.
  assert (Hone : ∀ g : Z → Z → float,
            length (map (fun f => map (g f) (range 0 n)) fidxes) = length fidxes ∧
            ∀ row, row ∈ map (fun f => map (g f) (range 0 n)) fidxes →
                   length row = Z.to_nat n).
  { intros g. split; [apply length_map|]. intros row Hrow.
    change (map ?h fidxes) with (h <$> fidxes) in Hrow.
    apply list_elem_of_fmap in Hrow as (f & -> & _).
    rewrite length_map, length_range. f_equal. lia. }
  rewrite !elem_of_cons, elem_of_nil in Hm.
  destruct Hm as [->|[->|[->|[]]]]; apply Hone.
Qed.

(** X11. The matrices that [getFibers] returns for all the fibers of the
    store that [convertFromTuple] builds are the matrices it was built from:
    for a tuple of three matrices of [rows >= 1] rows and [cols] columns,
    [convertFromTuple] returns a store of [rows] fibers of [cols] points that
    holds no other number, and [getFibers (range rows)] on it returns the
    tuple and leaves the store as it is. *)
Theorem convertFromTuple_then_getFibers t rows cols :
  rectangular rows cols t → (1 ≤ rows)%nat →
  ∃ self, convertFromTuple t = OK self ∧
    no_of_fibers self = Some (Z.of_nat rows) ∧
    pts_per_fiber self = Some (Z.of_nat cols) ∧
    (∀ f p a, ¬ (0 ≤ f < Z.of_nat rows ∧ 0 ≤ p < Z.of_nat cols ∧
                  a ∈ ["x"; "y"; "z"]%string) →
       float_at (at_point f p a) self = None) ∧
    getFibers (range 0 (Z.of_nat rows)) [] self = (self, OK t).
Proof.
  intros Hrect Hrows.
  destruct (convertFromTuple_points t rows cols Hrect Hrows)
    as (self & Hrun & Hnf & Hn & Hpts & Hnone).
  exists self. repeat (split; [assumption|]).
  rewrite (getFibers_ok (range 0 (Z.of_nat rows)) [] (Z.of_nat cols) (tuple_point t) self
             Hn ltac:(lia)).
  - f_equal. f_equal.
    destruct (Hrect t.1.1 ltac:(rewrite !elem_of_cons; auto)) as [Hxr Hxc].
    destruct (Hrect t.1.2 ltac:(rewrite !elem_of_cons; auto)) as [Hyr Hyc].
    destruct (Hrect t.2 ltac:(rewrite !elem_of_cons; auto)) as [Hzr Hzc].
    unfold tuple_point. cbn [fst snd].
    rewrite (matrix_entries t.1.1 rows cols Hxr Hxc).
    rewrite (matrix_entries t.1.2 rows cols Hyr Hyc).
    rewrite (matrix_entries t.2 rows cols Hzr Hzc).
    destruct t as [[tx ty] tz]. reflexivity.
  - intros f _. apply not_elem_of_nil.
  - intros f p Hf Hp. apply elem_of_range in Hf. apply Hpts; lia.
Qed.

Lemma convertFromTuple_then_getFibers_witness :
  ∃ self,
    convertFromTuple ([[fl 1; fl 2]; [fl 3; fl 4]], [[fl 5; fl 6]; [fl 7; fl 8]],
                      [[fl 0; fl 0]; [fl 9; fl 9]]) = OK self ∧
    getFibers [0; 1] [] self
    = (self, OK ([[fl 1; fl 2]; [fl 3; fl 4]], [[fl 5; fl 6]; [fl 7; fl 8]],
                 [[fl 0; fl 0]; [fl 9; fl 9]])).
Proof.
  destruct (convertFromTuple_then_getFibers
              ([[fl 1; fl 2]; [fl 3; fl 4]], [[fl 5; fl 6]; [fl 7; fl 8]],
               [[fl 0; fl 0]; [fl 9; fl 9]]) 2 2)
    as (self & Hrun & _ & _ & _ & Hget).
  - intros m Hm. cbn [fst snd] in Hm. rewrite !elem_of_cons, elem_of_nil in Hm.
    destruct Hm as [->|[->|[->|[]]]]; (split; [reflexivity|]);
      intros row Hrow; rewrite !elem_of_cons, elem_of_nil in Hrow;
      destruct Hrow as [->|[->|[]]]; reflexivity.
  - lia.
  - exists self. split; [exact Hrun|exact Hget].
Defined.

(** X12. A selection of fibers extracted with [getFibers] and given to
    [convertFromTuple] becomes a store of its own, numbered from 0 in the
    order of the selection: when the store holds the points of the fibers
    [fidxes] (at least one, none excluded), the new store has
    [len(fidxes)] fibers of the same number of points, and its fiber [k]
    has the points of fiber [fidxes[k]]. *)
Theorem getFibers_then_convertFromTuple fidxes rejIdx n self :
  pts_per_fiber self = Some n → 0 ≤ n →
  fidxes ≠ [] →
  (∀ f, f ∈ fidxes → f ∉ rejIdx) →
  (∀ f p, f ∈ fidxes → 0 ≤ p < n → ∃ pt, stored_point self f p = Some pt) →
  ∃ t new,
    getFibers fidxes rejIdx self = (self, OK t) ∧
    convertFromTuple t = OK new ∧
    no_of_fibers new = Some (Z.of_nat (length fidxes)) ∧
    pts_per_fiber new = Some n ∧
    ∀ (k : nat) f p, fidxes !! k = Some f → 0 ≤ p < n →
      stored_point new (Z.of_nat k) p = stored_point self f p.
Proof.
  intros Hn Hpos Hne Hrej Hall.
  set (P := fun f p => default (float_zero, float_zero, float_zero) (stored_point self f p)).
  assert (HP : ∀ f p, f ∈ fidxes → 0 ≤ p < n → stored_point self f p = Some (P f p)).
  { intros f p Hf Hp. unfold P. destruct (Hall f p Hf Hp) as [pt ->]. reflexivity. }
  pose proof (getFibers_ok fidxes rejIdx n P self Hn Hpos Hrej HP) as Hget.
  pose proof (rectangular_table (fun f p => (P f p).1.1) (fun f p => (P f p).1.2)
                (fun f p => (P f p).2) fidxes n Hpos) as Hrect.
  assert (Hrows : (1 ≤ length fidxes)%nat).
  { destruct fidxes; [congruence|]. cbn. lia. }
  destruct (convertFromTuple_points _ _ _ Hrect Hrows)
    as (new & Hrun & Hnf & Hpts & Hst & _).
  eexists _, new. split; [exact Hget|]. split; [exact Hrun|]. split; [exact Hnf|].
  split; [rewrite Hpts, Z2Nat.id by lia; reflexivity|].
  intros k f p Hk Hp.
  rewrite Hst.
  - rewrite (HP f p (list_elem_of_lookup_2 _ _ _ Hk) Hp). f_equal.
    unfold tuple_point. cbn [fst snd].
    rewrite !(entry_table _ fidxes n k f p Hk Hp).
    destruct (P f p) as [[x y] z]. reflexivity.
  - apply lookup_lt_Some in Hk. lia.
  - rewrite Z2Nat.id by lia. exact Hp.
Qed.

Lemma getFibers_then_convertFromTuple_witness :
  ∃ t new,
    getFibers [1] [] (ingested two_fibers 3) = (ingested two_fibers 3, OK t) ∧
    convertFromTuple t = OK new ∧
    no_of_fibers new = Some 1 ∧
    stored_point new 0 2 = stored_point (ingested two_fibers 3) 1 2.
Proof.
  destruct (ingested_pts_per_fiber _ _ _ two_fibers_ingestion) as (Hn & _ & _).
  destruct (getFibers_then_convertFromTuple [1] [] 3 (ingested two_fibers 3) Hn
              ltac:(lia) ltac:(discriminate))
    as (t & new & Hget & Hrun & Hnf & _ & Hpts).
  - intros f _. apply not_elem_of_nil.
  - intros f p Hf Hp. apply list_elem_of_singleton in Hf as ->.
    apply (ingested_stored_points two_fibers 3 _ 1 p two_fibers_ingestion); [|exact Hp].
    change (GetNumberOfLines two_fibers) with 2. lia.
  - exists t, new. split; [exact Hget|]. split; [exact Hrun|]. split; [exact Hnf|].
    apply (Hpts 0%nat 1 2); [reflexivity|lia].
Defined.

(** X13. [convertFromTuple] needs a first fiber: on a tuple whose first
    matrix has no row, [fiberTuple[0][0]] raises IndexError.  The matrices
    that [getFibers] returns for an empty list of fibers are of this kind,
    whatever the store and the excluded fibers. *)
Theorem getFibers_nothing_then_convertFromTuple rejIdx n self :
  pts_per_fiber self = Some n → 0 ≤ n →
  (∀ t, t.1.1 = [] → convertFromTuple t = Raise IndexError) ∧
  ∃ t, getFibers [] rejIdx self = (self, OK t) ∧
       t.1.1 = [] ∧ convertFromTuple t = Raise IndexError.
Proof.
  intros Hn Hpos.
  assert (Hempty : ∀ t : matrix3, t.1.1 = [] → convertFromTuple t = Raise IndexError).
  { intros t Ht. unfold convertFromTuple. rewrite Ht. reflexivity. }
  split; [exact Hempty|].
  exists ([], [], []). split; [|split; [reflexivity|apply Hempty; reflexivity]].
  apply (getFibers_ok [] rejIdx n (fun _ _ => (float_zero, float_zero, float_zero)) self Hn Hpos).
  - intros f Hf. apply elem_of_nil in Hf. contradiction.
  - intros f p Hf. apply elem_of_nil in Hf. contradiction.
Qed.

Lemma getFibers_nothing_then_convertFromTuple_witness :
  ∃ t, getFibers [] [0] (ingested two_fibers 3) = (ingested two_fibers 3, OK t) ∧
       convertFromTuple t = Raise IndexError.
Proof.
  destruct (ingested_pts_per_fiber _ _ _ two_fibers_ingestion) as (Hn & _ & _).
  destruct (getFibers_nothing_then_convertFromTuple [0] 3 _ Hn ltac:(lia))
    as (_ & t & Hget & _ & Hraise).
  exists t. split; assumption.
Defined.

(** ** [copyScalar] *)

Lemma bind2_ok {A B} (m : M2 A) (k : A → M2 B) st st' a :
  m st = (st', OK a) → bind2 m k st = k a st'.
Proof. intros H. unfold bind2. rewrite H. reflexivity. Qed.

Lemma not_rejected_cons_in rejIdx f fs :
  f ∈ rejIdx → not_rejected rejIdx (f :: fs) = not_rejected rejIdx fs.
Proof.
  intros H. unfold not_rejected. cbn [List.filter].
  rewrite (bool_decide_eq_true_2 _ H). reflexivity.
Qed.

Lemma not_rejected_cons_out rejIdx f fs :
  f ∉ rejIdx → not_rejected rejIdx (f :: fs) = f :: not_rejected rejIdx fs.
Proof.
  intros H. unfold not_rejected. cbn [List.filter].
  rewrite (bool_decide_eq_false_2 _ H). reflexivity.
Qed.

Lemma elem_of_not_rejected rejIdx fs f :
  f ∈ not_rejected rejIdx fs ↔ f ∈ fs ∧ f ∉ rejIdx.
Proof.
  unfold not_rejected. rewrite list_elem_of_In, filter_In, <- list_elem_of_In.
  rewrite negb_true_iff, bool_decide_eq_false. reflexivity.
Qed.

(** The points of one fiber, copied under one name. *)
Lemma copy_points Type_ fidx idx (V : Z → float) (ps : list Z) fiberData : ∀ self,
  depth3 self →
  (∀ p, p ∈ ps → float_at (at_point fidx p Type_) fiberData = Some (V p)) →
  ∃ self',
    foldM2 ps
      (fun pidx (_ : unit) =>
         bind2 (on_fiberData (read_float (at_point fidx pidx Type_))) (fun v =>
         on_self (write (at_point idx pidx Type_) (PyFloat v))))
      tt (self, fiberData) = ((self', fiberData), OK tt) ∧
    depth3 self' ∧
    no_of_fibers self' = no_of_fibers self ∧
    pts_per_fiber self' = pts_per_fiber self ∧
    ∀ f p a, float_at (at_point f p a) self' =
      if bool_decide (f = idx ∧ p ∈ ps ∧ a = Type_) then Some (V p)
      else float_at (at_point f p a) self.
Proof.
  induction ps as [|q ps IH]; intros self Hd Hsrc.
  - exists self. split; [reflexivity|]. split; [exact Hd|]. split; [reflexivity|].
    split; [reflexivity|]. intros f p a.
    rewrite bool_decide_eq_false_2; [reflexivity|].
    intros (_ & Hin & _). apply elem_of_nil in Hin. exact Hin.
  - destruct (write_spec idx q Type_ (V q) self Hd) as (s1 & H1 & Hd1 & Hn1 & Hp1 & Hf1).
    destruct (IH s1 Hd1 ltac:(intros p Hp; apply Hsrc; right; exact Hp))
      as (s2 & H2 & Hd2 & Hn2 & Hp2 & Hf2).
    exists s2. split.
    { cbn [foldM2]. erewrite bind2_ok; [exact H2|].
      erewrite bind2_ok.
      2: { unfold on_fiberData. cbn [fst snd].
           pose proof (read_float_spec (at_point fidx q Type_) fiberData) as Hr.
           rewrite (Hsrc q ltac:(left)) in Hr. rewrite Hr. reflexivity. }
      unfold on_self. cbn [fst snd]. rewrite H1. reflexivity. }
    split; [exact Hd2|]. split; [congruence|]. split; [congruence|].
    intros f p a. rewrite Hf2, Hf1.
    destruct (decide (f = idx ∧ p ∈ ps ∧ a = Type_)) as [(-> & Hin & ->)|Hno].
    { rewrite !bool_decide_eq_true_2; [reflexivity| |].
      - split; [reflexivity|]. split; [right; exact Hin|reflexivity].
      - auto. }
    rewrite (bool_decide_eq_false_2 _ Hno).
    destruct (decide (f = idx ∧ p = q ∧ a = Type_)) as [(-> & -> & ->)|Hno'].
    { rewrite !bool_decide_eq_true_2; [reflexivity| |].
      - split; [reflexivity|]. split; [left|reflexivity].
      - auto. }
    rewrite (bool_decide_eq_false_2 _ Hno').
    rewrite bool_decide_eq_false_2; [reflexivity|].
    intros (-> & Hin & ->). apply elem_of_cons in Hin as [->|Hin].
    + apply Hno'. auto.
    + apply Hno. auto.
Qed.

(** The loop over the fibers, started at any [idx]: the fibers that are not
    excluded land at [idx], [idx + 1], ... in their order. *)
Lemma copy_fibers_from Type_ (source rejIdx : list Z) n fiberData :
  pts_per_fiber fiberData = Some n →
  (∀ f p, f ∈ source → f ∉ rejIdx → 0 ≤ p < n →
     is_Some (float_at (at_point f p Type_) fiberData)) →
  ∀ idx self,
  depth3 self →
  ∃ self',
    foldM2 source
      (fun fidx idx =>
         if bool_decide (fidx ∈ rejIdx) then ret2 idx
         else
           bind2 (on_fiberData self_pts_per_fiber) (fun n =>
           bind2 (foldM2 (range 0 n)
                    (fun pidx (_ : unit) =>
                       bind2 (on_fiberData (read_float (at_point fidx pidx Type_))) (fun v =>
                       on_self (write (at_point idx pidx Type_) (PyFloat v))))
                    tt) (fun _ =>
           ret2 (idx + 1))))
      idx (self, fiberData)
    = ((self', fiberData),
       OK (idx + Z.of_nat (length (not_rejected rejIdx source)))) ∧
    depth3 self' ∧
    no_of_fibers self' = no_of_fibers self ∧
    pts_per_fiber self' = pts_per_fiber self ∧
    ∀ f p a, float_at (at_point f p a) self' =
      match (if bool_decide (idx ≤ f ∧ 0 ≤ p < n ∧ a = Type_)
             then not_rejected rejIdx source !! Z.to_nat (f - idx) else None) with
      | Some g => float_at (at_point g p Type_) fiberData
      | None => float_at (at_point f p a) self
      end.
Proof.
  intros Hn. induction source as [|g source IH]; intros Hsrc idx self Hd.
  - exists self. split; [cbn; unfold ret2; do 2 f_equal; lia|].
    split; [exact Hd|]. split; [reflexivity|]. split; [reflexivity|].
    intros f p a. cbn. destruct (bool_decide _); reflexivity.
  - destruct (decide (g ∈ rejIdx)) as [Hrej|Hrej].
    + destruct (IH ltac:(intros f p Hf; apply Hsrc; right; exact Hf) idx self Hd)
        as (s & Hrun & Hds & Hnf & Hp & Hfl).
      exists s. rewrite (not_rejected_cons_in _ _ _ Hrej).
      split; [|auto].
      cbn [foldM2]. erewrite bind2_ok; [exact Hrun|].
      rewrite (bool_decide_eq_true_2 _ Hrej). reflexivity.
    + set (V := fun p => default float_zero (float_at (at_point g p Type_) fiberData)).
      destruct (copy_points Type_ g idx V (range 0 n) fiberData self Hd)
        as (s1 & H1 & Hd1 & Hn1 & Hp1 & Hf1).
      { intros p Hp. apply elem_of_range in Hp. unfold V.
        destruct (Hsrc g p ltac:(left) Hrej Hp) as [v ->]. reflexivity. }
      destruct (IH ltac:(intros f p Hf; apply Hsrc; right; exact Hf) (idx + 1) s1 Hd1)
        as (s2 & H2 & Hd2 & Hn2 & Hp2 & Hf2).
      exists s2. rewrite (not_rejected_cons_out _ _ _ Hrej).
      split.
      { cbn [foldM2]. erewrite bind2_ok.
        - rewrite H2. do 2 f_equal. cbn [length]. lia.
        - rewrite (bool_decide_eq_false_2 _ Hrej).
          erewrite bind2_ok.
          2: { unfold on_fiberData, self_pts_per_fiber. cbn [fst snd]. rewrite Hn.
               reflexivity. }
          erewrite bind2_ok by exact H1. reflexivity. }
      split; [exact Hd2|]. split; [congruence|]. split; [congruence|].
      intros f p a. rewrite Hf2, Hf1.
      destruct (decide (idx ≤ f ∧ 0 ≤ p < n ∧ a = Type_)) as [(Hf & Hp & ->)|Hno].
      * rewrite (bool_decide_eq_true_2 (idx ≤ f ∧ _ ∧ _)) by auto.
        destruct (decide (f = idx)) as [->|Hne].
        -- rewrite (bool_decide_eq_false_2 (idx + 1 ≤ idx ∧ _ ∧ _)) by lia.
           rewrite bool_decide_eq_true_2
             by (split; [reflexivity|]; split; [apply elem_of_range; exact Hp|reflexivity]).
           rewrite Z.sub_diag. change (Z.to_nat 0) with 0%nat.
           cbn [lookup list_lookup]. unfold V.
           destruct (Hsrc g p ltac:(left) Hrej Hp) as [v ->]. reflexivity.
        -- rewrite (bool_decide_eq_true_2 (idx + 1 ≤ f ∧ _ ∧ _))
             by (split; [lia|]; split; [exact Hp|reflexivity]).
           replace (Z.to_nat (f - idx)) with (S (Z.to_nat (f - (idx + 1)))) by lia.
           cbn [lookup list_lookup].
           destruct (not_rejected rejIdx source !! Z.to_nat (f - (idx + 1))); [reflexivity|].
           rewrite bool_decide_eq_false_2; [reflexivity|]. intros (Heq & _). lia.
      * rewrite (bool_decide_eq_false_2 (idx ≤ f ∧ _ ∧ _)) by exact Hno.
        rewrite (bool_decide_eq_false_2 (idx + 1 ≤ f ∧ _ ∧ _))
          by (intros (? & ? & ?); apply Hno; split; [lia|auto]).
        rewrite bool_decide_eq_false_2; [reflexivity|].
        intros (-> & Hp & ->). apply elem_of_range in Hp. apply Hno.
        split; [lia|auto].
Qed.

Lemma copy_fibers_spec Type_ (source rejIdx : list Z) n fiberData self :
  pts_per_fiber fiberData = Some n →
  (∀ f p, f ∈ not_rejected rejIdx source → 0 ≤ p < n →
     is_Some (float_at (at_point f p Type_) fiberData)) →
  depth3 self →
  ∃ self' idx,
    copy_fibers Type_ source rejIdx (self, fiberData) = ((self', fiberData), OK idx) ∧
    depth3 self' ∧
    no_of_fibers self' = no_of_fibers self ∧
    pts_per_fiber self' = pts_per_fiber self ∧
    ∀ f p a, float_at (at_point f p a) self' =
      match (if bool_decide (0 ≤ f ∧ 0 ≤ p < n ∧ a = Type_)
             then not_rejected rejIdx source !! Z.to_nat f else None) with
      | Some g => float_at (at_point g p Type_) fiberData
      | None => float_at (at_point f p a) self
      end.
Proof.
  intros Hn Hsrc Hd.
  destruct (copy_fibers_from Type_ source rejIdx n fiberData Hn) with (idx := 0) (self := self)
    as (s & Hrun & Hds & Hnf & Hp & Hfl).
  - intros f p Hf Hrej Hpn. apply Hsrc; [|exact Hpn].
    apply elem_of_not_rejected. auto.
  - exact Hd.
  - exists s, (0 + Z.of_nat (length (not_rejected rejIdx source))).
    split; [exact Hrun|]. repeat (split; [assumption|]).
    intros f p a. rewrite Hfl, Z.sub_0_r. reflexivity.
Qed.

Lemma copyScalar_spec (scalarTypeArray : list string) fidxes rejIdx n nf fiberData :
  pts_per_fiber fiberData = Some n →
  (fidxes = [] → no_of_fibers fiberData = Some nf) →
  (∀ T f p, T ∈ scalarTypeArray → f ∈ copied fidxes rejIdx nf → 0 ≤ p < n →
     is_Some (float_at (at_point f p T) fiberData)) →
  ∀ self, depth3 self →
  ∃ self',
    copyScalar scalarTypeArray fidxes rejIdx (self, fiberData)
      = ((self', fiberData), OK tt) ∧
    depth3 self' ∧
    no_of_fibers self' = no_of_fibers self ∧
    pts_per_fiber self' = pts_per_fiber self ∧
    ∀ f p a, float_at (at_point f p a) self' =
      match (if bool_decide (0 ≤ f ∧ 0 ≤ p < n ∧ a ∈ scalarTypeArray)
             then copied fidxes rejIdx nf !! Z.to_nat f else None) with
      | Some g => float_at (at_point g p a) fiberData
      | None => float_at (at_point f p a) self
      end.
Proof.
  intros Hn Hnf. unfold copyScalar.
  induction scalarTypeArray as [|T types IH]; intros Hsrc self Hd.
  - exists self. split; [reflexivity|]. split; [exact Hd|]. split; [reflexivity|].
    split; [reflexivity|]. intros f p a.
    rewrite bool_decide_eq_false_2; [reflexivity|].
    intros (_ & _ & Hin). apply elem_of_nil in Hin. exact Hin.
  - assert (Hone : ∃ s1,
              (match fidxes with
               | _ :: _ => bind2 (copy_fibers T fidxes rejIdx) (fun _ => ret2 tt)
               | [] =>
                   bind2 (on_fiberData self_no_of_fibers) (fun nf =>
                   bind2 (copy_fibers T (range 0 nf) rejIdx) (fun _ => ret2 tt))
               end) (self, fiberData) = ((s1, fiberData), OK tt) ∧
              depth3 s1 ∧ no_of_fibers s1 = no_of_fibers self ∧
              pts_per_fiber s1 = pts_per_fiber self ∧
              ∀ f p a, float_at (at_point f p a) s1 =
                match (if bool_decide (0 ≤ f ∧ 0 ≤ p < n ∧ a = T)
                       then copied fidxes rejIdx nf !! Z.to_nat f else None) with
                | Some g => float_at (at_point g p T) fiberData
                | None => float_at (at_point f p a) self
                end).
    { destruct fidxes as [|f0 fidxes'].
      - destruct (copy_fibers_spec T (range 0 nf) rejIdx n fiberData self Hn)
          as (s1 & idx & H1 & Hrest); [|exact Hd|].
        { intros f p Hf Hp. apply (Hsrc T f p); [left|exact Hf|exact Hp]. }
        exists s1. split; [|exact Hrest].
        erewrite bind2_ok.
        2: { unfold on_fiberData, self_no_of_fibers. cbn [fst snd].
             rewrite (Hnf eq_refl). reflexivity. }
        erewrite bind2_ok by exact H1. reflexivity.
      - destruct (copy_fibers_spec T (f0 :: fidxes') rejIdx n fiberData self Hn)
          as (s1 & idx & H1 & Hrest); [|exact Hd|].
        { intros f p Hf Hp. apply (Hsrc T f p); [left|exact Hf|exact Hp]. }
        exists s1. split; [|exact Hrest].
        erewrite bind2_ok by exact H1. reflexivity. }
    destruct Hone as (s1 & H1 & Hd1 & Hn1 & Hp1 & Hf1).
    destruct (IH ltac:(intros T' f p HT; apply Hsrc; right; exact HT) s1 Hd1)
      as (s2 & H2 & Hd2 & Hn2 & Hp2 & Hf2).
    exists s2. split.
    { cbn [foldM2]. erewrite bind2_ok; [exact H2|exact H1]. }
    split; [exact Hd2|]. split; [congruence|]. split; [congruence|].
    intros f p a. rewrite Hf2, Hf1.
    destruct (decide (0 ≤ f ∧ 0 ≤ p < n)) as [Hfp|Hno].
    + destruct (decide (a ∈ types)) as [Ha|Ha].
      * rewrite (bool_decide_eq_true_2 (_ ∧ _ ∧ a ∈ types)) by tauto.
        rewrite (bool_decide_eq_true_2 (_ ∧ _ ∧ a ∈ T :: types))
          by (split; [tauto|]; split; [tauto|right; exact Ha]).
        destruct (copied fidxes rejIdx nf !! Z.to_nat f) as [g|]; [reflexivity|].
        destruct (bool_decide _); reflexivity.
      * rewrite (bool_decide_eq_false_2 (_ ∧ _ ∧ a ∈ types)) by tauto.
        destruct (decide (a = T)) as [->|HaT].
        -- rewrite (bool_decide_eq_true_2 (_ ∧ _ ∧ T = T)) by tauto.
           rewrite (bool_decide_eq_true_2 (_ ∧ _ ∧ T ∈ T :: types))
             by (split; [tauto|]; split; [tauto|left]).
           reflexivity.
        -- rewrite (bool_decide_eq_false_2 (_ ∧ _ ∧ a = T)) by tauto.
           rewrite bool_decide_eq_false_2; [reflexivity|].
           intros (_ & _ & Hin). apply elem_of_cons in Hin as [?|?]; tauto.
    + rewrite !bool_decide_eq_false_2 by tauto. reflexivity.
Qed.

(** X14. [copyScalar] numbers the fibers it copies from 0, skipping the
    excluded ones: fiber [k] of [self] receives, under every name of
    [scalarTypeArray] and for every point below [fiberData.pts_per_fiber],
    the number of the [k]-th fiber of [fidxes] (of all the fibers of
    [fiberData] when [fidxes] is empty) that is not in [rejIdx].  Every other
    number of [self], its two counts and the whole of [fiberData] stay as
    they are. *)
Theorem copyScalar_compacts (scalarTypeArray : list string) fidxes rejIdx n nf
    fiberData self :
  pts_per_fiber fiberData = Some n →
  (fidxes = [] → no_of_fibers fiberData = Some nf) →
  (∀ T f p, T ∈ scalarTypeArray → f ∈ copied fidxes rejIdx nf → 0 ≤ p < n →
     is_Some (float_at (at_point f p T) fiberData)) →
  depth3 self →
  ∃ self',
    copyScalar scalarTypeArray fidxes rejIdx (self, fiberData)
      = ((self', fiberData), OK tt) ∧
    no_of_fibers self' = no_of_fibers self ∧
    pts_per_fiber self' = pts_per_fiber self ∧
    (∀ (k : nat) g p T,
       copied fidxes rejIdx nf !! k = Some g → 0 ≤ p < n → T ∈ scalarTypeArray →
       float_at (at_point (Z.of_nat k) p T) self'
       = float_at (at_point g p T) fiberData) ∧
    (∀ f p a,
       a ∉ scalarTypeArray ∨ ¬ (0 ≤ f < Z.of_nat (length (copied fidxes rejIdx nf))) ∨
       ¬ (0 ≤ p < n) →
       float_at (at_point f p a) self' = float_at (at_point f p a) self) ∧
    (∀ g, g ∈ copied fidxes rejIdx nf ↔
          g ∈ (if decide (fidxes = []) then range 0 nf else fidxes) ∧ g ∉ rejIdx).
Proof.
  intros Hn Hnf Hsrc Hd.
  destruct (copyScalar_spec scalarTypeArray fidxes rejIdx n nf fiberData Hn Hnf Hsrc self Hd)
    as (self' & Hrun & _ & Hnf' & Hp' & Hfl).
  exists self'. repeat (split; [assumption|]). split; [|split].
  - intros k g p T Hk Hp HT. rewrite Hfl.
    rewrite bool_decide_eq_true_2 by (split; [lia|auto]).
    rewrite Nat2Z.id, Hk. reflexivity.
  - intros f p a Hout. rewrite Hfl.
    destruct (decide (0 ≤ f ∧ 0 ≤ p < n ∧ a ∈ scalarTypeArray)) as [(Hf & Hp & Ha)|Hno].
    + rewrite bool_decide_eq_true_2 by auto.
      rewrite (proj2 (lookup_ge_None _ _)); [reflexivity|].
      destruct Hout as [?|[?|?]]; [tauto|lia|tauto].
    + rewrite bool_decide_eq_false_2 by exact Hno. reflexivity.
  - intros g. unfold copied. rewrite elem_of_not_rejected.
    destruct fidxes; reflexivity.
Qed.

Lemma copyScalar_compacts_witness :
  ∃ self',
    copyScalar ["FA"%string] [] [0]
      (new_FiberTree,
       (addScalar two_fibers [fl 1; fl 2; fl 3; fl 4; fl 5] "FA" (Some 3)
          (ingested two_fibers 3)).1)
    = ((self', (addScalar two_fibers [fl 1; fl 2; fl 3; fl 4; fl 5] "FA" (Some 3)
                  (ingested two_fibers 3)).1), OK tt) ∧
    float_at (at_point 0 2 "FA") self' = Some (fl 3) ∧
    float_at (at_point 1 2 "FA") self' = None.
Proof.
  set (fd := (addScalar two_fibers [fl 1; fl 2; fl 3; fl 4; fl 5] "FA" (Some 3)
                (ingested two_fibers 3)).1).
  assert (Hfd : ∀ p, 0 ≤ p < 3 →
            float_at (at_point 1 p "FA") fd
            = Some (nth (Z.to_nat p) [fl 4; fl 5; fl 3] float_zero)).
  { intros p Hp.
    assert (Hc : p = 0 ∨ p = 1 ∨ p = 2) by lia.
    destruct Hc as [->|[->| ->]]; vm_compute; reflexivity. }
  destruct (copyScalar_compacts ["FA"%string] [] [0] 3 2 fd new_FiberTree)
    as (self' & Hrun & _ & _ & Hin & Hout & _).
  - vm_compute. reflexivity.
  - intros _. vm_compute. reflexivity.
  - intros T f p HT Hf Hp. apply list_elem_of_singleton in HT as ->.
    change (copied [] [0] 2) with [1] in Hf. apply list_elem_of_singleton in Hf as ->.
    rewrite (Hfd p Hp). eexists. reflexivity.
  - apply depth3_new.
  - exists self'. split; [exact Hrun|]. split.
    + pose proof (Hin 0%nat 1 2 "FA"%string eq_refl ltac:(lia) ltac:(left)) as H0.
      change (Z.of_nat 0) with 0 in H0. rewrite H0.
      apply (Hfd 2). lia.
    + rewrite (Hout 1 2 "FA"%string).
      * apply obj_float_at_empty.
      * right. left. change (copied [] [0] 2) with [1]. cbn. lia.
Defined.

Lemma not_rejected_all rejIdx (fs : list Z) :
  (∀ f, f ∈ fs → f ∉ rejIdx) → not_rejected rejIdx fs = fs.
Proof.
  induction fs as [|f fs IH]; intros H; [reflexivity|].
  rewrite not_rejected_cons_out by (apply H; left).
  rewrite IH; [reflexivity|]. intros g Hg. apply H. right. exact Hg.
Qed.

Lemma coord_stored self f p pt a :
  stored_point self f p = Some pt → a ∈ ["x"; "y"; "z"]%string →
  float_at (at_point f p a) self = Some (coord a pt).
Proof.
  intros H Ha. apply stored_point_inv in H as (Hx & Hy & Hz).
  rewrite !elem_of_cons, elem_of_nil in Ha.
  destruct Ha as [->|[->|[->|[]]]]; assumption.
Qed.

(** X15. Selecting fibers into a store of their own: the matrices of
    [getFibers(fidxes)] given to [convertFromTuple], followed by
    [copyScalar] from the first store with the same [fidxes], give a store
    whose fiber [k] answers [getFiber] and [getScalar] as fiber [fidxes[k]]
    of the first store does, when none of the fibers is excluded and the
    first store holds their points and scalars. *)
Theorem select_fibers fidxes rejIdx (scalarTypeArray : list string) n self :
  pts_per_fiber self = Some n → 0 ≤ n →
  fidxes ≠ [] →
  (∀ f, f ∈ fidxes → f ∉ rejIdx) →
  (∀ f p, f ∈ fidxes → 0 ≤ p < n → is_Some (stored_point self f p)) →
  (∀ T f p, T ∈ scalarTypeArray → f ∈ fidxes → 0 ≤ p < n →
     is_Some (float_at (at_point f p T) self)) →
  ∃ t new new',
    getFibers fidxes rejIdx self = (self, OK t) ∧
    convertFromTuple t = OK new ∧
    copyScalar scalarTypeArray fidxes rejIdx (new, self) = ((new', self), OK tt) ∧
    ∀ (k : nat) f, fidxes !! k = Some f →
      (∃ xyz, getFiber (Z.of_nat k) new' = (new', OK xyz) ∧
              getFiber f self = (self, OK xyz)) ∧
      ∀ T, T ∈ scalarTypeArray →
        ∃ vals, getScalar (Z.of_nat k) T new' = (new', OK vals) ∧
                getScalar f T self = (self, OK vals).
Proof.
  intros Hn Hpos Hne Hrej Hall Hsc.
  set (P := fun f p => default (float_zero, float_zero, float_zero) (stored_point self f p)).
  assert (HP : ∀ f p, f ∈ fidxes → 0 ≤ p < n → stored_point self f p = Some (P f p)).
  { intros f p Hf Hp. unfold P. destruct (Hall f p Hf Hp) as [pt ->]. reflexivity. }
  pose proof (getFibers_ok fidxes rejIdx n P self Hn Hpos Hrej HP) as Hget.
  pose proof (rectangular_table (fun f p => (P f p).1.1) (fun f p => (P f p).1.2)
                (fun f p => (P f p).2) fidxes n Hpos) as Hrect.
  assert (Hrows : (1 ≤ length fidxes)%nat).
  { destruct fidxes; [congruence|]. cbn. lia. }
  destruct (convertFromTuple_spec _ _ _ Hrect Hrows)
    as (new & Hrun & Hdn & Hnf & Hpts & Hfl).
  rewrite Z2Nat.id in Hpts, Hfl by lia.
  assert (Hcop : copied fidxes rejIdx 0 = fidxes).
  { unfold copied. destruct fidxes; [congruence|]. apply not_rejected_all, Hrej. }
  destruct (copyScalar_spec scalarTypeArray fidxes rejIdx n 0 self Hn
              ltac:(intros; congruence)) with (self := new)
    as (new' & Hcopy & _ & _ & Hpts' & Hfl').
  { intros T f p HT Hf Hp. rewrite Hcop in Hf. apply Hsc; assumption. }
  { exact Hdn. }
  rewrite Hcop in Hfl'.
  assert (Hkey : ∀ (k : nat) f p a, fidxes !! k = Some f → 0 ≤ p < n →
            a ∈ ["x"; "y"; "z"]%string ∨ a ∈ scalarTypeArray →
            float_at (at_point (Z.of_nat k) p a) new' = float_at (at_point f p a) self).
  { intros k f p a Hk Hp Ha. rewrite Hfl'.
    destruct (decide (a ∈ scalarTypeArray)) as [Hin|Hout].
    - rewrite bool_decide_eq_true_2 by (split; [lia|auto]).
      rewrite Nat2Z.id, Hk. reflexivity.
    - rewrite bool_decide_eq_false_2 by tauto.
      destruct Ha as [Ha|Ha]; [|contradiction].
      rewrite Hfl. pose proof (lookup_lt_Some _ _ _ Hk) as Hlt.
      rewrite bool_decide_eq_true_2 by (split; [lia|auto]).
      rewrite (coord_stored self f p (P f p) a
                 (HP f p (list_elem_of_lookup_2 _ _ _ Hk) Hp) Ha).
      f_equal. unfold tuple_point. cbn [fst snd].
      rewrite !(entry_table _ fidxes n k f p Hk Hp).
      destruct (P f p) as [[x y] z]. reflexivity. }
  eexists _, new, new'. split; [exact Hget|]. split; [exact Hrun|].
  split; [exact Hcopy|].
  intros k f Hk. pose proof (list_elem_of_lookup_2 _ _ _ Hk) as Hf. split.
  - eexists. split.
    + apply (getFiber_ok (Z.of_nat k) n (P f) new' ltac:(congruence) Hpos).
      intros p Hp. apply stored_point_of_floats. intros a Ha.
      rewrite (Hkey k f p a Hk Hp (or_introl Ha)).
      apply coord_stored; [apply HP; assumption|exact Ha].
    + apply (getFiber_ok f n (P f) self Hn Hpos). intros p Hp. apply HP; assumption.
  - intros T HT.
    exists (map (fun p => default float_zero (float_at (at_point f p T) self)) (range 0 n)).
    assert (Hv : ∀ p, 0 ≤ p < n →
              float_at (at_point f p T) self
              = Some (default float_zero (float_at (at_point f p T) self))).
    { intros p Hp. destruct (Hsc T f p HT Hf Hp) as [v ->]. reflexivity. }
    split.
    + apply (getScalar_ok (Z.of_nat k) T n _ new' ltac:(congruence) Hpos).
      intros p Hp. rewrite (Hkey k f p T Hk Hp (or_intror HT)). apply Hv, Hp.
    + apply (getScalar_ok f T n _ self Hn Hpos). exact Hv.
Qed.

Lemma select_fibers_witness :
  ∃ t new new' xyz,
    getFibers [1] []
      (addScalar two_fibers [fl 1; fl 2; fl 3; fl 4; fl 5] "FA" (Some 3)
         (ingested two_fibers 3)).1
    = ((addScalar two_fibers [fl 1; fl 2; fl 3; fl 4; fl 5] "FA" (Some 3)
          (ingested two_fibers 3)).1, OK t) ∧
    convertFromTuple t = OK new ∧
    copyScalar ["FA"%string] [1] []
      (new, (addScalar two_fibers [fl 1; fl 2; fl 3; fl 4; fl 5] "FA" (Some 3)
               (ingested two_fibers 3)).1)
    = ((new', (addScalar two_fibers [fl 1; fl 2; fl 3; fl 4; fl 5] "FA" (Some 3)
                 (ingested two_fibers 3)).1), OK tt) ∧
    getFiber 0 new' = (new', OK xyz).
Proof.
  set (fd := (addScalar two_fibers [fl 1; fl 2; fl 3; fl 4; fl 5] "FA" (Some 3)
                (ingested two_fibers 3)).1).
  assert (Hcases : ∀ p, 0 ≤ p < 3 → p = 0 ∨ p = 1 ∨ p = 2) by lia.
  destruct (select_fibers [1] [] ["FA"%string] 3 fd)
    as (t & new & new' & Hget & Hrun & Hcopy & Hrows).
  - vm_compute. reflexivity.
  - lia.
  - discriminate.
  - intros f _. apply not_elem_of_nil.
  - intros f p Hf Hp. apply list_elem_of_singleton in Hf as ->.
    destruct (Hcases p Hp) as [->|[->| ->]]; vm_compute; eexists; reflexivity.
  - intros T f p HT Hf Hp. apply list_elem_of_singleton in HT as ->.
    apply list_elem_of_singleton in Hf as ->.
    destruct (Hcases p Hp) as [->|[->| ->]]; vm_compute; eexists; reflexivity.
  - destruct (Hrows 0%nat 1 eq_refl) as ((xyz & Hfib & _) & _).
    exists t, new, new', xyz. auto.
Defined.

(** ** The tree: what a read creates and what a write leaves *)


Lemma tree_read_new path : snd (tree_read path empty_tree) = OK empty_tree.
Proof.
  induction path as [|k rest IH]; simpl; [reflexivity|].
  rewrite lookup_empty. simpl.
  destruct (tree_read rest empty_tree) as [c r]. exact IH.
Qed.

Lemma tree_read_raise path : ∀ o o' e,
  tree_read path o = (o', Raise e) → e = TypeError ∧ o' = o.
Proof.
  induction path as [|k rest IH]; intros o o' e H; simpl in *.
  - discriminate.
  - destruct o as [x|d]; [injection H as <- <-; auto|].
    destruct (tree_read rest (default empty_tree (d !! k))) as [c r] eqn:Hr.
    injection H as <- ->.
    destruct (d !! k) as [c0|] eqn:Hk; simpl in Hr.
    + destruct (IH _ _ _ Hr) as [-> ->]. split; [reflexivity|].
      rewrite insert_id by exact Hk. reflexivity.
    + pose proof (tree_read_new rest) as Hnew. rewrite Hr in Hnew. discriminate.
Qed.

Lemma tree_read_missing path : ∀ o o' v,
  tree_lookup path o = None → tree_read path o = (o', OK v) → v = empty_tree.
Proof.
  induction path as [|k rest IH]; intros o o' v Hl H; simpl in *.
  - discriminate.
  - destruct o as [x|d]; [discriminate|].
    destruct (tree_read rest (default empty_tree (d !! k))) as [c r] eqn:Hr.
    injection H as _ ->.
    destruct (d !! k) as [c0|] eqn:Hk; simpl in Hr.
    + eapply IH; eassumption.
    + pose proof (tree_read_new rest) as Hnew. rewrite Hr in Hnew.
      injection Hnew as ->. reflexivity.
Qed.

Lemma read_frozen path self self' r :
  read path self = (self', r) → frozen self self'.
Proof.
  unfold read. intros H.
  pose proof (tree_read_float_at path) as Hfl.
  destruct (tree_read path (fiberTree self)) as [t r'] eqn:Hr.
  injection H as <- <-. split; [reflexivity|]. split; [reflexivity|].
  intros q. specialize (Hfl q (fiberTree self)). rewrite Hr in Hfl. exact Hfl.
Qed.





(** ** [calcFiberLength]: what it needs and what it leaves *)

Lemma Keeps_ret {A} (a : A) : Keeps (ret a).
Proof. intros self self' r H. injection H as <- _. apply frozen_refl. Qed.

Lemma Keeps_lift {A} (x : result A) : Keeps (lift x).
Proof. intros self self' r H. injection H as <- _. apply frozen_refl. Qed.

Lemma Keeps_read path : Keeps (read path).
Proof. intros self self' r H. eapply read_frozen. exact H. Qed.

Lemma Keeps_bind {A B} (m : M A) (k : A → M B) :
  Keeps m → (∀ a, Keeps (k a)) → Keeps (bindM m k).
Proof.
  intros Hm Hk self self' r H. unfold bindM in H.
  destruct (m self) as [mid [a|e]] eqn:Hmid.
  - eapply frozen_trans; [eapply Hm; exact Hmid|eapply Hk; exact H].
  - injection H as <- _. eapply Hm. exact Hmid.
Qed.

Lemma Keeps_foldM {A S} (l : list A) (body : A → S → M S) :
  (∀ x s, Keeps (body x s)) → ∀ s, Keeps (foldM l body s).
Proof.
  intros Hb. induction l as [|x l IH]; intros s; cbn [foldM].
  - apply Keeps_ret.
  - apply Keeps_bind; [apply Hb|exact IH].
Qed.

Lemma Raises_ret {A} E (a : A) : Raises E (ret a).
Proof. intros self self' e H. discriminate. Qed.

Lemma Raises_bind {A B} E (m : M A) (k : A → M B) :
  Raises E m → (∀ a, Raises E (k a)) → Raises E (bindM m k).
Proof.
  intros Hm Hk self self' e H. unfold bindM in H.
  destruct (m self) as [mid [a|e']] eqn:Hmid.
  - eapply Hk. exact H.
  - injection H as _ <-. eapply Hm. exact Hmid.
Qed.

Lemma Raises_foldM {A S} E (l : list A) (body : A → S → M S) :
  (∀ x s, Raises E (body x s)) → ∀ s, Raises E (foldM l body s).
Proof.
  intros Hb. induction l as [|x l IH]; intros s; cbn [foldM].
  - apply Raises_ret.
  - apply Raises_bind; [apply Hb|exact IH].
Qed.

Lemma Raises_read (E : exn → Prop) path : E TypeError → Raises E (read path).
Proof.
  intros HE self self' e H. unfold read in H.
  destruct (tree_read path (fiberTree self)) as [t r] eqn:Hr.
  injection H as _ ->. destruct (tree_read_raise _ _ _ _ Hr) as [-> _]. exact HE.
Qed.

Lemma read_number path self self' x :
  read path self = (self', OK (PyFloat x)) → self' = self ∧ float_at path self = Some x.
Proof.
  intros H. unfold read in H.
  destruct (tree_read path (fiberTree self)) as [t r] eqn:Hr.
  injection H as <- ->.
  destruct (tree_lookup path (fiberTree self)) as [v0|] eqn:Hl.
  - rewrite (tree_read_present _ _ _ Hl) in Hr. injection Hr as <- Hv. subst v0.
    split; [apply FiberTree_eta|]. unfold float_at, obj_float_at. rewrite Hl. reflexivity.
  - apply tree_read_missing in Hr; [discriminate|exact Hl].
Qed.

Lemma segment_length_raises x1 x2 y1 y2 z1 z2 e :
  segment_length x1 x2 y1 y2 z1 z2 = Raise e → e = TypeError ∨ e = OverflowError.
Proof.
  assert (Hsub : ∀ a b e', py_sub a b = Raise e' → e' = TypeError).
  { intros [a|a] [b|b] e' H; simpl in H; congruence. }
  assert (Hpow : ∀ a e', float_pow2 a = Raise e' → e' = OverflowError).
  { intros a e' H. unfold float_pow2 in H.
    destruct a; try discriminate. destruct (float_mul _ _); congruence. }
  unfold segment_length. intros H.
  destruct (py_sub x2 x1) as [dx|e1] eqn:H1; cbn [bindR] in H;
    [|injection H as <-; left; eapply Hsub; exact H1].
  destruct (float_pow2 dx) as [dx2|e2] eqn:H2; cbn [bindR] in H;
    [|injection H as <-; right; eapply Hpow; exact H2].
  destruct (py_sub y2 y1) as [dy|e3] eqn:H3; cbn [bindR] in H;
    [|injection H as <-; left; eapply Hsub; exact H3].
  destruct (float_pow2 dy) as [dy2|e4] eqn:H4; cbn [bindR] in H;
    [|injection H as <-; right; eapply Hpow; exact H4].
  destruct (py_sub z2 z1) as [dz|e5] eqn:H5; cbn [bindR] in H;
    [|injection H as <-; left; eapply Hsub; exact H5].
  destruct (float_pow2 dz) as [dz2|e6] eqn:H6; cbn [bindR] in H;
    [|injection H as <-; right; eapply Hpow; exact H6].
  discriminate.
Qed.

Lemma segment_length_numbers x1 x2 y1 y2 z1 z2 d :
  segment_length x1 x2 y1 y2 z1 z2 = OK d →
  ∃ a1 a2 b1 b2 c1 c2,
    x1 = PyFloat a1 ∧ x2 = PyFloat a2 ∧ y1 = PyFloat b1 ∧ y2 = PyFloat b2 ∧
    z1 = PyFloat c1 ∧ z2 = PyFloat c2.
Proof.
  unfold segment_length. intros H.
  destruct x2 as [a2|]; [|discriminate]. destruct x1 as [a1|]; [|discriminate].
  cbn [py_sub bindR] in H.
  destruct (float_pow2 _) as [dx2|]; [|discriminate]. cbn [bindR] in H.
  destruct y2 as [b2|]; [|discriminate]. destruct y1 as [b1|]; [|discriminate].
  cbn [py_sub bindR] in H.
  destruct (float_pow2 _) as [dy2|]; [|discriminate]. cbn [bindR] in H.
  destruct z2 as [c2|]; [|discriminate]. destruct z1 as [c1|]; [|discriminate].
  eexists _, _, _, _, _, _. repeat split; reflexivity.
Qed.

Lemma calc_step_keeps fidx idx L :
  Keeps
    (do x1 <- read (at_point fidx idx "x");
     do x2 <- read (at_point fidx (idx - 1) "x");
     do y1 <- read (at_point fidx idx "y");
     do y2 <- read (at_point fidx (idx - 1) "y");
     do z1 <- read (at_point fidx idx "z");
     do z2 <- read (at_point fidx (idx - 1) "z");
     do d <- lift (segment_length x1 x2 y1 y2 z1 z2);
     ret (float_add L d)).
Proof.
  repeat (apply Keeps_bind; [apply Keeps_read|intros ?]).
  apply Keeps_bind; [apply Keeps_lift|intros ?]. apply Keeps_ret.
Qed.

Lemma calc_step_raises fidx idx L :
  Raises (fun e => e = TypeError ∨ e = OverflowError)
    (do x1 <- read (at_point fidx idx "x");
     do x2 <- read (at_point fidx (idx - 1) "x");
     do y1 <- read (at_point fidx idx "y");
     do y2 <- read (at_point fidx (idx - 1) "y");
     do z1 <- read (at_point fidx idx "z");
     do z2 <- read (at_point fidx (idx - 1) "z");
     do d <- lift (segment_length x1 x2 y1 y2 z1 z2);
     ret (float_add L d)).
Proof.
  repeat (apply Raises_bind; [apply Raises_read; left; reflexivity|intros ?]).
  apply Raises_bind; [|intros ?; apply Raises_ret].
  intros self self' e H. injection H as _ H. eapply segment_length_raises. exact H.
Qed.

Lemma calc_step_needs fidx idx L self self' L' :
  (do x1 <- read (at_point fidx idx "x");
   do x2 <- read (at_point fidx (idx - 1) "x");
   do y1 <- read (at_point fidx idx "y");
   do y2 <- read (at_point fidx (idx - 1) "y");
   do z1 <- read (at_point fidx idx "z");
   do z2 <- read (at_point fidx (idx - 1) "z");
   do d <- lift (segment_length x1 x2 y1 y2 z1 z2);
   ret (float_add L d)) self = (self', OK L') →
  is_Some (stored_point self fidx idx) ∧ is_Some (stored_point self fidx (idx - 1)).
Proof.
  intros H.
  apply bindM_inv_ok in H as (s1 & x1 & H1 & H).
  apply bindM_inv_ok in H as (s2 & x2 & H2 & H).
  apply bindM_inv_ok in H as (s3 & y1 & H3 & H).
  apply bindM_inv_ok in H as (s4 & y2 & H4 & H).
  apply bindM_inv_ok in H as (s5 & z1 & H5 & H).
  apply bindM_inv_ok in H as (s6 & z2 & H6 & H).
  apply bindM_inv_ok in H as (s7 & d & Hd & _).
  injection Hd as _ Hd.
  apply segment_length_numbers in Hd
    as (a1 & a2 & b1 & b2 & c1 & c2 & -> & -> & -> & -> & -> & ->).
  apply read_number in H1 as [-> K1]. apply read_number in H2 as [-> K2].
  apply read_number in H3 as [-> K3]. apply read_number in H4 as [-> K4].
  apply read_number in H5 as [-> K5]. apply read_number in H6 as [-> K6].
  unfold stored_point. rewrite K1, K2, K3, K4, K5, K6. split; eexists; reflexivity.
Qed.

(** On a list of results that are all there, the loop gives all of them. *)
Lemma foldM_needs {A S} (Q : A → FiberTree → Prop) (l : list A) (body : A → S → M S) :
  (∀ x st st', frozen st st' → Q x st' → Q x st) →
  (∀ x s, Keeps (body x s)) →
  (∀ x s st st' s', body x s st = (st', OK s') → Q x st) →
  ∀ s st st' s', foldM l body s st = (st', OK s') → ∀ x, x ∈ l → Q x st.
Proof.
  intros HQ Hk Hb. induction l as [|y l IH]; intros s st st' s' H x Hx.
  - apply elem_of_nil in Hx. contradiction.
  - cbn [foldM] in H. apply bindM_inv_ok in H as (mid & s1 & H1 & H2).
    apply elem_of_cons in Hx as [->|Hx].
    + eapply Hb. exact H1.
    + eapply HQ; [eapply Hk; exact H1|]. eapply IH; eassumption.
Qed.

Lemma stored_point_frozen st st' f p :
  frozen st st' → stored_point st' f p = stored_point st f p.
Proof. intros (_ & _ & H). unfold stored_point. rewrite !H. reflexivity. Qed.

(** X18. [calcFiberLength] changes no number and no count of the store,
    whatever it does.  It returns only when the store has at least two
    points per fiber and holds every point of every fiber asked for: the
    store is then exactly as before and the list has one length per fiber
    asked for.  Otherwise it raises ValueError (fewer than two points per
    fiber), TypeError or OverflowError. *)
Theorem calcFiberLength_needs_points fidxes self self' r :
  calcFiberLength fidxes self = (self', r) →
  frozen self self' ∧
  match r with
  | OK ls =>
      self' = self ∧ length ls = length fidxes ∧
      ∃ n, pts_per_fiber self = Some n ∧ 2 ≤ n ∧
           ∀ f p, f ∈ fidxes → 0 ≤ p < n → is_Some (stored_point self f p)
  | Raise e => e = ValueError ∨ e = TypeError ∨ e = OverflowError
  end.
Proof.
  intros H. pose proof H as Hrun. unfold calcFiberLength in H.
  destruct (pts_per_fiber self) as [n|] eqn:Hn;
    [|injection H as <- <-; split; [apply frozen_refl|left; reflexivity]].
  destruct (n <? 2) eqn:Hlt;
    [injection H as <- <-; split; [apply frozen_refl|left; reflexivity]|].
  apply Z.ltb_ge in Hlt.
  assert (Hkeep : ∀ f (LArray : list float),
            Keeps (do L <- foldM (range 1 n)
                             (fun idx L =>
                                do x1 <- read (at_point f idx "x");
                                do x2 <- read (at_point f (idx - 1) "x");
                                do y1 <- read (at_point f idx "y");
                                do y2 <- read (at_point f (idx - 1) "y");
                                do z1 <- read (at_point f idx "z");
                                do z2 <- read (at_point f (idx - 1) "z");
                                do d <- lift (segment_length x1 x2 y1 y2 z1 z2);
                                ret (float_add L d))
                             float_zero;
                   ret (LArray ++ [L]))).
  { intros f LArray. apply Keeps_bind; [|intros ?; apply Keeps_ret].
    apply Keeps_foldM. intros idx L. apply calc_step_keeps. }
  split; [eapply (Keeps_foldM fidxes _ Hkeep); exact H|].
  destruct r as [ls|e].
  - assert (Hall : ∀ f p, f ∈ fidxes → 0 ≤ p < n → is_Some (stored_point self f p)).
    { intros f p Hf Hp.
      pose proof (foldM_needs (fun f st => ∀ p, 0 ≤ p < n → is_Some (stored_point st f p))
                    fidxes _
                    ltac:(intros x st st' Hfz HQ q Hq;
                          rewrite <- (stored_point_frozen st st' x q Hfz); apply HQ, Hq)
                    Hkeep) as Hneeds.
      eapply Hneeds; [|exact H|exact Hf|exact Hp].
      clear - Hlt. intros f LArray st st' s' Hbody q Hq.
      apply bindM_inv_ok in Hbody as (mid & L & Hin & _).
      pose proof (foldM_needs
                    (fun idx st => is_Some (stored_point st f idx) ∧
                                   is_Some (stored_point st f (idx - 1)))
                    (range 1 n) _
                    ltac:(intros x s0 s1 Hfz [HQ1 HQ2];
                          rewrite <- !(stored_point_frozen s0 s1 f _ Hfz); auto)
                    (calc_step_keeps f)
                    ltac:(intros idx L0 s0 s1 L1 Hs; eapply calc_step_needs; exact Hs)
                    _ _ _ _ Hin) as Hpts.
      destruct (decide (q = 0)) as [->|Hq0].
      - destruct (Hpts 1) as [_ H0]; [apply elem_of_range; lia|exact H0].
      - destruct (Hpts q) as [H1 _]; [apply elem_of_range; lia|exact H1]. }
    set (P := fun f p => default (float_zero, float_zero, float_zero) (stored_point self f p)).
    pose proof (calcFiberLength_spec self n fidxes P Hn Hlt) as Hspec.
    rewrite Hspec in Hrun.
    2: { intros f i Hf Hi. unfold P. destruct (Hall f i Hf Hi) as [pt ->]. reflexivity. }
    injection Hrun as <- Hls. split; [reflexivity|].
    split; [apply (mapR_ok _ _ _ Hls)|]. exists n. auto.
  - right. revert H. apply (Raises_foldM (fun e => e = TypeError ∨ e = OverflowError)).
    intros f LArray. apply Raises_bind; [|intros ?; apply Raises_ret].
    apply Raises_foldM. intros idx L. apply calc_step_raises.
Qed.

Lemma calcFiberLength_needs_points_witness :
  frozen new_FiberTree (calcFiberLength [0] new_FiberTree).1 ∧
  (calcFiberLength [0] new_FiberTree).2 = Raise ValueError.
Proof.
  pose proof (calcFiberLength_needs_points [0] new_FiberTree
                (calcFiberLength [0] new_FiberTree).1 (Raise ValueError) eq_refl) as [Hfz _].
  split; [exact Hfz|reflexivity].
Defined.

(** ** Export followed by ingestion *)

Lemma cell_table {V} (g : Z → Z → V) nf n f p :
  0 ≤ f < nf → 0 ≤ p < n →
  cell (map (fun f => map (g f) (range 0 n)) (range 0 nf)) f p = Some (g f p).
Proof.
  intros Hf Hp. unfold cell. rewrite bool_decide_eq_true_2 by lia.
  change (map ?h (range 0 nf)) with (h <$> range 0 nf).
  rewrite list_lookup_fmap. unfold range. rewrite lookup_seqZ_lt by lia.
  cbn [fmap option_fmap option_map mbind option_bind].
  change (map ?h (seqZ 0 (n - 0))) with (h <$> seqZ 0 (n - 0)).
  rewrite list_lookup_fmap, lookup_seqZ_lt by lia.
  cbn [fmap option_fmap option_map]. do 2 f_equal; lia.
Qed.

(** X19. A store written out with [convertToVTK] and read back with
    [convertFromVTK] at the same number of points per fiber has the same
    fibers, rounded to binary32: for a store of [nf] fibers of [n] points,
    [2 <= n < 2^53], that holds all its points, the export returns a
    geometry, its ingestion with [pts_per_fiber = n] returns, and the new
    store has [nf] fibers of [n] points, each point being the point of the
    first store with its coordinates rounded to binary32. *)
Theorem convertToVTK_then_convertFromVTK self nf n :
  no_of_fibers self = Some nf → pts_per_fiber self = Some n →
  0 ≤ nf → 2 ≤ n < 2 ^ 53 →
  (∀ f p, 0 ≤ f < nf → 0 ≤ p < n → is_Some (stored_point self f p)) →
  ∃ out new,
    convertToVTK [] self = (self, OK out) ∧
    convertFromVTK out (Some n) new_FiberTree = (new, OK tt) ∧
    no_of_fibers new = Some nf ∧ pts_per_fiber new = Some n ∧
    ∀ f p, 0 ≤ f < nf → 0 ≤ p < n →
      ∃ pt, stored_point self f p = Some pt ∧
            stored_point new f p = Some (point32 pt).
Proof.
  intros Hnf Hn Hnf0 Hn2 Hall.
  set (P := fun f p => default (float_zero, float_zero, float_zero) (stored_point self f p)).
  assert (HP : ∀ f p, 0 ≤ f < nf → 0 ≤ p < n → stored_point self f p = Some (P f p)).
  { intros f p Hf Hp. unfold P. destruct (Hall f p Hf Hp) as [pt ->]. reflexivity. }
  destruct (convertToVTK_spec self nf n P Hnf Hn HP) as (out & Hout & Hco).
  unfold fiber_coords in Hco.
  pose proof (mapR_ok _ _ _ Hco) as [Hlen Hel].
  assert (Hm : mapR (fiber_samples (GetPoint (GetPoints out)) n) (GetLines out)
               = OK (map (fun f => map (fun p => point32 (P f p)) (range 0 n))
                         (range 0 nf))).
  { etransitivity; [|exact Hco]. apply mapR_ext. intros ptIds Hin.
    apply fiber_samples_same; [exact Hn2|].
    apply list_elem_of_lookup_1 in Hin as [i Hi].
    destruct (Hel i ptIds Hi) as (row & Hrow & Hlook).
    apply mapR_ok in Hrow as [Hrl _].
    change (map ?h (range 0 nf)) with (h <$> range 0 nf) in Hlook.
    rewrite list_lookup_fmap in Hlook.
    destruct (range 0 nf !! i) as [f|]; [|discriminate]. injection Hlook as <-.
    unfold GetNumberOfIds. rewrite <- Hrl, length_map, length_range. lia. }
  destruct (ingested_cells out n _ Hm) as (new & Hrun & _ & Hnf' & Hn' & Hcell).
  exists out, new. split; [exact Hout|]. split; [exact Hrun|]. split.
  { rewrite Hnf'. f_equal. unfold GetNumberOfLines.
    rewrite <- Hlen, length_map, length_range. lia. }
  split; [exact Hn'|].
  intros f p Hf Hp. exists (P f p). split; [apply HP; assumption|]. rewrite Hcell.
  apply (cell_table (fun f p => point32 (P f p)) nf n f p Hf Hp).
Qed.

Lemma convertToVTK_then_convertFromVTK_witness :
  ∃ out new,
    convertToVTK [] (ingested two_fibers 3) = (ingested two_fibers 3, OK out) ∧
    convertFromVTK out (Some 3) new_FiberTree = (new, OK tt) ∧
    stored_point new 1 2 = Some (pt3 1 1 0).
Proof.
  destruct (ingested_pts_per_fiber _ _ _ two_fibers_ingestion) as (Hn & Hnf & _).
  destruct (convertToVTK_then_convertFromVTK (ingested two_fibers 3) 2 3 Hnf Hn)
    as (out & new & Hout & Hrun & _ & _ & Hpts); [lia|lia| |].
  - intros f p Hf Hp.
    apply (ingested_stored_points two_fibers 3 _ f p two_fibers_ingestion); assumption.
  - exists out, new. split; [exact Hout|]. split; [exact Hrun|].
    destruct (Hpts 1 2 ltac:(lia) ltac:(lia)) as (pt & Hold & Hnew).
    assert (Hpt : stored_point (ingested two_fibers 3) 1 2 = Some (pt3 1 1 0))
      by (vm_compute; reflexivity).
    rewrite Hpt in Hold. injection Hold as <-. rewrite Hnew. vm_compute. reflexivity.
Defined.

(** ** [addScalar] and the length of the scalar array *)

Lemma mapR_raise {A B} (f : A → result B) (l : list A) e :
  mapR f l = Raise e → ∃ x, x ∈ l ∧ f x = Raise e.
Proof.
  induction l as [|x l IH]; simpl; intros H; [discriminate|].
  destruct (f x) as [y|e'] eqn:Hx; cbn [bindR] in H.
  - destruct (mapR f l) as [ys|e'']; cbn [bindR] in H; [discriminate|].
    injection H as ->. destruct (IH eq_refl) as (z & Hz & Hfz).
    exists z. split; [right; exact Hz|exact Hfz].
  - injection H as ->. exists x. split; [left|exact Hx].
Qed.

Lemma mapR_fails {A B} (f : A → result B) (l : list A) x e :
  x ∈ l → f x = Raise e → is_ok (mapR f l) = false.
Proof.
  intros Hx Hf. destruct (mapR f l) as [ys|e'] eqn:Hm; [|reflexivity].
  apply mapR_ok in Hm as [_ Hel]. apply list_elem_of_lookup_1 in Hx as [i Hi].
  destruct (Hel i x Hi) as (y & Hy & _). congruence.
Qed.

Lemma mapR_bind_ok {A B C} (g : A → result B) (f : B → result C) (l : list A) : ∀ ys,
  mapR g l = OK ys → mapR (fun x => let+ y := g x in f y) l = mapR f ys.
Proof.
  induction l as [|x l IH]; simpl; intros ys H.
  - injection H as <-. reflexivity.
  - destruct (g x) as [y|e]; cbn [bindR] in H; [|discriminate].
    destruct (mapR g l) as [ys'|e]; cbn [bindR] in H; [|discriminate].
    injection H as <-. cbn [bindR mapR]. rewrite (IH ys' eq_refl). reflexivity.
Qed.

(** The point ids that the resampling of a fiber visits: ids of the fiber,
    its first and its last among them. *)
Lemma sampled_ids {V} (fetch : Z → result V) n ptIds :
  1 ≤ GetNumberOfIds ptIds ≤ 2 ^ 49 → 2 ≤ n < 2 ^ 53 →
  ∃ ids, fiber_samples fetch n ptIds = mapR fetch ids ∧
    (∀ id, id ∈ ids → id ∈ ptIds) ∧
    (∀ a, ptIds !! 0%nat = Some a → a ∈ ids) ∧
    (∀ b, last ptIds = Some b → b ∈ ids).
Proof.
  intros Hs Hn.
  destruct (fiber_samples_total (fun id : Z => OK id) n ptIds Hs Hn ltac:(reflexivity))
    as (positions & ids & Hcalc & Hids & Hlen & Hlen' & Hpos).
  exists ids. split; [|split; [|split]].
  - unfold fiber_samples in *. rewrite Hcalc in *. cbn [bindR] in *.
    unfold fetch_sample in *.
    rewrite <- (mapR_bind_ok (sample_id ptIds) fetch positions ids); [reflexivity|].
    rewrite <- Hids. apply mapR_ext. intros pos _.
    destruct (sample_id ptIds pos); reflexivity.
  - intros id Hid. apply list_elem_of_lookup_1 in Hid as [p Hp].
    destruct (lookup_lt_is_Some_2 positions p) as [pos Hpp].
    { rewrite <- Hlen'. eapply lookup_lt_Some. exact Hp. }
    destruct (Hpos p pos Hpp) as (k & id' & v & _ & _ & _ & Hin & Hv & Hlook).
    injection Hv as <-. congruence.
  - intros a Ha.
    rewrite calc_fiber_indices_value in Hcalc by lia. injection Hcalc as <-.
    destruct (Hpos 0%nat (float_mul (fl 0)
                (SFdiv prec emax (fl (GetNumberOfIds ptIds - 1)) (fl (n - 1)))))
      as (k & id & v & Hk & _ & Hid & _ & Hv & Hlook).
    { change (map ?f ?l) with (f <$> l). rewrite list_lookup_fmap. unfold range.
      rewrite lookup_seqZ_lt by lia. reflexivity. }
    rewrite first_position_rounds in Hk by lia. injection Hk as <-.
    apply GetId_lookup in Hid as [_ Hid]. change (Z.to_nat 0) with 0%nat in Hid.
    injection Hv as <-. assert (a = id) as -> by congruence.
    eapply list_elem_of_lookup_2. exact Hlook.
  - intros b Hb.
    rewrite calc_fiber_indices_value in Hcalc by lia. injection Hcalc as <-.
    destruct (Hpos (Z.to_nat (n - 1)) (float_mul (fl (n - 1))
                (SFdiv prec emax (fl (GetNumberOfIds ptIds - 1)) (fl (n - 1)))))
      as (k & id & v & Hk & _ & Hid & _ & Hv & Hlook).
    { change (map ?f ?l) with (f <$> l). rewrite list_lookup_fmap. unfold range.
      rewrite lookup_seqZ_lt by lia. cbn [fmap option_fmap option_map].
      rewrite Z2Nat.id, Z.add_0_l by lia. reflexivity. }
    rewrite last_position_rounds in Hk by lia. injection Hk as <-.
    apply GetId_lookup in Hid as [_ Hid].
    rewrite last_lookup in Hb.
    replace (Z.to_nat (GetNumberOfIds ptIds - 1)) with (pred (length ptIds)) in Hid
      by (unfold GetNumberOfIds; lia).
    injection Hv as <-. assert (b = id) as -> by congruence.
    eapply list_elem_of_lookup_2. exact Hlook.
Qed.

Lemma py_getitem_raises {A} (l : list A) i e : py_getitem l i = Raise e → e = IndexError.
Proof.
  unfold py_getitem. cbv zeta.
  destruct (_ <? 0); [intros H; injection H as <-; reflexivity|].
  destruct (l !! _); [discriminate|]. intros H. injection H as <-. reflexivity.
Qed.

Lemma py_getitem_beyond {A} (l : list A) i :
  Z.of_nat (length l) ≤ i → py_getitem l i = Raise IndexError.
Proof.
  intros Hi. unfold py_getitem. cbv zeta.
  rewrite !(proj2 (Z.ltb_ge i 0)) by lia.
  rewrite (proj2 (lookup_ge_None l (Z.to_nat i))) by lia. reflexivity.
Qed.

(** X20. [addScalar] and the length of [scalarData], on a store that was
    ingested from a geometry whose fibers have between 1 and [2^49] points,
    with [2 <= pts_per_fiber < 2^53].  The call returns or raises IndexError,
    nothing else.  It raises IndexError when the first or the last point of
    some fiber has an id at or beyond [len(scalarData)], and it returns when
    every point id of every fiber is a valid index of [scalarData]. *)
Theorem addScalar_needs_scalars g data name n self :
  depth3 self → no_of_fibers self = Some (GetNumberOfLines g) →
  (∀ ptIds, ptIds ∈ GetLines g → 1 ≤ GetNumberOfIds ptIds ≤ 2 ^ 49) →
  2 ≤ n < 2 ^ 53 →
  ∃ self' r, addScalar g data name (Some n) self = (self', r) ∧
    (r = OK tt ∨ r = Raise IndexError) ∧
    ((∃ ptIds id, ptIds ∈ GetLines g ∧
                  (ptIds !! 0%nat = Some id ∨ last ptIds = Some id) ∧
                  Z.of_nat (length data) ≤ id) →
     r = Raise IndexError) ∧
    ((∀ ptIds id, ptIds ∈ GetLines g → id ∈ ptIds →
                  0 ≤ id < Z.of_nat (length data)) →
     r = OK tt).
Proof.
  intros Hd Hnf Hlines Hn.
  pose proof (addScalar_spec g data name (Some n) self Hd Hnf) as Hspec.
  change (default 20 (Some n)) with n in Hspec.
  destruct (mapR (fiber_samples (py_getitem data) n) (GetLines g)) as [vss|e] eqn:Hm.
  - destruct Hspec as (self' & Hrun & _). exists self', (OK tt).
    split; [exact Hrun|]. split; [left; reflexivity|]. split; [|reflexivity].
    intros (ptIds & id & Hin & Hend & Hid). exfalso.
    destruct (sampled_ids (py_getitem data) n ptIds (Hlines ptIds Hin) Hn)
      as (ids & Heq & _ & Hfirst & Hlast).
    assert (Hidin : id ∈ ids) by (destruct Hend; auto).
    pose proof (mapR_fails _ _ _ _ Hidin (py_getitem_beyond data id Hid)) as Hfail.
    rewrite <- Heq in Hfail.
    destruct (fiber_samples (py_getitem data) n ptIds) as [vs|e] eqn:HF; [discriminate|].
    pose proof (mapR_fails _ _ _ _ Hin HF) as Hno. rewrite Hm in Hno. discriminate.
  - destruct Hspec as (self' & Hrun). exists self', (Raise e).
    split; [exact Hrun|].
    apply mapR_raise in Hm as (ptIds & Hin & HF).
    destruct (sampled_ids (py_getitem data) n ptIds (Hlines ptIds Hin) Hn)
      as (ids & Heq & Hsub & _). rewrite Heq in HF.
    apply mapR_raise in HF as (id & Hid & Hget).
    pose proof (py_getitem_raises _ _ _ Hget) as ->.
    split; [right; reflexivity|]. split; [reflexivity|].
    intros Hall. exfalso. specialize (Hall ptIds id Hin (Hsub id Hid)).
    destruct (py_getitem_inside data id Hall) as (v & _ & Hv). congruence.
Qed.

Lemma addScalar_needs_scalars_witness :
  ∃ self',
    addScalar two_fibers [fl 1; fl 2; fl 3] "FA" (Some 3) (ingested two_fibers 3)
    = (self', Raise IndexError).
Proof.
  destruct (ingested_pts_per_fiber _ _ _ two_fibers_ingestion) as (_ & Hnf & Hd).
  destruct (addScalar_needs_scalars two_fibers [fl 1; fl 2; fl 3] "FA" 3
              (ingested two_fibers 3) Hd Hnf)
    as (self' & r & Hrun & _ & Hbad & _).
  - intros ptIds Hin. change (GetLines two_fibers) with [[0; 1; 2]; [3; 4; 2]] in Hin.
    rewrite !elem_of_cons, elem_of_nil in Hin.
    destruct Hin as [->|[->|[]]]; vm_compute; split; discriminate.
  - lia.
  - exists self'. rewrite Hrun. f_equal. apply Hbad.
    exists [3; 4; 2], 3. split; [right; left|]. split; [left; reflexivity|].
    cbn. lia.
Defined.
